(** * Chime chat server: channel fan-out and message ordering

    A shallow embedding of the chat server's core
    (chat-server/src): [ChannelManager], [UserConnectionManager],
    [MessageSubscriberService], [MessageIDService] and [MessageService],
    with the properties of the specification proved about them, and
    further the message checks (types/message.ts), the close event of
    the connection handler, [MessageBroadcastService], [ChimeRedisClient]
    and [ServiceContainer].

    Conventions of the embedding.
    - A JavaScript [Set] is the list of its elements in insertion order,
      a [Map] the list of its entries in insertion order: [Array.from]
      and [forEach] observe exactly that order.
    - Synchronous methods run in the monad [M]: they read and write the
      object's state, may complete normally or by a thrown exception, and
      leave a trace of the calls they make on external objects.
    - Calls to the logger change neither state nor control flow and are
      left out. *)

From stdpp Require Import base decidable option list strings gmap sorting.
From Stdlib Require Import ZArith Lia DecimalString DecimalZ DecimalPos.

Open Scope string_scope.
Open Scope list_scope.
Open Scope Z_scope.

(** ** JavaScript values *)

(** Exceptions that cross the code under study. *)
Inductive Err : Type :=
| TypeError (msg : string)
| SyntaxError (msg : string)
| Error (msg : string).

(** How a statement completes. *)
Inductive Completion (A : Type) : Type :=
| Normal (a : A)
| Thrown (e : Err).
Arguments Normal {A} a.
Arguments Thrown {A} e.

(** The values [JSON.parse] produces. *)
#[warnings="-register-all"]
Inductive JValue : Type :=
| JNull
| JBool (b : bool)
| JNum (n : Z)
| JStr (s : string)
| JArr (items : list JValue)
| JObj (fields : list (string * JValue)).

(** A text travelling on the bus or on a socket.  A text is kept as what
    [JSON.parse] makes of it: [JSONText v] is a text that parses to [v]
    (and is what [JSON.stringify v] writes), [RawText s] is a text that
    is not JSON. *)
Inductive WireText : Type :=
| RawText (s : string)
| JSONText (v : JValue).

Definition JSON_parse (data : WireText) : Completion JValue :=
  match data with
  | RawText s => Thrown (SyntaxError s)
  | JSONText v => Normal v
  end.

Definition JSON_stringify (v : JValue) : WireText := JSONText v.

(** Own property lookup in an object literal. *)
Fixpoint field (name : string) (fields : list (string * JValue)) : option JValue :=
  match fields with
  | [] => None
  | (k, v) :: rest => if decide (name = k) then Some v else field name rest
  end.

(** [v.name] where [v] is not [null]: [None] is [undefined].  Only
    objects made by [JSON.parse] carry the properties looked up here. *)
Definition prop_of (v : JValue) (name : string) : option JValue :=
  match v with
  | JObj fields => field name fields
  | _ => None
  end.

(** [v.name]: reading a property of [null] throws. *)
Definition get_prop (v : JValue) (name : string) : Completion (option JValue) :=
  match v with
  | JNull => Thrown (TypeError "Cannot read properties of null")
  | _ => Normal (prop_of v name)
  end.

(** ToBoolean. *)
Definition truthy (v : JValue) : bool :=
  match v with
  | JNull => false
  | JBool b => b
  | JNum n => negb (n =? 0)
  | JStr s => negb (String.eqb s "")
  | JArr _ => true
  | JObj _ => true
  end.

Definition truthy_opt (o : option JValue) : bool :=
  match o with
  | None => false
  | Some v => truthy v
  end.

(** [typeof v === 'object'] *)
Definition typeof_object (v : JValue) : bool :=
  match v with
  | JNull | JArr _ | JObj _ => true
  | _ => false
  end.

(** [isValidChimeMessage] (types/message.ts): the check of the
    [ChimeMessage] shape. *)
Definition isValidChimeMessage (message : JValue) : bool :=
  if negb (truthy message) || negb (typeof_object message) then false
  else
    truthy_opt (prop_of message "channelId")
    && truthy_opt (prop_of message "messageId")
    && truthy_opt (prop_of message "userId")
    && truthy_opt (prop_of message "content")
    && truthy_opt (prop_of message "createdAt").

(** ** Keys of a Map *)

(** A value used as a key of a [Map].  [Map.get], [has], [set] and
    [delete] tell keys by SameValueZero: strings, numbers, booleans,
    [null] and [undefined] by their value, an array or an object by its
    identity.  The TypeScript types say a channel id is a string; at run
    time it is whatever value the caller passed. *)
Inductive Key : Type :=
| KStr (s : string)
| KNum (n : Z)
| KBool (b : bool)
| KNull
| KUndefined
| KObject (identity : nat).

#[global] Instance Key_eq_dec : EqDecision Key.
Proof. solve_decision. Defined.

Coercion KStr : string >-> Key.

(** ** Sets and maps in insertion order *)

Section Collections.
Context {K : Type} `{EqDecision K}.

Definition set_has (x : K) (s : list K) : bool := bool_decide (x ∈ s).

Definition set_add (x : K) (s : list K) : list K :=
  if decide (x ∈ s) then s else s ++ [x].

Definition set_delete (x : K) (s : list K) : list K :=
  filter (λ y, y ≠ x) s.

Context {V : Type}.

Fixpoint map_get (k : K) (m : list (K * V)) : option V :=
  match m with
  | [] => None
  | (k', v) :: rest => if decide (k = k') then Some v else map_get k rest
  end.

Definition map_has (k : K) (m : list (K * V)) : bool :=
  match map_get k m with
  | Some _ => true
  | None => false
  end.

(** [Map.set] overwrites the entry where it stands, or appends one. *)
Fixpoint map_set (k : K) (v : V) (m : list (K * V)) : list (K * V) :=
  match m with
  | [] => [(k, v)]
  | (k', v') :: rest =>
      if decide (k = k') then (k, v) :: rest else (k', v') :: map_set k v rest
  end.

Definition map_delete (k : K) (m : list (K * V)) : list (K * V) :=
  filter (λ kv, kv.1 ≠ k) m.

Definition map_keys (m : list (K * V)) : list K := m.*1.
End Collections.

(** ** The monad of synchronous methods *)

Definition WsRef := nat.

(** Calls made on objects outside the code under study. *)
Inductive Event : Type :=
| EvWsSend (ws : WsRef) (data : WireText)
| EvHandler (name : string) (message : JValue)
| EvSendToUser (userId : string) (message : JValue)
| EvRedisSubscribe (channel : string)
| EvRedisUnsubscribe (channel : string).

Definition M (S A : Type) : Type := S → Completion A * S * list Event.

Definition ret {S A} (a : A) : M S A := λ s, (Normal a, s, []).

Definition bind {S A B} (m : M S A) (f : A → M S B) : M S B :=
  λ s,
    match m s with
    | (Normal a, s', t) =>
        match f a s' with
        | (c, s'', t') => (c, s'', t ++ t')
        end
    | (Thrown e, s', t) => (Thrown e, s', t)
    end.

Definition throw {S A} (e : Err) : M S A := λ s, (Thrown e, s, []).

(** [try { m } catch (error) { h error }]: the state reached when the
    exception was thrown is kept. *)
Definition try_catch {S A} (m : M S A) (h : Err → M S A) : M S A :=
  λ s,
    match m s with
    | (Normal a, s', t) => (Normal a, s', t)
    | (Thrown e, s', t) =>
        match h e s' with
        | (c, s'', t') => (c, s'', t ++ t')
        end
    end.

Definition gets {S A} (f : S → A) : M S A := λ s, (Normal (f s), s, []).
Definition modify {S} (f : S → S) : M S unit := λ s, (Normal tt, f s, []).
Definition emit {S} (ev : Event) : M S unit := λ s, (Normal tt, s, [ev]).

(** Run a method of a component inside a larger object. *)
Definition zoom {S T A} (get : S → T) (set : T → S → S) (m : M T A) : M S A :=
  λ s,
    match m (get s) with
    | (c, t', tr) => (c, set t' s, tr)
    end.

#[global] Instance M_ret {S} : MRet (M S) := λ A, @ret S A.
#[global] Instance M_bind {S} : MBind (M S) := λ A B f m, bind m f.

(** [collection.forEach(callback)], with the variables the callback
    updates threaded as [acc]. *)
Fixpoint forEach {S A B} (l : list A) (f : A → B → M S B) (acc : B) : M S B :=
  match l with
  | [] => ret acc
  | x :: rest => acc' ← f x acc; forEach rest f acc'
  end.

(** [x!]: the non-null assertion is erased, so a method call on
    [undefined] throws. *)
Definition deref {S A} (o : option A) : M S A :=
  match o with
  | Some a => ret a
  | None => throw (TypeError "Cannot read properties of undefined")
  end.

(** The parts of an outcome: how the call completed, the state it left,
    and the calls it made. *)
Definition result {S A T} (r : Completion A * S * T) : Completion A := r.1.1.
Definition state_after {S A T} (r : Completion A * S * T) : S := r.1.2.
Definition trace {S A T} (r : Completion A * S * T) : T := r.2.

(** ** ChannelManager (util/ChannelManager.ts) *)

Module ChannelManager.

(** [channels]: channelId => userIds.  The [Set] held under a key is
    changed in place: its entry is rewritten where it stands. *)
Abbreviation t := (list (Key * list string)).

Definition empty : t := [].

Definition addUserToChannel (channelId : Key) (userId : string) : M t unit :=
  has ← gets (map_has channelId);
  (if negb has then modify (map_set channelId []) else ret tt);;
  users ← (o ← gets (map_get channelId); deref o);
  modify (map_set channelId (set_add userId users)).

Definition removeUserFromChannel (channelId : Key) (userId : string) : M t unit :=
  users ← gets (map_get channelId);
  match users with
  | Some users =>
      let users := set_delete userId users in
      modify (map_set channelId users);;
      if decide (length users = 0%nat)
      then modify (map_delete channelId)
      else ret tt
  | None => ret tt
  end.

Definition getUsersInChannel (channelId : Key) (channels : t) : list string :=
  default [] (map_get channelId channels).

Definition getChannels (channels : t) : list Key := map_keys channels.

(** Every channel present maps to a non-empty set of users. *)
Definition inv (channels : t) : Prop := Forall (λ kv, kv.2 ≠ []) channels.

(** The calls that change the manager, and the manager after a history
    of such calls on a new one. *)
Inductive Call : Type :=
| AddUserToChannel (channelId : Key) (userId : string)
| RemoveUserFromChannel (channelId : Key) (userId : string).

Definition perform (call : Call) : M t unit :=
  match call with
  | AddUserToChannel c u => addUserToChannel c u
  | RemoveUserFromChannel c u => removeUserFromChannel c u
  end.

Fixpoint replay (history : list Call) (channels : t) : t :=
  match history with
  | [] => channels
  | call :: rest => replay rest (state_after (perform call channels))
  end.

Definition after (history : list Call) : t := replay history empty.

End ChannelManager.


(** ** UserConnectionManager (util/UserConnectionManager.ts) *)

Inductive ReadyState : Type := CONNECTING | OPEN | CLOSING | CLOSED.

#[global] Instance ReadyState_eq_dec : EqDecision ReadyState.
Proof. solve_decision. Defined.

(** The [ws] object behind a reference: its [readyState] and how a call
    of [ws.send(data)] completes.  Sockets change state between the calls
    on the registry, not during one. *)
Record WebSocket : Type := {
  readyState : ReadyState;
  send : WireText → Completion unit
}.

Module UserConnectionManager.

(** [userConnections]: userId => the user's sockets.  The sockets belong
    to the transport; the manager holds references into [sockets]. *)
Record t : Type := {
  userConnections : list (string * list WsRef);
  sockets : WsRef → WebSocket
}.

Definition empty (heap : WsRef → WebSocket) : t :=
  {| userConnections := []; sockets := heap |}.

Definition update (f : list (string * list WsRef) → list (string * list WsRef))
    (m : t) : t :=
  {| userConnections := f (userConnections m); sockets := sockets m |}.

Definition addUserConnection (userId : string) (ws : WsRef) : M t unit :=
  has ← gets (λ m, map_has userId (userConnections m));
  (if negb has then modify (update (map_set userId [])) else ret tt);;
  connections ← (o ← gets (λ m, map_get userId (userConnections m)); deref o);
  modify (update (map_set userId (set_add ws connections))).

Definition removeUserConnection (userId : string) (ws : WsRef) : M t unit :=
  connections ← gets (λ m, map_get userId (userConnections m));
  match connections with
  | Some connections =>
      let connections := set_delete ws connections in
      modify (update (map_set userId connections));;
      if decide (length connections = 0%nat)
      then modify (update (map_delete userId))
      else ret tt
  | None => ret tt
  end.

Definition getUserConnections (userId : string) (m : t) : list WsRef :=
  default [] (map_get userId (userConnections m)).

Definition getAllConnectedUsers (m : t) : list string :=
  map_keys (userConnections m).

Definition isUserConnected (userId : string) (m : t) : bool :=
  map_has userId (userConnections m)
  && bool_decide (0 < length (default [] (map_get userId (userConnections m))))%nat.

(** [ws.send(message)] *)
Definition ws_send (ws : WsRef) (message : WireText) : M t unit :=
  emit (EvWsSend ws message);;
  outcome ← gets (λ m, send (sockets m ws) message);
  match outcome with
  | Normal _ => ret tt
  | Thrown e => throw e
  end.

Definition sendToUser (userId : string) (message : WireText) : M t bool :=
  connections ← gets (λ m, map_get userId (userConnections m));
  match connections with
  | None => ret false
  | Some connections =>
      if decide (length connections = 0%nat) then ret false
      else
        sentCount ← forEach connections (λ ws sentCount,
          state ← gets (λ m, readyState (sockets m ws));
          if decide (state = OPEN) then
            try_catch
              (ws_send ws message;;
               ret (sentCount + 1))
              (λ error, ret sentCount)
          else ret sentCount) 0;
        ret (bool_decide (sentCount > 0))
  end.

(** The calls [ws.send] of a trace, in order. *)
Definition sends (tr : list Event) : list (WsRef * WireText) :=
  omap (λ ev, match ev with EvWsSend ws data => Some (ws, data) | _ => None end) tr.

(** Whether a call of [ws.send(message)] returns. *)
Definition delivers (m : t) (message : WireText) (ws : WsRef) : bool :=
  match send (sockets m ws) message with
  | Normal _ => true
  | Thrown _ => false
  end.

(** The sockets of a user that are open. *)
Definition open_connections (userId : string) (m : t) : list WsRef :=
  filter (λ ws, readyState (sockets m ws) = OPEN) (getUserConnections userId m).

(** Every socket in the user's set gets a call of [send]. *)
Definition every_connection_attempted (userId : string) (message : WireText)
    (m : t) : Prop :=
  ∀ ws, ws ∈ getUserConnections userId m →
        (ws, message) ∈ sends (trace (sendToUser userId message m)).

(** Every user present maps to a non-empty set of sockets. *)
Definition inv (m : t) : Prop := Forall (λ kv, kv.2 ≠ []) (userConnections m).

(** The calls on the manager, the moves of the transport (sockets open
    and close on their own), and the manager after a history of them. *)
Inductive Call : Type :=
| AddUserConnection (userId : string) (ws : WsRef)
| RemoveUserConnection (userId : string) (ws : WsRef)
| SendToUser (userId : string) (message : WireText)
| Transport (heap : WsRef → WebSocket).

Definition perform (call : Call) : M t unit :=
  match call with
  | AddUserConnection u ws => addUserConnection u ws
  | RemoveUserConnection u ws => removeUserConnection u ws
  | SendToUser u message => sendToUser u message;; ret tt
  | Transport heap =>
      modify (λ m, {| userConnections := userConnections m; sockets := heap |})
  end.

Fixpoint replay (history : list Call) (m : t) : t :=
  match history with
  | [] => m
  | call :: rest => replay rest (state_after (perform call m))
  end.

End UserConnectionManager.

(** ** MessageSubscriberService (services/messageSubscriberService.ts) *)

(** A registered callback: a name to tell it in traces, and how a call
    of it completes.  A handler is taken not to call back into the
    service. *)
Record Handler : Type := {
  handlerName : string;
  handlerRun : JValue → Completion unit
}.

(** Calls on the Redis client of the service. *)
Inductive RedisCall : Type :=
| RConnect
| RDisconnect
| RSubscribe (channel : string)
| RUnsubscribe (channel : string).

Module MessageSubscriberService.

(** The fields of the service.  [channelManager] and
    [userConnectionManager] are the objects shared with the connection
    handler; [redis] tells how a call on the Redis client completes. *)
Record t : Type := {
  channelManager : ChannelManager.t;
  userConnectionManager : UserConnectionManager.t;
  messageHandlers : list (Key * Handler);
  subscribedChannels : list string;
  isConnected : bool;
  redis : RedisCall → Completion unit
}.

Definition set_userConnectionManager (u : UserConnectionManager.t) (s : t) : t :=
  {| channelManager := channelManager s; userConnectionManager := u;
     messageHandlers := messageHandlers s;
     subscribedChannels := subscribedChannels s;
     isConnected := isConnected s; redis := redis s |}.

Definition set_messageHandlers (h : list (Key * Handler)) (s : t) : t :=
  {| channelManager := channelManager s;
     userConnectionManager := userConnectionManager s;
     messageHandlers := h;
     subscribedChannels := subscribedChannels s;
     isConnected := isConnected s; redis := redis s |}.

Definition set_subscribedChannels (c : list string) (s : t) : t :=
  {| channelManager := channelManager s;
     userConnectionManager := userConnectionManager s;
     messageHandlers := messageHandlers s;
     subscribedChannels := c;
     isConnected := isConnected s; redis := redis s |}.

Definition set_isConnected (b : bool) (s : t) : t :=
  {| channelManager := channelManager s;
     userConnectionManager := userConnectionManager s;
     messageHandlers := messageHandlers s;
     subscribedChannels := subscribedChannels s;
     isConnected := b; redis := redis s |}.

Definition not_connected : Err :=
  Error "MessageSubscriberService not connected. Call connect() first.".

(** An expression that may throw, evaluated inside a method. *)
Definition eval {A} (c : Completion A) : M t A :=
  match c with
  | Normal a => ret a
  | Thrown e => throw e
  end.

(** [await] of a call on the Redis client. *)
Definition redis_call (call : RedisCall) : M t unit :=
  outcome ← gets (λ s, redis s call);
  eval outcome.

(** The key that a property of a parsed payload is in [Map.get(key)]
    and [channelManager.getUsersInChannel(key)]: a string, a number, a
    boolean, [null] or [undefined] is the key of that value; an array or
    an object that was just parsed is an object of its own, which no map
    has as a key. *)
Definition as_key (v : option JValue) : option Key :=
  match v with
  | None => Some KUndefined
  | Some JNull => Some KNull
  | Some (JBool b) => Some (KBool b)
  | Some (JNum n) => Some (KNum n)
  | Some (JStr s) => Some (KStr s)
  | Some (JArr _) | Some (JObj _) => None
  end.

Definition connect : M t unit :=
  try_catch (redis_call RConnect) (λ _, throw (Error "Redis client not connected"));;
  modify (set_isConnected true).

Definition disconnect : M t unit :=
  connected ← gets isConnected;
  if (connected : bool) then
    redis_call RDisconnect;;
    modify (set_isConnected false);;
    modify (set_subscribedChannels [])
  else ret tt.

(** [EvSendToUser] records the call in the trace.  The arguments of the
    log calls are evaluated after the registry was called: reading
    [message.messageId] throws when [message] is [null]. *)
Definition sendToUser (userId : string) (message : JValue) : M t bool :=
  emit (EvSendToUser userId message);;
  let wrappedMessage := JObj [("type", JStr "message"); ("message", message)] in
  let messageString := JSON_stringify wrappedMessage in
  success ← zoom userConnectionManager set_userConnectionManager
              (UserConnectionManager.sendToUser userId messageString);
  eval (get_prop message "messageId");;
  ret success.

Definition broadcastToChannel (message : JValue) : M t unit :=
  channelId ← eval (get_prop message "channelId");
  users ← gets (λ s, match as_key channelId with
                     | Some c => ChannelManager.getUsersInChannel c (channelManager s)
                     | None => []
                     end);
  forEach users (λ userId _, sendToUser userId message;; ret tt) tt.

Definition call_handler (handler : Handler) (message : JValue) : M t unit :=
  emit (EvHandler (handlerName handler) message);;
  eval (handlerRun handler message).

Definition handleMessage (message : JValue) : M t unit :=
  channelId ← eval (get_prop message "channelId");
  handler ← gets (λ s, match as_key channelId with
                       | Some c => map_get c (messageHandlers s)
                       | None => None
                       end);
  match handler with
  | Some handler =>
      try_catch (call_handler handler message) (λ error, ret tt)
  | None => broadcastToChannel message
  end.

(** The callback given to [client.subscribe]: [data] is the payload,
    [channel] the topic it came on.  [channel] goes to the log calls and
    nowhere else; of the arguments of the log call in the [try] block,
    [message.messageId] can throw. *)
Definition onRedisMessage (data : WireText) (channel : string) : M t unit :=
  try_catch (S := t) (A := unit)
    (message ← eval (JSON_parse data);
     eval (get_prop message "messageId");;
     handleMessage message)
    (λ error, ret tt).

(** [subscribeTo] and [unsubscribeFrom] run here from their call to
    their end; [this.redisClient.getClient()] returns the client made by
    [connect]. *)
Definition subscribeTo (channelId : string) : M t unit :=
  connected ← gets isConnected;
  if negb connected then throw not_connected
  else
    subscribed ← gets (λ s, set_has channelId (subscribedChannels s));
    if (subscribed : bool) then ret tt
    else
      emit (EvRedisSubscribe channelId);;
      redis_call (RSubscribe channelId);;
      modify (λ s, set_subscribedChannels (set_add channelId (subscribedChannels s)) s).

Definition unsubscribeFrom (channelId : string) : M t unit :=
  connected ← gets isConnected;
  if negb connected then throw not_connected
  else
    subscribed ← gets (λ s, set_has channelId (subscribedChannels s));
    if negb subscribed then ret tt
    else
      emit (EvRedisUnsubscribe channelId);;
      redis_call (RUnsubscribe channelId);;
      modify (λ s, set_subscribedChannels (set_delete channelId (subscribedChannels s)) s).

Definition onChannelMessage (channelId : Key) (handler : Handler) : M t unit :=
  modify (λ s, set_messageHandlers (map_set channelId handler (messageHandlers s)) s).

Definition removeChannelMessageHandler (channelId : Key) : M t unit :=
  modify (λ s, set_messageHandlers (map_delete channelId (messageHandlers s)) s).


End MessageSubscriberService.


(** ** The write path: MessageIDService and MessageService *)

(** Message ids are the replies of INCR: integers, which the client
    hands over as JavaScript numbers.  A Number that is an integer is
    kept as that integer; the integers up to 2^53 in size are all Numbers,
    beyond them only every second, fourth, ... integer is. *)

(** The decimal numeral of an integer. *)
Definition decimal (n : Z) : string := NilZero.string_of_int (Z.to_int n).

(** The Number the client makes of an integer [n] it is sent: the
    Number nearest to [n], the one with the even mantissa when two are as
    near; a Number holds 53 significant bits.  (The replies of Redis are
    64-bit integers, far below the largest Number.) *)
Definition to_Number (n : Z) : Z :=
  let a := Z.abs n in
  let drop := Z.log2 a - 52 in
  if drop <=? 0 then n
  else
    let unit := 2 ^ drop in
    let q := a / unit in
    let r := a mod unit in
    let q' := if 2 * r <? unit then q
              else if unit <? 2 * r then q + 1
              else if Z.even q then q else q + 1 in
    Z.sgn n * (q' * unit).

(** Of the two decimals [s * 10^p] next to [x], one that reads back as
    the Number [x]: the nearer to [x] first, the even one when both are
    as near. *)
Definition candidate (x : Z) (p : Z) : option Z :=
  let scale := 10 ^ p in
  let lo := x / scale in
  let hi := lo + 1 in
  let ok s := to_Number (s * scale) =? x in
  let lo_first :=
    (x - lo * scale <? hi * scale - x)
    || ((x - lo * scale =? hi * scale - x) && Z.even lo) in
  if lo_first then (if ok lo then Some lo else if ok hi then Some hi else None)
  else (if ok hi then Some hi else if ok lo then Some lo else None).

(** The decimal of fewest digits that reads back as the Number [x > 0]:
    its digits [s] and the number of zeros after them, tried from [p]
    zeros down. *)
Fixpoint shortest (x : Z) (p : nat) : Z * Z :=
  match candidate x (Z.of_nat p) with
  | Some s => (s, Z.of_nat p)
  | None => match p with
            | O => (x, 0)
            | S p' => shortest x p'
            end
  end.

Fixpoint strip_zeros (fuel : nat) (s p : Z) : Z * Z :=
  match fuel with
  | O => (s, p)
  | S fuel' =>
      if (s mod 10 =? 0) && negb (s =? 0) then strip_zeros fuel' (s / 10) (p + 1)
      else (s, p)
  end.

(** Number::toString in radix 10 of a Number [a > 0] that is an
    integer: the digits of the shortest decimal that reads back as [a],
    written out with its zeros when there are at most 21 digits in all,
    and with an exponent otherwise. *)
Definition Number_digits (a : Z) : string :=
  let width := String.length (decimal a) in
  let '(s, p) := shortest a (width - 1) in
  let '(s, p) := strip_zeros width s p in
  let digits := decimal s in
  let n := Z.of_nat (String.length digits) + p in
  if n <=? 21 then digits +:+ String.concat "" (replicate (Z.to_nat p) "0")
  else match digits with
       | String d "" => String d "e+" +:+ decimal (n - 1)
       | String d rest => String d ("." +:+ rest) +:+ "e+" +:+ decimal (n - 1)
       | "" => "e+" +:+ decimal (n - 1)
       end.

(** [x.toString()] of a Number [x] that is an integer.  Up to 2^53 every
    integer is a Number of its own, and the shortest decimal that reads
    back as [x] is the numeral of [x]. *)
Definition toString (x : Z) : string :=
  if Z.abs x <=? 2 ^ 53 then decimal x
  else (if x <? 0 then "-" else "") +:+ Number_digits (Z.abs x).

(** Reading a decimal numeral as an integer. *)
Definition parseInt (s : string) : option Z :=
  option_map Z.of_int (NilZero.int_of_string s).

(** [ChimeMessage] (types/message.ts).  [createdAt] is the ISO text of a
    date, kept as the date it writes (milliseconds since the epoch). *)
Record ChimeMessage : Type := {
  channelId : string;
  messageId : string;
  userId : string;
  content : string;
  createdAt : Z;
  editedAt : option Z;
  metadata : list (string * JValue)
}.

(** The parameters of the INSERT, one per column of [messages]. *)
Record Row : Type := {
  channel_id : string;
  message_id : string;
  user_id : string;
  row_content : string;
  created_at : Z;
  edited_at : option Z;
  row_metadata : list (string * JValue)
}.

(** An [async] method: what it does between two calls on the outside,
    and how it goes on from the outcome of each call. *)
Inductive Prog (A : Type) : Type :=
| Ret (a : A)
| Throw (e : Err)
| Incr (key : string) (k : Completion Z → Prog A)
| Now (k : Z → Prog A)
| Execute (params : Row) (k : Completion unit → Prog A).
Arguments Ret {A} a.
Arguments Throw {A} e.
Arguments Incr {A} key k.
Arguments Now {A} k.
Arguments Execute {A} params k.

Fixpoint pbind {A B} (p : Prog A) (f : A → Prog B) : Prog B :=
  match p with
  | Ret a => f a
  | Throw e => Throw e
  | Incr key k => Incr key (λ r, pbind (k r) f)
  | Now k => Now (λ t, pbind (k t) f)
  | Execute params k => Execute params (λ r, pbind (k r) f)
  end.

Fixpoint ptry {A} (p : Prog A) (h : Err → Prog A) : Prog A :=
  match p with
  | Ret a => Ret a
  | Throw e => h e
  | Incr key k => Incr key (λ r, ptry (k r) h)
  | Now k => Now (λ t, ptry (k t) h)
  | Execute params k => Execute params (λ r, ptry (k r) h)
  end.

#[global] Instance Prog_ret : MRet Prog := λ A, @Ret A.
#[global] Instance Prog_bind : MBind Prog := λ A B f p, pbind p f.

Definition settle {A} (r : Completion A) : Prog A :=
  match r with
  | Normal a => Ret a
  | Thrown e => Throw e
  end.

(** [await client.incr(key)]: the reply of INCR, as a Number. *)
Definition client_incr (key : string) : Prog Z :=
  Incr key (λ reply, match reply with
                     | Normal n => Ret (to_Number n)
                     | Thrown e => Throw e
                     end).
(** [new Date()] *)
Definition new_Date : Prog Z := Now Ret.
(** [await this.dbClient.execute(query, params, { prepare: true })] *)
Definition dbClient_execute (params : Row) : Prog unit := Execute params settle.

Module MessageIDService.

Definition counter_key (channelId : string) : string :=
  "channel:" +:+ channelId +:+ ":message_counter".

Definition getNextMessageId (channelId : string) : Prog Z :=
  let key := counter_key channelId in
  ptry
    (messageId ← client_incr key;
     Ret messageId)
    (λ error, Throw error).

End MessageIDService.

Module MessageService.

Definition saveMessage (channelId userId content : string) : Prog ChimeMessage :=
  messageId ← MessageIDService.getNextMessageId channelId;
  createdAt ← new_Date;
  ptry
    (dbClient_execute
       {| channel_id := channelId;
          message_id := toString messageId;
          user_id := userId;
          row_content := content;
          created_at := createdAt;
          edited_at := None;
          row_metadata := [] |})
    (λ error, Throw error);;
  Ret {| channelId := channelId;
         messageId := toString messageId;
         userId := userId;
         content := content;
         createdAt := createdAt;
         editedAt := None;
         metadata := [] |}.

End MessageService.

(** *** Redis and Cassandra *)

(** The counters of Redis, the rows of [messages] under their primary
    key (channel_id, message_id), and the clock. *)
Record Backend : Type := {
  counters : gmap string Z;
  messages : gmap (string * string) Row;
  clock : Z
}.

Definition counter (b : Backend) (key : string) : Z := default 0 (counters b !! key).

(** INCR: one atomic step of Redis.  A call that fails ([Some e]) leaves
    the counter as it was. *)
Definition redis_incr (fault : option Err) (key : string) (b : Backend)
    : Completion Z * Backend :=
  match fault with
  | Some e => (Thrown e, b)
  | None =>
      let v := counter b key + 1 in
      (Normal v,
       {| counters := <[key := v]> (counters b);
          messages := messages b; clock := clock b |})
  end.

(** INSERT: writes the whole row, or fails and writes nothing. *)
Definition cassandra_execute (fault : option Err) (params : Row) (b : Backend)
    : Completion unit * Backend :=
  match fault with
  | Some e => (Thrown e, b)
  | None =>
      (Normal tt,
       {| counters := counters b;
          messages := <[(channel_id params, message_id params) := params]> (messages b);
          clock := clock b |})
  end.

(** Which calls fail, and with what. *)
Record Faults : Type := {
  incr_fault : string → option Err;
  execute_fault : Row → option Err
}.

(** The calls a method made. *)
Inductive Call : Type :=
| CallIncr (key : string)
| CallNow
| CallExecute (params : Row).

(** One call of an [async] method, run alone to its end. *)
Fixpoint run {A} (env : Faults) (p : Prog A) (b : Backend)
    : Completion A * Backend * list Call :=
  match p with
  | Ret a => (Normal a, b, [])
  | Throw e => (Thrown e, b, [])
  | Incr key k =>
      let '(r, b') := redis_incr (incr_fault env key) key b in
      let '(c, b'', calls) := run env (k r) b' in
      (c, b'', CallIncr key :: calls)
  | Now k =>
      let '(c, b', calls) := run env (k (clock b)) b in
      (c, b', CallNow :: calls)
  | Execute params k =>
      let '(r, b') := cassandra_execute (execute_fault env params) params b in
      let '(c, b'', calls) := run env (k r) b' in
      (c, b'', CallExecute params :: calls)
  end.

(** *** Callers running side by side *)

(** What one step of the system did: a new call of [saveMessage] came
    in, a caller's pending call completed, or time passed. *)
Inductive Label : Type :=
| LSpawn (channelId userId content : string)
| LIncr (caller : nat) (key : string) (r : Completion Z)
| LNow (caller : nat) (t : Z)
| LExecute (caller : nat) (params : Row) (r : Completion unit)
| LTick (t : Z).

Definition set_clock (t : Z) (b : Backend) : Backend :=
  {| counters := counters b; messages := messages b; clock := t |}.

(** The callers share the backend; each step completes one call of one
    caller, succeeding or failing as the outside decides. *)
Inductive step : Backend * list (Prog ChimeMessage) → Label
    → Backend * list (Prog ChimeMessage) → Prop :=
| step_spawn b pool c u ct :
    step (b, pool) (LSpawn c u ct) (b, pool ++ [MessageService.saveMessage c u ct])
| step_incr b pool i key k fault :
    pool !! i = Some (Incr key k) →
    step (b, pool)
         (LIncr i key (redis_incr fault key b).1)
         ((redis_incr fault key b).2, <[i := k (redis_incr fault key b).1]> pool)
| step_now b pool i k :
    pool !! i = Some (Now k) →
    step (b, pool) (LNow i (clock b)) (b, <[i := k (clock b)]> pool)
| step_execute b pool i params k fault :
    pool !! i = Some (Execute params k) →
    step (b, pool)
         (LExecute i params (cassandra_execute fault params b).1)
         ((cassandra_execute fault params b).2,
          <[i := k (cassandra_execute fault params b).1]> pool)
| step_tick b pool t :
    clock b ≤ t →
    step (b, pool) (LTick t) (set_clock t b, pool).

(** The states reached from [b0] with no caller, and the steps taken. *)
Inductive reachable (b0 : Backend) : Backend → list (Prog ChimeMessage)
    → list Label → Prop :=
| reach_init : reachable b0 b0 [] []
| reach_step b pool labels l b' pool' :
    reachable b0 b pool labels →
    step (b, pool) l (b', pool') →
    reachable b0 b' pool' (labels ++ [l]).

(** The caller whose allocation a step completed. *)
Definition alloc_caller (l : Label) : option nat :=
  match l with
  | LIncr i _ (Normal _) => Some i
  | _ => None
  end.

(** The message a caller got back, if its call returned one. *)
Definition returned_message (pool : list (Prog ChimeMessage)) (i : nat)
    : option ChimeMessage :=
  match pool !! i with
  | Some (Ret m) => Some m
  | _ => None
  end.

(** The messageIds returned on [channel], parsed, in the order the
    allocations of their calls completed. *)
Definition returned_ids (channel : string) (labels : list Label)
    (pool : list (Prog ChimeMessage)) : list (option Z) :=
  (λ m, parseInt (messageId m)) <$>
    filter (λ m, channelId m = channel)
      (omap (returned_message pool) (omap alloc_caller labels)).


(** ** What a dispatch is expected to leave in the trace *)

(** The text sent to a socket for [message]. *)
Definition envelope (message : JValue) : WireText :=
  JSON_stringify (JObj [("type", JStr "message"); ("message", message)]).

(** One call of the service's [sendToUser]: the call, then the sends on
    the open sockets of the user. *)
Definition delivery (s : MessageSubscriberService.t) (userId : string)
    (message : JValue) : list Event :=
  EvSendToUser userId message ::
  ((λ ws, EvWsSend ws (envelope message)) <$>
     UserConnectionManager.open_connections userId
       (MessageSubscriberService.userConnectionManager s)).

(** The users a value is broadcast to: the members of the channel its
    [channelId] is a key of. *)
Definition recipients (s : MessageSubscriberService.t) (message : JValue)
    : list string :=
  match MessageSubscriberService.as_key (prop_of message "channelId") with
  | Some c =>
      ChannelManager.getUsersInChannel c (MessageSubscriberService.channelManager s)
  | None => []
  end.

(** The handler a value is routed to. *)
Definition handler_for (s : MessageSubscriberService.t) (message : JValue)
    : option Handler :=
  match MessageSubscriberService.as_key (prop_of message "channelId") with
  | Some c => map_get c (MessageSubscriberService.messageHandlers s)
  | None => None
  end.

Definition dispatch_trace (s : MessageSubscriberService.t) (message : JValue)
    : list Event :=
  match handler_for s message with
  | Some handler => [EvHandler (handlerName handler) message]
  | None => concat (List.map (λ u, delivery s u message) (recipients s message))
  end.

Definition payload_trace (s : MessageSubscriberService.t) (data : WireText)
    : list Event :=
  match data with
  | RawText _ => []
  | JSONText JNull => []
  | JSONText message => dispatch_trace s message
  end.

(** The calls of the service's [sendToUser] in a trace, in order. *)
Definition sendToUser_calls (tr : list Event) : list (string * JValue) :=
  omap (λ ev, match ev with EvSendToUser u m => Some (u, m) | _ => None end) tr.

(** The texts sent to sockets in a trace. *)
Definition sent_texts (tr : list Event) : list WireText :=
  omap (λ ev, match ev with EvWsSend _ data => Some data | _ => None end) tr.

(** The calls of handlers in a trace. *)
Definition handler_calls (tr : list Event) : list (string * JValue) :=
  omap (λ ev, match ev with EvHandler h m => Some (h, m) | _ => None end) tr.




(** An operation refused for want of a bus connection: it throws the
    "not connected" error, and has changed and called nothing. *)
Definition fails_not_connected {A} (op : M MessageSubscriberService.t A)
    (s : MessageSubscriberService.t) : Prop :=
  op s = (Thrown MessageSubscriberService.not_connected, s, []).

(** ** The course of a call of [saveMessage] *)

(** The row and the message of a call to which INCR replied [reply], at
    time [createdAt]. *)
Definition row_of (channelId userId content : string) (reply createdAt : Z) : Row :=
  {| channel_id := channelId; message_id := toString (to_Number reply);
     user_id := userId; row_content := content; created_at := createdAt;
     edited_at := None; row_metadata := [] |}.

Definition message_of (channelId userId content : string) (reply createdAt : Z)
    : ChimeMessage :=
  {| channelId := channelId; messageId := toString (to_Number reply);
     userId := userId; content := content; createdAt := createdAt;
     editedAt := None; metadata := [] |}.

(** Where a call of [saveMessage] stands after each of its calls on the
    outside. *)
Definition after_incr (channelId userId content : string) (r : Completion Z)
    : Prog ChimeMessage :=
  match MessageService.saveMessage channelId userId content with
  | Incr _ k => k r
  | p => p
  end.

Definition after_now (channelId userId content : string) (messageId : Z) (t : Z)
    : Prog ChimeMessage :=
  match after_incr channelId userId content (Normal messageId) with
  | Now k => k t
  | p => p
  end.

Definition after_execute (channelId userId content : string) (messageId : Z)
    (t : Z) (r : Completion unit) : Prog ChimeMessage :=
  match after_now channelId userId content messageId t with
  | Execute _ k => k r
  | p => p
  end.

(** The ids given out under [key], in the order they were given. *)
Definition ids_for (key : string) (labels : list Label) : list Z :=
  omap (λ l, match l with
             | LIncr _ key' (Normal id) => if decide (key' = key) then Some id else None
             | _ => None
             end) labels.


(** The allocations completed for caller [i], in order. *)
Definition allocs_of (i : nat) (labels : list Label) : list (string * Z) :=
  omap (λ l, match l with
             | LIncr j key (Normal id) => if decide (j = i) then Some (key, id) else None
             | _ => None
             end) labels.

(** Where a caller can stand, given the steps taken so far: at the start
    with no id, failed, or past its one allocation. *)
Definition thread_ok (labels : list Label) (i : nat) (p : Prog ChimeMessage) : Prop :=
  (∃ c u ct, p = MessageService.saveMessage c u ct ∧ allocs_of i labels = [])
  ∨ (∃ e, p = Throw e)
  ∨ (∃ c u ct id,
       allocs_of i labels = [(MessageIDService.counter_key c, id)]
       ∧ (p = after_incr c u ct (Normal id)
          ∨ (∃ t, p = after_now c u ct id t)
          ∨ (∃ t, p = Ret (message_of c u ct id t)))).

(** The invariant of the callers and the counters: every caller stands
    where [thread_ok] says, only callers of the pool have allocated, and
    under each key the ids given out increase and stay below the
    counter. *)
Definition system_ok (b : Backend) (pool : list (Prog ChimeMessage))
    (labels : list Label) : Prop :=
  (∀ i p, pool !! i = Some p → thread_ok labels i p)
  ∧ (∀ l i, l ∈ labels → alloc_caller l = Some i → (i < length pool)%nat)
  ∧ (∀ key, StronglySorted Z.lt (ids_for key labels)
            ∧ Forall (λ id, id ≤ counter b key) (ids_for key labels)).


(** *** Schedules *)

(** A move of the outside: a new call comes in, the pending call of a
    caller completes (failing with [fault] if given), or time passes. *)
Inductive Move : Type :=
| Spawn (channelId userId content : string)
| Complete (caller : nat) (fault : option Err)
| Tick (t : Z).

Definition move (mv : Move)
    (st : Backend * list (Prog ChimeMessage) * list Label)
    : Backend * list (Prog ChimeMessage) * list Label :=
  let '(b, pool, labels) := st in
  match mv with
  | Spawn c u ct =>
      (b, pool ++ [MessageService.saveMessage c u ct], labels ++ [LSpawn c u ct])
  | Complete i fault =>
      match pool !! i with
      | Some (Incr key k) =>
          ((redis_incr fault key b).2,
           <[i := k (redis_incr fault key b).1]> pool,
           labels ++ [LIncr i key (redis_incr fault key b).1])
      | Some (Now k) =>
          (b, <[i := k (clock b)]> pool, labels ++ [LNow i (clock b)])
      | Some (Execute params k) =>
          ((cassandra_execute fault params b).2,
           <[i := k (cassandra_execute fault params b).1]> pool,
           labels ++ [LExecute i params (cassandra_execute fault params b).1])
      | _ => st
      end
  | Tick t =>
      if decide (clock b ≤ t) then (set_clock t b, pool, labels ++ [LTick t])
      else st
  end.

Fixpoint play (schedule : list Move)
    (st : Backend * list (Prog ChimeMessage) * list Label)
    : Backend * list (Prog ChimeMessage) * list Label :=
  match schedule with
  | [] => st
  | mv :: rest => play rest (move mv st)
  end.

(** ** Scenarios *)

(** User "u1" holds socket 0, which is closed, and socket 1, which is
    open. *)
Definition registry_closed_and_open : UserConnectionManager.t :=
  {| UserConnectionManager.userConnections := [("u1", [0%nat; 1%nat])];
     UserConnectionManager.sockets := λ ws,
       {| readyState := if decide (ws = 0%nat) then CLOSED else OPEN;
          send := λ _, Normal tt |} |}.

(** Sockets 1 and 2 are open and take what is sent to them. *)
Definition open_sockets : WsRef → WebSocket :=
  λ _, {| readyState := OPEN; send := λ _, Normal tt |}.

(** Channel "general" has members "u1" and "u2"; "u1" is connected on
    socket 1 and "u2" on socket 2; no handler is registered. *)
Definition service_general (connected : bool) : MessageSubscriberService.t :=
  {| MessageSubscriberService.channelManager :=
       ChannelManager.after [ChannelManager.AddUserToChannel "general" "u1";
                             ChannelManager.AddUserToChannel "general" "u2"];
     MessageSubscriberService.userConnectionManager :=
       UserConnectionManager.replay
         [UserConnectionManager.AddUserConnection "u1" 1%nat;
          UserConnectionManager.AddUserConnection "u2" 2%nat]
         (UserConnectionManager.empty open_sockets);
     MessageSubscriberService.messageHandlers := [];
     MessageSubscriberService.subscribedChannels :=
       if connected then ["general"] else [];
     MessageSubscriberService.isConnected := connected;
     MessageSubscriberService.redis := λ _, Normal tt |}.

(** A complete message for "general". *)
Definition message_hi : JValue :=
  JObj [("channelId", JStr "general"); ("messageId", JStr "1");
        ("userId", JStr "u1"); ("content", JStr "hi");
        ("createdAt", JStr "2023-01-01T00:00:00Z"); ("editedAt", JNull);
        ("metadata", JObj [])].

(** A JSON object that names a channel and has none of the other fields
    of a message. *)
Definition channel_only : JValue := JObj [("channelId", JStr "general")].

(** Nothing stored yet, every counter unset. *)
Definition fresh_backend : Backend :=
  {| counters := ∅; messages := ∅; clock := 1672531200000 |}.

Definition no_faults : Faults :=
  {| incr_fault := λ _, None; execute_fault := λ _, None |}.

(** Redis is down. *)
Definition redis_down : Faults :=
  {| incr_fault := λ _, Some (Error "Redis connection failed");
     execute_fault := λ _, None |}.

(** Cassandra is down. *)
Definition cassandra_down : Faults :=
  {| incr_fault := λ _, None;
     execute_fault := λ _, Some (Error "Database connection failed") |}.

(** The counter of "general" stands at 2^53 - 1. *)
Definition backend_at_limit : Backend :=
  {| counters := {[ MessageIDService.counter_key "general" := 2 ^ 53 - 1 ]};
     messages := ∅; clock := 1672531200000 |}.

(** Two calls on "general", one after the other, nothing failing. *)
Definition two_calls : list Move :=
  [Spawn "general" "u1" "hi";
   Complete 0 None; Complete 0 None; Complete 0 None;
   Spawn "general" "u2" "there";
   Complete 1 None; Complete 1 None; Complete 1 None].

(** Two callers on "general": caller 1 is given its id before caller 0,
    and caller 0 has its row written before caller 1. *)
Definition race : list Move :=
  [Spawn "general" "u1" "hi"; Spawn "general" "u2" "there";
   Complete 1 None; Complete 0 None;
   Complete 0 None; Complete 1 None;
   Complete 0 None; Complete 1 None].


(** ** Well-formed managers *)

(** The sets of the registry never hold a socket twice, and no user is
    listed twice. *)
Definition registry_wf (m : UserConnectionManager.t) : Prop :=
  UserConnectionManager.inv m
  ∧ Forall (λ kv, NoDup kv.2) (UserConnectionManager.userConnections m)
  ∧ NoDup (map_keys (UserConnectionManager.userConnections m)).


(** ** The connection handler (index.ts) *)

Module ChimeServer.

Definition set_channelManager (c : ChannelManager.t) (s : MessageSubscriberService.t)
    : MessageSubscriberService.t :=
  {| MessageSubscriberService.channelManager := c;
     MessageSubscriberService.userConnectionManager :=
       MessageSubscriberService.userConnectionManager s;
     MessageSubscriberService.messageHandlers :=
       MessageSubscriberService.messageHandlers s;
     MessageSubscriberService.subscribedChannels :=
       MessageSubscriberService.subscribedChannels s;
     MessageSubscriberService.isConnected := MessageSubscriberService.isConnected s;
     MessageSubscriberService.redis := MessageSubscriberService.redis s |}.

(** The handler of ['close'] on the socket [ws] of a connection whose
    handshake gave it [currentUserId] ([None] is [null]).
    [services.userManager] and [services.channelManager] are the objects
    the subscriber service was built with.  [getChannels()] returns a new
    array, so the loop runs over the channels there were at its start. *)
Definition onClose (currentUserId : option string) (ws : WsRef)
    : M MessageSubscriberService.t unit :=
  match currentUserId with
  | Some userId =>
      if negb (String.eqb userId "") then
        zoom MessageSubscriberService.userConnectionManager
             MessageSubscriberService.set_userConnectionManager
             (UserConnectionManager.removeUserConnection userId ws);;
        channels ← gets (λ s, ChannelManager.getChannels
                                (MessageSubscriberService.channelManager s));
        forEach channels (λ channelId _,
          zoom MessageSubscriberService.channelManager set_channelManager
               (ChannelManager.removeUserFromChannel channelId userId)) tt
      else ret tt
  | None => ret tt
  end.

End ChimeServer.


(** The service of [service_general], connected and subscribed to
    "general", when every call on the Redis client fails. *)
Definition service_bus_down : MessageSubscriberService.t :=
  {| MessageSubscriberService.channelManager :=
       MessageSubscriberService.channelManager (service_general true);
     MessageSubscriberService.userConnectionManager :=
       MessageSubscriberService.userConnectionManager (service_general true);
     MessageSubscriberService.messageHandlers := [];
     MessageSubscriberService.subscribedChannels := ["general"];
     MessageSubscriberService.isConnected := true;
     MessageSubscriberService.redis := λ _, Thrown (Error "ECONNRESET") |}.


(** The same server with a handler registered for "general". *)
Definition echo_handler : Handler :=
  {| handlerName := "echo"; handlerRun := λ _, Normal tt |}.


(** ** Message validation (types/message.ts) *)

#[global] Instance Completion_ret : MRet Completion := λ A, @Normal A.
#[global] Instance Completion_bind : MBind Completion :=
  λ A B f c, match c with Normal a => f a | Thrown e => Thrown e end.

(** [name in v] for an object or an array [v] and a name that is neither
    an index nor a property every object or array has. *)
Definition has_own (name : string) (v : JValue) : bool :=
  match v with
  | JObj fields => bool_decide (is_Some (field name fields))
  | _ => false
  end.

(** [typeof v === 'string'] and [v === s], [undefined] included. *)
Definition is_string (v : option JValue) : bool :=
  match v with Some (JStr _) => true | _ => false end.

Definition is_literal (s : string) (v : option JValue) : bool :=
  match v with Some (JStr s') => String.eqb s' s | _ => false end.

(** [Array.isArray(v)] *)
Definition is_array (v : option JValue) : bool :=
  match v with Some (JArr _) => true | _ => false end.

(** [isValidChimeMessage] of a value that may be [undefined]. *)
Definition isValidChimeMessage_of (message : option JValue) : bool :=
  match message with
  | Some v => isValidChimeMessage v
  | None => false
  end.

Definition isValidClientMessageInput (message : option JValue) : bool :=
  match message with
  | None => false
  | Some message =>
      if negb (truthy message) || negb (typeof_object message) then false
      else
        truthy_opt (prop_of message "channelId")
        && is_string (prop_of message "channelId")
        && truthy_opt (prop_of message "content")
        && is_string (prop_of message "content")
  end.

Record Validation : Type := { valid : bool; errors : list string }.

(** [if (!v) errors.push(text)] *)
Definition missing (v : option JValue) (text : string) : list string :=
  if negb (truthy_opt v) then [text] else [].

Definition validateChimeMessage (message : option JValue) : Validation :=
  match message with
  | Some message =>
      if negb (truthy message) || negb (typeof_object message)
      then {| valid := false; errors := ["Message is not an object"] |}
      else
        let errors :=
          missing (prop_of message "channelId") "Missing channelId"
          ++ missing (prop_of message "messageId") "Missing messageId"
          ++ missing (prop_of message "userId") "Missing userId"
          ++ missing (prop_of message "content") "Missing content"
          ++ missing (prop_of message "createdAt") "Missing createdAt" in
        {| valid := bool_decide (length errors = 0%nat); errors := errors |}
  | None => {| valid := false; errors := ["Message is not an object"] |}
  end.

Definition validTypes : list string := ["message"; "connect"; "connected"; "error"].

Definition isValidMessageStructure (data : JValue) : bool :=
  if negb (truthy data) || negb (typeof_object data) || negb (has_own "type" data)
  then false
  else
    match prop_of data "type" with
    | Some (JStr type) => bool_decide (type ∈ validTypes)
    | _ => false
    end.

(** The value of the [&&] chain is used as a condition only: its
    truth is kept. *)
Definition isValidConnectConfig (config : option JValue) : bool :=
  match config with
  | Some config =>
      truthy config
      && match prop_of config "channels" with
         | Some (JArr channels) => bool_decide (0 < length channels)%nat
         | _ => false
         end
  | None => false
  end.

(** [message] has the static type [Message]: a [null] would make the
    [switch] throw. *)
Definition validateMessage (message : JValue) : Completion Validation :=
  type ← get_prop message "type";
  let errors :=
    if is_literal "message" type then
      if isValidChimeMessage_of (prop_of message "message") then
        let chimeValidation := validateChimeMessage (prop_of message "message") in
        if negb (valid chimeValidation) then errors chimeValidation else []
      else if isValidClientMessageInput (prop_of message "message") then []
      else ["Invalid message: must be either a complete ChimeMessage or valid client input"]
    else if is_literal "connect" type then
      if negb (isValidConnectConfig (prop_of message "config"))
      then ["Invalid connect configuration"] else []
    else if is_literal "connected" type then
      missing (prop_of message "userId") "Missing userId in connected response"
      ++ (if negb (is_array (prop_of message "channels"))
          then ["Invalid channels array in connected response"] else [])
    else if is_literal "error" type then
      missing (prop_of message "message") "Missing error message"
    else ["Unknown message type"] in
  mret {| valid := bool_decide (length errors = 0%nat); errors := errors |}.

Definition isValidMessage (message : JValue) : Completion bool :=
  if negb (isValidMessageStructure message) then mret false
  else
    validation ← validateMessage message;
    mret (valid validation).

Definition isConnectMessage (message : JValue) : Completion bool :=
  type ← get_prop message "type";
  mret (is_literal "connect" type
        && has_own "config" message
        && isValidConnectConfig (prop_of message "config")).

Definition isChatMessage (message : JValue) : Completion bool :=
  type ← get_prop message "type";
  mret (is_literal "message" type
        && has_own "message" message
        && (isValidChimeMessage_of (prop_of message "message")
            || isValidClientMessageInput (prop_of message "message"))).

(** [`${error}`] of an error object. *)
Definition error_text (e : Err) : string :=
  let '(name, msg) :=
    match e with
    | TypeError msg => ("TypeError", msg)
    | SyntaxError msg => ("SyntaxError", msg)
    | Error msg => ("Error", msg)
    end in
  if String.eqb msg "" then name else name +:+ ": " +:+ msg.

Definition parseMessage (rawData : WireText) : Completion JValue :=
  match
    (parsed ← JSON_parse rawData;
     if negb (isValidMessageStructure parsed)
     then Thrown (Error "Invalid message structure")
     else mret parsed)
  with
  | Normal parsed => Normal parsed
  | Thrown error => Thrown (Error ("Message parsing failed: " +:+ error_text error))
  end.


(** A chat message of a client: type 'message' with the two fields a
    client sends. *)
Definition client_chat : JValue :=
  JObj [("type", JStr "message");
        ("message", JObj [("channelId", JStr "general"); ("content", JStr "hi")])].

(** An error message, as the server sends them. *)
Definition server_error : JValue :=
  JObj [("type", JStr "error"); ("message", JStr "Unknown message type")].

(** A connect message for two channels. *)
Definition client_connect : JValue :=
  JObj [("type", JStr "connect");
        ("config", JObj [("userId", JStr "u1");
                         ("channels", JArr [JStr "general"; JStr "random"])])].


(** ** Stored messages and allocated ids *)

(** The row that holds a message. *)
Definition row_of_message (m : ChimeMessage) : Row :=
  {| channel_id := channelId m; message_id := messageId m;
     user_id := userId m; row_content := content m;
     created_at := createdAt m; edited_at := editedAt m;
     row_metadata := metadata m |}.

(** Every row a returned message stands for is in the table. *)
Definition stored_ok (b : Backend) (pool : list (Prog ChimeMessage)) : Prop :=
  ∀ i m, pool !! i = Some (Ret m) →
         messages b !! (channelId m, messageId m) = Some (row_of_message m).

(** The ids given out under each key lie after the counter the run
    started from, up to the counter of now. *)
Definition ids_in_range (b0 b : Backend) (labels : list Label) : Prop :=
  ∀ key, counter b0 key ≤ counter b key
         ∧ Forall (λ id, counter b0 key < id ≤ counter b key) (ids_for key labels).


(** ** Dates and the JSON of a message *)

(** [n] in decimal, with zeros in front up to [width] digits. *)
Definition pad (width : nat) (n : Z) : string :=
  let digits := decimal n in
  String.concat "" (replicate (width - String.length digits) "0") +:+ digits.

(** The year, month and day of the day that is [days] days after
    1970-01-01. *)
Definition civil_from_days (days : Z) : Z * Z * Z :=
  let z := days + 719468 in
  let era := z / 146097 in
  let doe := z - era * 146097 in
  let yoe := (doe - doe / 1460 + doe / 36524 - doe / 146096) / 365 in
  let doy := doe - (365 * yoe + yoe / 4 - yoe / 100) in
  let mp := (5 * doy + 2) / 153 in
  let d := doy - (153 * mp + 2) / 5 + 1 in
  let m := if mp <? 10 then mp + 3 else mp - 9 in
  let y := yoe + era * 400 + (if m <=? 2 then 1 else 0) in
  (y, m, d).

(** [date.toISOString()] of the date [t] milliseconds after the epoch, in
    UTC: YYYY-MM-DDTHH:mm:ss.sssZ, the year with a sign and six digits
    when it is not between 0 and 9999. *)
Definition toISOString (t : Z) : string :=
  let '(y, m, d) := civil_from_days (t / 86400000) in
  let ms := t mod 86400000 in
  let year :=
    if (0 <=? y) && (y <=? 9999) then pad 4 y
    else (if y <? 0 then "-" else "+") +:+ pad 6 (Z.abs y) in
  year +:+ "-" +:+ pad 2 m +:+ "-" +:+ pad 2 d
  +:+ "T" +:+ pad 2 (ms / 3600000) +:+ ":" +:+ pad 2 (ms / 60000 mod 60)
  +:+ ":" +:+ pad 2 (ms / 1000 mod 60) +:+ "." +:+ pad 3 (ms mod 1000) +:+ "Z".

(** [JSON.stringify] sees of a message the fields of the object
    [saveMessage] returns, in their order. *)
Definition toJSON (m : ChimeMessage) : JValue :=
  JObj [("channelId", JStr (channelId m));
        ("messageId", JStr (messageId m));
        ("userId", JStr (userId m));
        ("content", JStr (content m));
        ("createdAt", JStr (toISOString (createdAt m)));
        ("editedAt", match editedAt m with
                     | Some t => JStr (toISOString t)
                     | None => JNull
                     end);
        ("metadata", JObj (metadata m))].

(** ** MessageBroadcastService (services/messageBroadcaseService.ts) *)

(** [error.message] *)
Definition error_message (e : Err) : string :=
  match e with
  | TypeError msg | SyntaxError msg | Error msg => msg
  end.

Module MessageBroadcastService.

(** The Redis client of the service: whether it is ready, and how a call
    of [client.publish] completes. *)
Record t : Type := {
  isReady : bool;
  client_publish : string → WireText → Completion unit
}.

(** The outcome of [publish], and the calls of [client.publish] it
    made.  [getClient] makes the client when there is none, so [!client]
    is never true. *)
Definition publish (message : ChimeMessage) (s : t)
    : Completion unit * list (string * WireText) :=
  if negb (isReady s)
  then (Thrown (Error "Broadcast not initialized before call"), [])
  else
    let targetChannel := channelId message in
    let payload := JSON_stringify (toJSON message) in
    match client_publish s targetChannel payload with
    | Normal _ => (Normal tt, [(targetChannel, payload)])
    | Thrown error =>
        (Thrown (Error ("Failed to broadcast message: " +:+ error_message error)),
         [(targetChannel, payload)])
    end.

End MessageBroadcastService.

(** A bus that is ready and takes every message. *)
Definition bus_ready : MessageBroadcastService.t :=
  {| MessageBroadcastService.isReady := true;
     MessageBroadcastService.client_publish := λ _ _, Normal tt |}.


(** ** ChimeRedisClient (services/redisClient.ts) *)

Module ChimeRedisClient.

(** [socket.reconnectStrategy]: the wait before the reconnection that
    follows [retries] failed ones, in milliseconds. *)
Definition reconnectStrategy (retries : Z) : Z := Z.min (retries * 50) 500.

(** Whether [this.client] is set, and how [client.connect()] and
    [client.disconnect()] complete. *)
Record t : Type := {
  has_client : bool;
  client_connect : Completion unit;
  client_disconnect : Completion unit
}.

Definition set_has_client (b : bool) (s : t) : t :=
  {| has_client := b; client_connect := client_connect s;
     client_disconnect := client_disconnect s |}.

(** [getClient] makes the client on first use. *)
Definition getClient (s : t) : t := set_has_client true s.

(** The outcome, the client after, and the calls made on it. *)
Definition connect (s : t) : Completion unit * t * list RedisCall :=
  let s := getClient s in
  match client_connect s with
  | Normal _ => (Normal tt, s, [RConnect])
  | Thrown connectError => (Thrown (Error "Redis client not connected"), s, [RConnect])
  end.

Definition disconnect (s : t) : Completion unit * t * list RedisCall :=
  if has_client s then
    match client_disconnect s with
    | Normal _ => (Normal tt, set_has_client false s, [RDisconnect])
    | Thrown e => (Thrown e, s, [RDisconnect])
    end
  else (Normal tt, s, []).

End ChimeRedisClient.

(** ** ServiceContainer (services/ServiceContainer.ts) *)

Inductive Service : Type := MessageSvc | BroadcastSvc | SubscriberSvc.

Module ServiceContainer.

(** The Redis client of [messageService] (held by its MessageIDService),
    the Redis client of [broadcastService], and the subscriber. *)
Record t : Type := {
  messageService : ChimeRedisClient.t;
  broadcastService : ChimeRedisClient.t;
  subscriberService : MessageSubscriberService.t
}.

(** A method of the container: its outcome, the container after, and
    the calls made on the Redis clients, each with its service. *)
Definition Method : Type := t → Completion unit * t * list (Service * RedisCall).

(** [await a; await b] *)
Definition and_then (a b : Method) : Method :=
  λ s, let '(r, s', calls) := a s in
       match r with
       | Normal _ => let '(r', s'', calls') := b s' in (r', s'', calls ++ calls')
       | Thrown e => (Thrown e, s', calls)
       end.

(** [messageService.connect()] and [disconnect()]: those of its
    MessageIDService, which are those of its Redis client. *)
Definition messageService_connect : Method :=
  λ s, let '(r, c, calls) := ChimeRedisClient.connect (messageService s) in
       (r, {| messageService := c; broadcastService := broadcastService s;
              subscriberService := subscriberService s |},
        (λ call, (MessageSvc, call)) <$> calls).

Definition messageService_disconnect : Method :=
  λ s, let '(r, c, calls) := ChimeRedisClient.disconnect (messageService s) in
       (r, {| messageService := c; broadcastService := broadcastService s;
              subscriberService := subscriberService s |},
        (λ call, (MessageSvc, call)) <$> calls).

(** [broadcastService.init()] and [disconnect()] *)
Definition broadcastService_init : Method :=
  λ s, let '(r, c, calls) := ChimeRedisClient.connect (broadcastService s) in
       (r, {| messageService := messageService s; broadcastService := c;
              subscriberService := subscriberService s |},
        (λ call, (BroadcastSvc, call)) <$> calls).

Definition broadcastService_disconnect : Method :=
  λ s, let '(r, c, calls) := ChimeRedisClient.disconnect (broadcastService s) in
       (r, {| messageService := messageService s; broadcastService := c;
              subscriberService := subscriberService s |},
        (λ call, (BroadcastSvc, call)) <$> calls).

(** [subscriberService.connect()] calls its client once;
    [subscriberService.disconnect()] calls it when the service is
    connected. *)
Definition subscriberService_connect : Method :=
  λ s, let r := MessageSubscriberService.connect (subscriberService s) in
       (result r,
        {| messageService := messageService s; broadcastService := broadcastService s;
           subscriberService := state_after r |},
        [(SubscriberSvc, RConnect)]).

Definition subscriberService_disconnect : Method :=
  λ s, let r := MessageSubscriberService.disconnect (subscriberService s) in
       (result r,
        {| messageService := messageService s; broadcastService := broadcastService s;
           subscriberService := state_after r |},
        if MessageSubscriberService.isConnected (subscriberService s)
        then [(SubscriberSvc, RDisconnect)] else []).

(** The [catch] blocks log and throw the error again. *)
Definition connect : Method :=
  and_then messageService_connect
    (and_then broadcastService_init subscriberService_connect).

Definition disconnect : Method :=
  and_then subscriberService_disconnect
    (and_then broadcastService_disconnect messageService_disconnect).

End ServiceContainer.

(** A container just made: no client yet, nothing connected, every call
    on Redis succeeding. *)
Definition fresh_client : ChimeRedisClient.t :=
  {| ChimeRedisClient.has_client := false;
     ChimeRedisClient.client_connect := Normal tt;
     ChimeRedisClient.client_disconnect := Normal tt |}.

Definition fresh_container : ServiceContainer.t :=
  {| ServiceContainer.messageService := fresh_client;
     ServiceContainer.broadcastService := fresh_client;
     ServiceContainer.subscriberService := service_general false |}.

(** The same, with the Redis of the broadcast service down. *)
Definition container_broadcast_down : ServiceContainer.t :=
  {| ServiceContainer.messageService := fresh_client;
     ServiceContainer.broadcastService :=
       {| ChimeRedisClient.has_client := false;
          ChimeRedisClient.client_connect := Thrown (Error "ECONNREFUSED");
          ChimeRedisClient.client_disconnect := Normal tt |};
     ServiceContainer.subscriberService := service_general false |}.

(** Whether a call completed without an error. *)
Definition succeeds {A} (c : Completion A) : bool :=
  match c with Normal _ => true | Thrown _ => false end.


(** * Properties *)

(** ** Sets and maps *)

Section CollectionFacts.
Context {K : Type} `{EqDecision K}.

Lemma set_add_elem (x : K) (s : list K) : x ∈ set_add x s.
Proof.
  unfold set_add. destruct (decide (x ∈ s)) as [Hin|Hout]; [done|].
  apply elem_of_app. right. by apply list_elem_of_singleton.
Qed.

Lemma set_add_present (x : K) (s : list K) : x ∈ s → set_add x s = s.
Proof. intros Hin. unfold set_add. by rewrite decide_True. Qed.

Lemma set_add_idem (x : K) (s : list K) : set_add x (set_add x s) = set_add x s.
Proof. apply set_add_present, set_add_elem. Qed.

Lemma set_add_nonempty (x : K) (s : list K) : set_add x s ≠ [].
Proof.
  intros Heq. pose proof (set_add_elem x s) as Hin.
  rewrite Heq in Hin. by apply not_elem_of_nil in Hin.
Qed.

Lemma set_delete_absent (x : K) (s : list K) : x ∉ s → set_delete x s = s.
Proof.
  unfold set_delete. induction s as [|y s IH]; intros Hout; [done|].
  apply not_elem_of_cons in Hout as [Hne Hout].
  rewrite filter_cons_True by congruence. by rewrite IH.
Qed.

Lemma set_delete_gone (x : K) (s : list K) : x ∉ set_delete x s.
Proof. unfold set_delete. rewrite list_elem_of_filter. tauto. Qed.

Lemma set_add_NoDup (x : K) (s : list K) : NoDup s → NoDup (set_add x s).
Proof.
  intros Hnd. unfold set_add. destruct (decide (x ∈ s)) as [Hin|Hout]; [done|].
  apply NoDup_app. split_and!; [done| |apply NoDup_singleton].
  intros y Hy Hy'. apply list_elem_of_singleton in Hy'. by subst.
Qed.

Context {V : Type}.
Implicit Types (m : list (K * V)).

Lemma map_has_get (k : K) m : map_has k m = true ↔ is_Some (map_get k m).
Proof.
  unfold map_has. destruct (map_get k m); split; intros Hx;
    first [done | by eexists | by destruct Hx].
Qed.

Lemma map_get_set_eq (k : K) (v : V) m : map_get k (map_set k v m) = Some v.
Proof.
  induction m as [|[k' v'] m IH]; simpl.
  - by rewrite decide_True.
  - destruct (decide (k = k')) as [->|Hne]; simpl.
    + by rewrite decide_True.
    + by rewrite decide_False.
Qed.

Lemma map_get_set_ne (k k' : K) (v : V) m :
  k ≠ k' → map_get k' (map_set k v m) = map_get k' m.
Proof.
  intros Hne. induction m as [|[k0 v0] m IH]; simpl.
  - by rewrite decide_False.
  - destruct (decide (k = k0)) as [->|Hne0]; simpl.
    + by rewrite !decide_False.
    + destruct (decide (k' = k0)); [done|apply IH].
Qed.

Lemma map_set_same (k : K) (v : V) m : map_get k m = Some v → map_set k v m = m.
Proof.
  induction m as [|[k' v'] m IH]; simpl; [done|].
  destruct (decide (k = k')) as [->|Hne]; intros Hget.
  - by injection Hget as ->.
  - by rewrite IH.
Qed.

Lemma map_set_idem (k : K) (v : V) m : map_set k v (map_set k v m) = map_set k v m.
Proof. apply map_set_same, map_get_set_eq. Qed.

Lemma map_get_delete_eq (k : K) m : map_get k (map_delete k m) = None.
Proof.
  unfold map_delete. induction m as [|[k' v'] m IH]; [done|].
  destruct (decide (k' = k)) as [->|Hne].
  - by rewrite filter_cons_False by (simpl; tauto).
  - rewrite filter_cons_True by done. simpl. by rewrite decide_False.
Qed.

Lemma map_keys_delete (k : K) m : k ∉ map_keys (map_delete k m).
Proof.
  unfold map_keys, map_delete. rewrite list_elem_of_fmap.
  intros [[k' v'] [-> Hin]]. apply list_elem_of_filter in Hin as [Hne _]. done.
Qed.

Lemma map_get_keys (k : K) m : is_Some (map_get k m) ↔ k ∈ map_keys m.
Proof.
  unfold map_keys. induction m as [|[k' v'] m IH]; simpl.
  - split; [by intros [? ?]|by intros ?%not_elem_of_nil].
  - destruct (decide (k = k')) as [->|Hne].
    + split; [intros _; apply list_elem_of_here|by eexists].
    + rewrite IH. split; [apply list_elem_of_further|].
      intros Hin. apply elem_of_cons in Hin as [?|?]; done.
Qed.

Lemma map_get_Forall (P : K * V → Prop) (k : K) (v : V) m :
  Forall P m → map_get k m = Some v → P (k, v).
Proof.
  induction 1 as [|[k' v'] m HP Hm IH]; simpl; [done|].
  destruct (decide (k = k')) as [->|Hne]; [|done].
  by intros [= ->].
Qed.

Lemma map_set_Forall (P : K * V → Prop) (k : K) (v : V) m :
  Forall P m → P (k, v) → Forall P (map_set k v m).
Proof.
  intros Hm Hkv. induction Hm as [|[k' v'] m HP Hm IH]; simpl.
  - by constructor.
  - destruct (decide (k = k')); by constructor.
Qed.

Lemma map_delete_set_Forall (P : K * V → Prop) (k : K) (v : V) m :
  Forall P m → Forall P (map_delete k (map_set k v m)).
Proof.
  unfold map_delete. induction 1 as [|[k' v'] m HP Hm IH]; simpl.
  - by rewrite filter_cons_False by (simpl; tauto).
  - destruct (decide (k = k')) as [->|Hne].
    + rewrite filter_cons_False by (simpl; tauto).
      apply Forall_forall. intros x Hx%list_elem_of_filter.
      destruct Hx as [_ Hx]. by eapply Forall_forall in Hm.
    + rewrite filter_cons_True by (simpl; congruence). by constructor.
Qed.

End CollectionFacts.

Lemma map_set_set {K V : Type} `{EqDecision K} (k : K) (v v' : V) (m : list (K * V)) :
  map_set k v (map_set k v' m) = map_set k v m.
Proof.
  induction m as [|[k0 v0] m IH]; simpl.
  - by rewrite decide_True.
  - destruct (decide (k = k0)) as [->|Hne]; simpl.
    + by rewrite decide_True.
    + rewrite decide_False by done. by rewrite IH.
Qed.

(** Unfolding of the monad on a given state. *)
Ltac run_M :=
  unfold mbind, mret, M_bind, M_ret, bind, try_catch, gets, modify, emit,
    ret, throw, zoom, deref, result, state_after, trace in *; simpl in *.

(** ** ChannelManager *)

Lemma addUserToChannel_run (c : Key) (u : string) (channels : ChannelManager.t) :
  ChannelManager.addUserToChannel c u channels
  = (Normal tt,
     map_set c (set_add u (ChannelManager.getUsersInChannel c channels)) channels,
     []).
Proof.
  unfold ChannelManager.addUserToChannel, ChannelManager.getUsersInChannel, map_has.
  run_M. destruct (map_get c channels) as [users|] eqn:Hget; simpl.
  - by rewrite Hget.
  - rewrite map_get_set_eq. simpl. by rewrite map_set_set.
Qed.

Lemma removeUserFromChannel_run (c : Key) (u : string) (channels : ChannelManager.t) :
  ChannelManager.removeUserFromChannel c u channels
  = (Normal tt,
     match map_get c channels with
     | Some users =>
         if decide (length (set_delete u users) = 0%nat)
         then map_delete c (map_set c (set_delete u users) channels)
         else map_set c (set_delete u users) channels
     | None => channels
     end,
     []).
Proof.
  unfold ChannelManager.removeUserFromChannel. run_M.
  destruct (map_get c channels) as [users|]; [|done].
  by destruct (decide (length (set_delete u users) = 0%nat)).
Qed.

Lemma ChannelManager_perform_normal (call : ChannelManager.Call)
    (channels : ChannelManager.t) :
  result (ChannelManager.perform call channels) = Normal tt
  ∧ trace (ChannelManager.perform call channels) = [].
Proof.
  destruct call as [c u|c u]; simpl.
  - by rewrite addUserToChannel_run.
  - by rewrite removeUserFromChannel_run.
Qed.

Lemma ChannelManager_perform_inv (call : ChannelManager.Call)
    (channels : ChannelManager.t) :
  ChannelManager.inv channels →
  ChannelManager.inv (state_after (ChannelManager.perform call channels)).
Proof.
  unfold ChannelManager.inv. intros Hinv. destruct call as [c u|c u]; simpl.
  - rewrite addUserToChannel_run. unfold state_after; simpl.
    apply map_set_Forall; [done|]. apply set_add_nonempty.
  - rewrite removeUserFromChannel_run. unfold state_after; simpl.
    destruct (map_get c channels) as [users|]; [|done].
    destruct (decide (length (set_delete u users) = 0%nat)) as [Hlen|Hlen].
    + by apply map_delete_set_Forall.
    + apply map_set_Forall; [done|]. simpl. intros Heq. by rewrite Heq in Hlen.
Qed.

(** The member sets never hold a user twice. *)
Lemma ChannelManager_perform_NoDup (call : ChannelManager.Call)
    (channels : ChannelManager.t) :
  Forall (λ kv, NoDup kv.2) channels →
  Forall (λ kv, NoDup kv.2) (state_after (ChannelManager.perform call channels)).
Proof.
  intros Hnd.
  assert (∀ c, NoDup (ChannelManager.getUsersInChannel c channels)) as Hmem.
  { intros c. unfold ChannelManager.getUsersInChannel.
    destruct (map_get c channels) as [users|] eqn:Hget; simpl; [|constructor].
    by apply (map_get_Forall _ _ _ _ Hnd Hget). }
  destruct call as [c u|c u]; simpl.
  - rewrite addUserToChannel_run. unfold state_after; simpl.
    apply map_set_Forall; [done|]. simpl. apply set_add_NoDup, Hmem.
  - rewrite removeUserFromChannel_run. unfold state_after; simpl.
    destruct (map_get c channels) as [users|] eqn:Hget; [|done].
    destruct (decide (length (set_delete u users) = 0%nat)).
    + by apply map_delete_set_Forall.
    + apply map_set_Forall; [done|]. simpl. apply NoDup_filter.
      by apply (map_get_Forall _ _ _ _ Hnd Hget).
Qed.

Lemma ChannelManager_replay_preserves (P : ChannelManager.t → Prop)
    (history : list ChannelManager.Call) :
  (∀ call channels, P channels → P (state_after (ChannelManager.perform call channels))) →
  ∀ channels, P channels → P (ChannelManager.replay history channels).
Proof.
  intros Hstep. induction history as [|call rest IH]; intros channels HP; simpl.
  - done.
  - apply IH, Hstep, HP.
Qed.

Lemma ChannelManager_after_inv (history : list ChannelManager.Call) :
  ChannelManager.inv (ChannelManager.after history).
Proof.
  unfold ChannelManager.after.
  apply (ChannelManager_replay_preserves ChannelManager.inv).
  - intros call channels. apply ChannelManager_perform_inv.
  - constructor.
Qed.

Lemma ChannelManager_after_NoDup (history : list ChannelManager.Call) (c : Key) :
  NoDup (ChannelManager.getUsersInChannel c (ChannelManager.after history)).
Proof.
  assert (Forall (λ kv, NoDup kv.2) (ChannelManager.after history)) as Hnd.
  { unfold ChannelManager.after.
    apply (ChannelManager_replay_preserves (Forall (λ kv, NoDup kv.2))).
    - intros call channels. apply ChannelManager_perform_NoDup.
    - constructor. }
  unfold ChannelManager.getUsersInChannel.
  destruct (map_get c _) as [users|] eqn:Hget; simpl; [|constructor].
  by apply (map_get_Forall _ _ _ _ Hnd Hget).
Qed.

Lemma ChannelManager_present_nonempty (channels : ChannelManager.t) (c : Key) :
  ChannelManager.inv channels →
  c ∈ ChannelManager.getChannels channels →
  ChannelManager.getUsersInChannel c channels ≠ [].
Proof.
  intros Hinv Hin. apply map_get_keys in Hin as [users Hget].
  unfold ChannelManager.getUsersInChannel. rewrite Hget. simpl.
  by apply (map_get_Forall _ _ _ _ Hinv Hget).
Qed.

(** C8: adding a member twice is adding it once; removing a user who is
    not a member (the channel known or not) changes nothing and does not
    throw; removing the last member deletes the channel entry; the
    members of an unknown channel are the empty list. *)
Theorem membership_idempotence (history : list ChannelManager.Call) (c : Key)
    (u : string) :
  let channels := ChannelManager.after history in
  let once := ChannelManager.addUserToChannel c u channels in
  let twice := (ChannelManager.addUserToChannel c u;;
                ChannelManager.addUserToChannel c u) channels in
  (result once = Normal tt ∧ result twice = Normal tt
   ∧ state_after twice = state_after once
   ∧ (∀ c', ChannelManager.getUsersInChannel c' (state_after twice)
            = ChannelManager.getUsersInChannel c' (state_after once))
   ∧ ChannelManager.getChannels (state_after twice)
     = ChannelManager.getChannels (state_after once))
  ∧ (u ∉ ChannelManager.getUsersInChannel c channels →
     ChannelManager.removeUserFromChannel c u channels = (Normal tt, channels, []))
  ∧ (set_delete u (ChannelManager.getUsersInChannel c channels) = [] →
     let gone := ChannelManager.removeUserFromChannel c u channels in
     result gone = Normal tt
     ∧ (c ∉ ChannelManager.getChannels (state_after gone))
     ∧ ChannelManager.getUsersInChannel c (state_after gone) = [])
  ∧ (c ∉ ChannelManager.getChannels channels →
     ChannelManager.getUsersInChannel c channels = []).
Proof.
  intros channels once twice.
  assert (state_after twice = state_after once) as Hsame.
  { subst once twice. unfold mbind, M_bind, bind.
    rewrite addUserToChannel_run, addUserToChannel_run. unfold state_after; simpl.
    unfold ChannelManager.getUsersInChannel at 1. rewrite map_get_set_eq. simpl.
    by rewrite set_add_idem, map_set_idem. }
  split_and!.
  - subst once. by rewrite addUserToChannel_run.
  - subst twice. unfold mbind, M_bind, bind.
    by rewrite addUserToChannel_run, addUserToChannel_run.
  - done.
  - intros c'. by rewrite Hsame.
  - by rewrite Hsame.
  - intros Hout. rewrite removeUserFromChannel_run.
    unfold ChannelManager.getUsersInChannel in Hout.
    destruct (map_get c channels) as [users|] eqn:Hget; [|done]. simpl in Hout.
    rewrite (set_delete_absent _ _ Hout).
    pose proof (map_get_Forall _ _ _ _ (ChannelManager_after_inv history) Hget) as Hne.
    simpl in Hne. rewrite decide_False by (by destruct users).
    by rewrite (map_set_same _ _ _ Hget).
  - intros Hempty gone. subst gone. rewrite removeUserFromChannel_run.
    unfold result, state_after; simpl. split; [done|].
    unfold ChannelManager.getUsersInChannel in *.
    destruct (map_get c channels) as [users|] eqn:Hget; simpl in *.
    + rewrite Hempty. simpl. split.
      * apply map_keys_delete.
      * by rewrite map_get_delete_eq.
    + split; [|by rewrite Hget].
      intros Hin. apply map_get_keys in Hin as [? Hin]. congruence.
  - intros Hout. unfold ChannelManager.getUsersInChannel.
    destruct (map_get c channels) as [users|] eqn:Hget; [|done].
    exfalso. apply Hout. apply map_get_keys. by eexists.
Qed.

Lemma membership_idempotence_witness :
  let channels :=
    ChannelManager.after [ChannelManager.AddUserToChannel "general" "u1"] in
  ChannelManager.removeUserFromChannel "random" "u2" channels
  = (Normal tt, channels, [])
  ∧ (KStr "general" ∉ ChannelManager.getChannels
       (state_after (ChannelManager.removeUserFromChannel "general" "u1" channels)))
  ∧ ChannelManager.getUsersInChannel "random" channels = [].
Proof.
  intros channels.
  destruct (membership_idempotence
              [ChannelManager.AddUserToChannel "general" "u1"] "random" "u2")
    as (_ & Hnoop & _ & Hunknown).
  destruct (membership_idempotence
              [ChannelManager.AddUserToChannel "general" "u1"] "general" "u1")
    as (_ & _ & Hlast & _).
  split_and!.
  - apply Hnoop. vm_compute. apply not_elem_of_nil.
  - apply Hlast. reflexivity.
  - apply Hunknown. vm_compute. intros Hin.
    apply elem_of_cons in Hin as [Heq|Hin]; [discriminate|].
    by apply not_elem_of_nil in Hin.
Defined.

(** ** UserConnectionManager *)

Lemma addUserConnection_run (u : string) (ws : WsRef) (m : UserConnectionManager.t) :
  UserConnectionManager.addUserConnection u ws m
  = (Normal tt,
     UserConnectionManager.update
       (map_set u (set_add ws (UserConnectionManager.getUserConnections u m))) m,
     []).
Proof.
  unfold UserConnectionManager.addUserConnection,
    UserConnectionManager.getUserConnections, UserConnectionManager.update, map_has.
  run_M. destruct (map_get u (UserConnectionManager.userConnections m))
    as [connections|] eqn:Hget; simpl.
  - by rewrite Hget.
  - rewrite map_get_set_eq. simpl. by rewrite map_set_set.
Qed.

Lemma removeUserConnection_run (u : string) (ws : WsRef) (m : UserConnectionManager.t) :
  UserConnectionManager.removeUserConnection u ws m
  = (Normal tt,
     match map_get u (UserConnectionManager.userConnections m) with
     | Some connections =>
         if decide (length (set_delete ws connections) = 0%nat)
         then UserConnectionManager.update
                (λ conns, map_delete u (map_set u (set_delete ws connections) conns)) m
         else UserConnectionManager.update (map_set u (set_delete ws connections)) m
     | None => m
     end,
     []).
Proof.
  unfold UserConnectionManager.removeUserConnection, UserConnectionManager.update.
  run_M. destruct (map_get u (UserConnectionManager.userConnections m)); [|done].
  by destruct (decide (length (set_delete ws l) = 0%nat)).
Qed.

(** A loop whose callback leaves the state alone, returns, and counts. *)
Lemma forEach_counting {S A : Type} (f : A → Z → M S Z) (s : S)
    (counts : A → bool) (events : A → list Event) (l : list A) (n : Z) :
  (∀ x k, f x k s = (Normal (if counts x then k + 1 else k), s, events x)) →
  forEach l f n s
  = (Normal (n + Z.of_nat (length (filter (λ x, counts x) l))), s,
     concat (List.map events l)).
Proof.
  intros Hf. revert n. induction l as [|x l IH]; intros n; simpl.
  - unfold ret. by rewrite Nat2Z.inj_0, Z.add_0_r.
  - unfold mbind, M_bind, bind at 1. rewrite Hf, IH. do 3 f_equal.
    destruct (counts x) eqn:Hx.
    + rewrite filter_cons_True by (by rewrite Hx). cbn [length]. lia.
    + rewrite filter_cons_False by (rewrite Hx; simpl; tauto). done.
Qed.

Lemma sendToUser_run (u : string) (message : WireText) (m : UserConnectionManager.t) :
  UserConnectionManager.sendToUser u message m
  = (Normal (bool_decide
       (0 < length (filter (λ ws, UserConnectionManager.delivers m message ws)
                      (UserConnectionManager.open_connections u m)))%nat),
     m,
     (λ ws, EvWsSend ws message) <$> UserConnectionManager.open_connections u m).
Proof.
  unfold UserConnectionManager.sendToUser, UserConnectionManager.open_connections,
    UserConnectionManager.getUserConnections.
  unfold mbind at 1, M_bind at 1, bind at 1, gets at 1.
  destruct (map_get u (UserConnectionManager.userConnections m)) as [conns|]; [|done].
  simpl. destruct (decide (length conns = 0%nat)) as [Hlen|Hlen].
  { destruct conns; [done|discriminate]. }
  unfold mbind at 1, M_bind at 1, bind at 1.
  rewrite (forEach_counting _ m
    (λ ws, bool_decide (readyState (UserConnectionManager.sockets m ws) = OPEN)
           && UserConnectionManager.delivers m message ws)
    (λ ws, if decide (readyState (UserConnectionManager.sockets m ws) = OPEN)
           then [EvWsSend ws message] else [])).
  - unfold ret. simpl. f_equal; [do 2 f_equal|].
    + clear Hlen. apply bool_decide_ext.
      assert (filter (λ ws, bool_decide
                        (readyState (UserConnectionManager.sockets m ws) = OPEN)
                      && UserConnectionManager.delivers m message ws) conns
              = filter (λ ws, UserConnectionManager.delivers m message ws)
                  (filter (λ ws, readyState (UserConnectionManager.sockets m ws) = OPEN)
                     conns)) as ->; [|lia].
      induction conns as [|ws conns IH]; [done|].
      rewrite !filter_cons, IH.
      destruct (decide (readyState (UserConnectionManager.sockets m ws) = OPEN)) as [Ho|Ho].
      * rewrite bool_decide_eq_true_2 by done. simpl. by rewrite filter_cons.
      * rewrite bool_decide_eq_false_2 by done. done.
    + rewrite app_nil_r. clear Hlen. induction conns as [|ws conns IH]; [done|].
      simpl. rewrite IH, filter_cons.
      by destruct (decide (readyState (UserConnectionManager.sockets m ws) = OPEN)).
  - intros ws k. unfold UserConnectionManager.ws_send, UserConnectionManager.delivers.
    run_M. destruct (decide (readyState (UserConnectionManager.sockets m ws) = OPEN)).
    + rewrite bool_decide_eq_true_2 by done. simpl.
      by destruct (send (UserConnectionManager.sockets m ws) message).
    + by rewrite bool_decide_eq_false_2 by done.
Qed.

Lemma sendToUser_preserves (u : string) (message : WireText)
    (m : UserConnectionManager.t) :
  state_after (UserConnectionManager.sendToUser u message m) = m.
Proof. by rewrite sendToUser_run. Qed.

(** C5, as the code has it: [ws.send] is called once, in order, on every
    socket of the user that is OPEN, whatever the earlier calls did, and
    on no other socket; the call never throws, leaves the registry as it
    was, and returns [true] exactly when some OPEN socket of the user
    took the payload. *)
Theorem sendToUser_soft_fail (m : UserConnectionManager.t) (userId : string)
    (message : WireText) :
  let connections := UserConnectionManager.getUserConnections userId m in
  let r := UserConnectionManager.sendToUser userId message m in
  state_after r = m
  ∧ trace r = (λ ws, EvWsSend ws message) <$>
                filter (λ ws, readyState (UserConnectionManager.sockets m ws) = OPEN)
                  connections
  ∧ ∃ b : bool,
      result r = Normal b
      ∧ (b = true ↔
         ∃ ws, ws ∈ connections
               ∧ readyState (UserConnectionManager.sockets m ws) = OPEN
               ∧ send (UserConnectionManager.sockets m ws) message = Normal tt).
Proof.
  intros connections r. subst r. rewrite sendToUser_run.
  unfold state_after, trace, result; simpl. split_and!; [done|done|].
  eexists. split; [done|].
  rewrite bool_decide_eq_true. unfold UserConnectionManager.open_connections.
  fold connections. split.
  - intros Hlen.
    destruct (filter _ (filter _ connections)) as [|ws rest] eqn:Hf; [simpl in Hlen; lia|].
    assert (ws ∈ filter (λ ws, UserConnectionManager.delivers m message ws)
              (filter (λ ws, readyState (UserConnectionManager.sockets m ws) = OPEN)
                 connections)) as Hin by (rewrite Hf; apply list_elem_of_here).
    apply list_elem_of_filter in Hin as [Hd Hin].
    apply list_elem_of_filter in Hin as [Ho Hin].
    exists ws. split_and!; [done|done|].
    unfold UserConnectionManager.delivers in Hd.
    destruct (send (UserConnectionManager.sockets m ws) message) as [[]|]; done.
  - intros (ws & Hin & Ho & Hs).
    assert (ws ∈ filter (λ ws, UserConnectionManager.delivers m message ws)
              (filter (λ ws, readyState (UserConnectionManager.sockets m ws) = OPEN)
                 connections)) as Hin'.
    { apply list_elem_of_filter. split.
      - unfold UserConnectionManager.delivers. by rewrite Hs.
      - apply list_elem_of_filter. by split. }
    destruct (filter _ (filter _ connections)); [by apply not_elem_of_nil in Hin'|].
    simpl. lia.
Qed.

(** A user nobody registered: [false], no exception, nothing sent. *)
Lemma sendToUser_no_connections (m : UserConnectionManager.t) (userId : string)
    (message : WireText) :
  UserConnectionManager.getUserConnections userId m = [] →
  UserConnectionManager.sendToUser userId message m = (Normal false, m, []).
Proof.
  intros Hnone. rewrite sendToUser_run.
  unfold UserConnectionManager.open_connections. by rewrite Hnone.
Qed.

(** C5 as stated fails: socket 0 is in the set of "u1" and [send] is not
    called on it. *)
Lemma sendToUser_skips_closed :
  ¬ UserConnectionManager.every_connection_attempted "u1" (RawText "x")
      registry_closed_and_open.
Proof.
  intros Hall. specialize (Hall 0%nat).
  assert (0%nat ∈ UserConnectionManager.getUserConnections "u1"
            registry_closed_and_open) as Hin by apply list_elem_of_here.
  apply Hall in Hin. vm_compute in Hin.
  apply elem_of_cons in Hin as [Heq|Hin]; [discriminate|].
  by apply not_elem_of_nil in Hin.
Qed.

Lemma UserConnectionManager_perform_inv (call : UserConnectionManager.Call)
    (m : UserConnectionManager.t) :
  UserConnectionManager.inv m →
  UserConnectionManager.inv (state_after (UserConnectionManager.perform call m)).
Proof.
  unfold UserConnectionManager.inv. intros Hinv.
  destruct call as [u ws|u ws|u message|heap]; simpl.
  - rewrite addUserConnection_run. unfold state_after; simpl.
    apply map_set_Forall; [done|]. apply set_add_nonempty.
  - rewrite removeUserConnection_run. unfold state_after; simpl.
    destruct (map_get u (UserConnectionManager.userConnections m)) as [conns|]; [|done].
    destruct (decide (length (set_delete ws conns) = 0%nat)) as [Hlen|Hlen]; simpl.
    + by apply map_delete_set_Forall.
    + apply map_set_Forall; [done|]. simpl. intros Heq. by rewrite Heq in Hlen.
  - unfold mbind, M_bind, bind. by rewrite sendToUser_run.
  - done.
Qed.

Lemma UserConnectionManager_replay_inv (history : list UserConnectionManager.Call)
    (m : UserConnectionManager.t) :
  UserConnectionManager.inv m →
  UserConnectionManager.inv (UserConnectionManager.replay history m).
Proof.
  revert m. induction history as [|call rest IH]; intros m Hinv; simpl; [done|].
  by apply IH, UserConnectionManager_perform_inv.
Qed.

Lemma UserConnectionManager_present_nonempty (m : UserConnectionManager.t)
    (u : string) :
  UserConnectionManager.inv m →
  u ∈ UserConnectionManager.getAllConnectedUsers m →
  UserConnectionManager.getUserConnections u m ≠ []
  ∧ UserConnectionManager.isUserConnected u m = true.
Proof.
  intros Hinv Hin. apply map_get_keys in Hin as [conns Hget].
  pose proof (map_get_Forall _ _ _ _ Hinv Hget) as Hne. simpl in Hne.
  unfold UserConnectionManager.getUserConnections,
    UserConnectionManager.isUserConnected, map_has.
  rewrite Hget. simpl. split; [done|].
  apply bool_decide_eq_true. destruct conns; [done|simpl; lia].
Qed.

(** C9: every call on the connection registry and on the channel
    membership map keeps all the sets held under a key non-empty; so after
    any history of calls [getAllConnectedUsers] and [getChannels] list only
    keys whose set is non-empty. *)
Theorem entries_never_empty :
  (∀ call m, UserConnectionManager.inv m →
             UserConnectionManager.inv
               (state_after (UserConnectionManager.perform call m)))
  ∧ (∀ call channels, ChannelManager.inv channels →
                      ChannelManager.inv
                        (state_after (ChannelManager.perform call channels)))
  ∧ (∀ heap history u,
       let m := UserConnectionManager.replay history
                  (UserConnectionManager.empty heap) in
       UserConnectionManager.inv m
       ∧ (u ∈ UserConnectionManager.getAllConnectedUsers m →
          UserConnectionManager.getUserConnections u m ≠ []
          ∧ UserConnectionManager.isUserConnected u m = true))
  ∧ (∀ history c,
       let channels := ChannelManager.after history in
       ChannelManager.inv channels
       ∧ (c ∈ ChannelManager.getChannels channels →
          ChannelManager.getUsersInChannel c channels ≠ [])).
Proof.
  split_and!.
  - intros call m. apply UserConnectionManager_perform_inv.
  - intros call channels. apply ChannelManager_perform_inv.
  - intros heap history u m.
    assert (UserConnectionManager.inv m) as Hinv.
    { apply UserConnectionManager_replay_inv. constructor. }
    split; [done|]. by apply UserConnectionManager_present_nonempty.
  - intros history c channels.
    pose proof (ChannelManager_after_inv history) as Hinv.
    split; [done|]. by apply ChannelManager_present_nonempty.
Qed.

Lemma entries_never_empty_witness :
  UserConnectionManager.inv
    (state_after
       (UserConnectionManager.perform
          (UserConnectionManager.RemoveUserConnection "u1" 0%nat)
          registry_closed_and_open))
  ∧ ChannelManager.inv
      (state_after
         (ChannelManager.perform
            (ChannelManager.RemoveUserFromChannel "general" "u1")
            [(KStr "general", ["u1"])]))
  ∧ UserConnectionManager.getUserConnections "u1"
      (UserConnectionManager.replay
         [UserConnectionManager.AddUserConnection "u1" 0%nat;
          UserConnectionManager.AddUserConnection "u1" 1%nat;
          UserConnectionManager.RemoveUserConnection "u1" 0%nat]
         (UserConnectionManager.empty
            (UserConnectionManager.sockets registry_closed_and_open))) ≠ []
  ∧ ChannelManager.getUsersInChannel "general"
      (ChannelManager.after [ChannelManager.AddUserToChannel "general" "u1"]) ≠ [].
Proof.
  destruct entries_never_empty as (Hreg & Hchan & Hregs & Hchans).
  split_and!.
  - apply Hreg. repeat constructor; discriminate.
  - apply Hchan. repeat constructor; discriminate.
  - apply (Hregs (UserConnectionManager.sockets registry_closed_and_open)
             [UserConnectionManager.AddUserConnection "u1" 0%nat;
              UserConnectionManager.AddUserConnection "u1" 1%nat;
              UserConnectionManager.RemoveUserConnection "u1" 0%nat] "u1").
    vm_compute. apply list_elem_of_here.
  - apply (Hchans [ChannelManager.AddUserToChannel "general" "u1"] "general").
    vm_compute. apply list_elem_of_here.
Defined.

(** ** MessageSubscriberService *)

Lemma set_userConnectionManager_same (s : MessageSubscriberService.t) :
  MessageSubscriberService.set_userConnectionManager
    (MessageSubscriberService.userConnectionManager s) s = s.
Proof. by destruct s. Qed.

(** A loop whose callback leaves the state alone and returns. *)
Lemma forEach_events {S A : Type} (f : A → unit → M S unit) (s : S)
    (events : A → list Event) (l : list A) :
  (∀ x, f x tt s = (Normal tt, s, events x)) →
  forEach l f tt s = (Normal tt, s, concat (List.map events l)).
Proof.
  intros Hf. induction l as [|x l IH]; simpl; [done|].
  unfold mbind, M_bind, bind at 1. by rewrite Hf, IH.
Qed.

Lemma service_sendToUser_run (u : string) (message : JValue)
    (s : MessageSubscriberService.t) :
  message ≠ JNull →
  MessageSubscriberService.sendToUser u message s
  = (result (UserConnectionManager.sendToUser u (envelope message)
               (MessageSubscriberService.userConnectionManager s)),
     s, delivery s u message).
Proof.
  intros Hnn. unfold MessageSubscriberService.sendToUser, delivery.
  fold (envelope message). run_M. rewrite sendToUser_run. simpl.
  rewrite set_userConnectionManager_same.
  destruct message; try done; simpl; by rewrite app_nil_r.
Qed.

Lemma broadcastToChannel_run (message : JValue) (s : MessageSubscriberService.t) :
  message ≠ JNull →
  MessageSubscriberService.broadcastToChannel message s
  = (Normal tt, s, concat (List.map (λ u, delivery s u message) (recipients s message))).
Proof.
  intros Hnn. unfold MessageSubscriberService.broadcastToChannel.
  unfold mbind at 1, M_bind at 1, bind at 1.
  assert (MessageSubscriberService.eval (get_prop message "channelId") s
          = (Normal (prop_of message "channelId"), s, [])) as ->
    by (by destruct message).
  unfold mbind at 1, M_bind at 1, bind at 1, gets at 1.
  fold (recipients s message).
  rewrite (forEach_events _ s (λ u, delivery s u message)); [done|].
  intros u. unfold mbind, M_bind, bind.
  rewrite service_sendToUser_run by done. rewrite sendToUser_run. simpl.
  by rewrite app_nil_r.
Qed.

Lemma handleMessage_run (message : JValue) (s : MessageSubscriberService.t) :
  message ≠ JNull →
  MessageSubscriberService.handleMessage message s
  = (Normal tt, s, dispatch_trace s message).
Proof.
  intros Hnn. unfold MessageSubscriberService.handleMessage, dispatch_trace.
  unfold mbind at 1, M_bind at 1, bind at 1.
  assert (MessageSubscriberService.eval (get_prop message "channelId") s
          = (Normal (prop_of message "channelId"), s, [])) as ->
    by (by destruct message).
  unfold mbind at 1, M_bind at 1, bind at 1, gets at 1.
  fold (handler_for s message).
  destruct (handler_for s message) as [handler|].
  - unfold MessageSubscriberService.call_handler, MessageSubscriberService.eval.
    run_M. by destruct (handlerRun handler message) as [[]|].
  - by rewrite broadcastToChannel_run by done.
Qed.

Lemma onRedisMessage_run (data : WireText) (channel : string)
    (s : MessageSubscriberService.t) :
  MessageSubscriberService.onRedisMessage data channel s
  = (Normal tt, s, payload_trace s data).
Proof.
  unfold MessageSubscriberService.onRedisMessage, payload_trace.
  destruct data as [raw|message].
  - by run_M.
  - assert (message = JNull ∨ message ≠ JNull) as [->|Hnn]
      by (destruct message; auto); [by run_M|].
    unfold try_catch, mbind, M_bind, bind.
    assert (MessageSubscriberService.eval (JSON_parse (JSONText message)) s
            = (Normal message, s, [])) as -> by done.
    assert (MessageSubscriberService.eval (get_prop message "messageId") s
            = (Normal (prop_of message "messageId"), s, [])) as ->
      by (by destruct message).
    rewrite handleMessage_run by done. simpl.
    by destruct message.
Qed.


(** What a broadcast leaves in the trace. *)
Lemma broadcast_sendToUser_calls (s : MessageSubscriberService.t)
    (message : JValue) (users : list string) :
  sendToUser_calls (concat (List.map (λ u, delivery s u message) users))
  = (λ u, (u, message)) <$> users.
Proof.
  unfold sendToUser_calls. induction users as [|u users IH]; [done|].
  simpl. rewrite omap_app, IH. f_equal.
  induction (UserConnectionManager.open_connections u _) as [|ws l IHl]; done.
Qed.

Lemma broadcast_handler_calls (s : MessageSubscriberService.t)
    (message : JValue) (users : list string) :
  handler_calls (concat (List.map (λ u, delivery s u message) users)) = [].
Proof.
  unfold handler_calls. induction users as [|u users IH]; [done|].
  simpl. rewrite omap_app, IH, app_nil_r.
  induction (UserConnectionManager.open_connections u _) as [|ws l IHl]; done.
Qed.

Lemma broadcast_sent_texts (s : MessageSubscriberService.t)
    (message : JValue) (users : list string) :
  Forall (λ data, data = envelope message)
    (sent_texts (concat (List.map (λ u, delivery s u message) users))).
Proof.
  unfold sent_texts. induction users as [|u users IH]; [constructor|].
  simpl. rewrite omap_app. apply Forall_app. split; [|done].
  induction (UserConnectionManager.open_connections u _) as [|ws l IHl];
    [constructor|by constructor].
Qed.

(** C3: a message for channel [c] goes to the handler registered for [c]
    and to nobody else, an exception of the handler being caught; with no
    handler for [c] (also once it was removed) the service calls
    [sendToUser] once for each member of [c], in turn, with that message,
    and every text sent to a socket is the envelope of that message. *)
Theorem dispatch_policy (s : MessageSubscriberService.t)
    (history : list ChannelManager.Call) (message : JValue) (c : string) :
  MessageSubscriberService.channelManager s = ChannelManager.after history →
  prop_of message "channelId" = Some (JStr c) →
  let members :=
    ChannelManager.getUsersInChannel c (MessageSubscriberService.channelManager s) in
  let r := MessageSubscriberService.handleMessage message s in
  result r = Normal tt
  ∧ state_after r = s
  ∧ (∀ h, map_get (KStr c) (MessageSubscriberService.messageHandlers s) = Some h →
          trace r = [EvHandler (handlerName h) message])
  ∧ (map_get (KStr c) (MessageSubscriberService.messageHandlers s) = None →
     handler_calls (trace r) = []
     ∧ sendToUser_calls (trace r) = (λ u, (u, message)) <$> members
     ∧ NoDup members
     ∧ Forall (λ data, data = envelope message) (sent_texts (trace r)))
  ∧ (let r' := MessageSubscriberService.handleMessage message
                 (state_after (MessageSubscriberService.removeChannelMessageHandler c s)) in
     result r' = Normal tt
     ∧ handler_calls (trace r') = []
     ∧ sendToUser_calls (trace r') = (λ u, (u, message)) <$> members).
Proof.
  intros Hreach Hc members r.
  assert (message ≠ JNull) as Hnn by (by destruct message).
  subst r. rewrite !handleMessage_run by done.
  unfold result, state_after, trace; simpl.
  unfold dispatch_trace, handler_for, recipients. rewrite Hc. simpl.
  fold members. split; [done|]. split; [done|]. split; [|split].
  - by intros h ->.
  - intros ->. split_and!.
    + apply broadcast_handler_calls.
    + apply broadcast_sendToUser_calls.
    + subst members. rewrite Hreach. apply ChannelManager_after_NoDup.
    + apply broadcast_sent_texts.
  - rewrite map_get_delete_eq. split_and!; [done| |].
    + apply (broadcast_handler_calls
               (state_after (MessageSubscriberService.removeChannelMessageHandler c s))).
    + apply (broadcast_sendToUser_calls
               (state_after (MessageSubscriberService.removeChannelMessageHandler c s))).
Qed.

Lemma dispatch_policy_witness :
  let r := MessageSubscriberService.handleMessage message_hi (service_general true) in
  result r = Normal tt
  ∧ sendToUser_calls (trace r) = [("u1", message_hi); ("u2", message_hi)].
Proof.
  intros r.
  destruct (dispatch_policy (service_general true)
              [ChannelManager.AddUserToChannel "general" "u1";
               ChannelManager.AddUserToChannel "general" "u2"]
              message_hi "general") as (Hres & _ & _ & Hnone & _).
  - reflexivity.
  - reflexivity.
  - split; [exact Hres|]. destruct Hnone as (_ & Hcalls & _); [reflexivity|].
    exact Hcalls.
Defined.

(** C10: a payload is routed by the [channelId] it carries: the handler
    looked up and the members broadcast to are those of that channel,
    whatever the topic the payload came on. *)
Theorem routing_by_payload_channel (s : MessageSubscriberService.t)
    (message : JValue) (c topic : string) :
  prop_of message "channelId" = Some (JStr c) →
  MessageSubscriberService.onRedisMessage (JSONText message) topic s
  = (Normal tt, s,
     match map_get (KStr c) (MessageSubscriberService.messageHandlers s) with
     | Some handler => [EvHandler (handlerName handler) message]
     | None =>
         concat (List.map (λ u, delivery s u message)
                   (ChannelManager.getUsersInChannel c
                      (MessageSubscriberService.channelManager s)))
     end).
Proof.
  intros Hc. rewrite onRedisMessage_run.
  assert (payload_trace s (JSONText message) = dispatch_trace s message) as ->
    by (by destruct message).
  unfold dispatch_trace, handler_for, recipients. by rewrite Hc.
Qed.

Lemma routing_by_payload_channel_witness :
  sendToUser_calls
    (trace (MessageSubscriberService.onRedisMessage (JSONText message_hi) "random"
              (service_general true)))
  = [("u1", message_hi); ("u2", message_hi)].
Proof.
  rewrite (routing_by_payload_channel (service_general true) message_hi
             "general" "random"); reflexivity.
Defined.




(** A channel id that is no string is a key like any other: with "u1"
    in the channel whose id is the number 5, a payload whose [channelId]
    is 5 is sent to "u1", and one whose [channelId] is the string "5" is
    not. *)
Example numeric_channel_routed :
  let s := ChimeServer.set_channelManager
             (ChannelManager.after [ChannelManager.AddUserToChannel (KNum 5) "u1"])
             (service_general true) in
  sendToUser_calls
    (trace (MessageSubscriberService.onRedisMessage
              (JSONText (JObj [("channelId", JNum 5)])) "general" s))
  = [("u1", JObj [("channelId", JNum 5)])]
  ∧ sendToUser_calls
      (trace (MessageSubscriberService.onRedisMessage
                (JSONText (JObj [("channelId", JStr "5")])) "general" s))
    = [].
Proof. intros s. rewrite !onRedisMessage_run. split; reflexivity. Qed.

(** C4, as the code has it: while the service is not connected,
    [subscribeTo] and [unsubscribeFrom] throw the "not connected" error
    and change and call nothing; [sendToUser] does not look at the
    connection: connected or not, it hands the envelope to the connection
    registry and returns what the registry returns. *)
Theorem not_connected_operations (s : MessageSubscriberService.t)
    (channelId userId : string) (message : JValue) :
  (MessageSubscriberService.isConnected s = false →
   fails_not_connected (MessageSubscriberService.subscribeTo channelId) s
   ∧ fails_not_connected (MessageSubscriberService.unsubscribeFrom channelId) s)
  ∧ (message ≠ JNull →
     MessageSubscriberService.sendToUser userId message s
     = (result (UserConnectionManager.sendToUser userId (envelope message)
                  (MessageSubscriberService.userConnectionManager s)),
        s, delivery s userId message)).
Proof.
  unfold fails_not_connected. split.
  - intros Hdis. split.
    + unfold MessageSubscriberService.subscribeTo. run_M. by rewrite Hdis.
    + unfold MessageSubscriberService.unsubscribeFrom. run_M. by rewrite Hdis.
  - intros Hnn. by apply service_sendToUser_run.
Qed.

Lemma not_connected_operations_witness :
  fails_not_connected (MessageSubscriberService.unsubscribeFrom "c1")
    (service_general false)
  ∧ result (MessageSubscriberService.sendToUser "u1" message_hi (service_general false))
    = Normal true
  ∧ result (MessageSubscriberService.sendToUser "u1" message_hi (service_general true))
    = Normal true.
Proof.
  destruct (not_connected_operations (service_general false) "c1" "u1" message_hi)
    as [Hsubs Hsend].
  destruct (not_connected_operations (service_general true) "c1" "u1" message_hi)
    as [_ Hsend'].
  split; [by apply Hsubs|].
  rewrite Hsend by discriminate. rewrite Hsend' by discriminate.
  split; reflexivity.
Defined.

(** C4 as stated fails for [sendToUser]: the service is not connected,
    and "u1" gets the message on socket 1. *)
Lemma sendToUser_while_disconnected :
  MessageSubscriberService.isConnected (service_general false) = false
  ∧ ¬ fails_not_connected (MessageSubscriberService.sendToUser "u1" message_hi)
        (service_general false)
  ∧ trace (MessageSubscriberService.sendToUser "u1" message_hi (service_general false))
    = [EvSendToUser "u1" message_hi; EvWsSend 1%nat (envelope message_hi)].
Proof.
  split; [reflexivity|]. split; [|reflexivity].
  unfold fails_not_connected. intros Heq.
  apply (f_equal result) in Heq. vm_compute in Heq. discriminate.
Qed.

(** A first subscription goes to the bus and is recorded; a second one
    in a row does nothing more. *)
Lemma subscribeTo_run (s : MessageSubscriberService.t) (channelId : string) :
  MessageSubscriberService.isConnected s = true →
  channelId ∉ MessageSubscriberService.subscribedChannels s →
  MessageSubscriberService.redis s (RSubscribe channelId) = Normal tt →
  MessageSubscriberService.subscribeTo channelId s
  = (Normal tt,
     MessageSubscriberService.set_subscribedChannels
       (MessageSubscriberService.subscribedChannels s ++ [channelId]) s,
     [EvRedisSubscribe channelId]).
Proof.
  intros Hcon Hnew Hbus.
  unfold MessageSubscriberService.subscribeTo, MessageSubscriberService.redis_call,
    MessageSubscriberService.eval, set_has, set_add.
  run_M. rewrite Hcon. simpl. rewrite bool_decide_eq_false_2 by done.
  rewrite Hbus. simpl. by rewrite decide_False.
Qed.

Lemma subscribeTo_twice (s : MessageSubscriberService.t) (channelId : string) :
  MessageSubscriberService.isConnected s = true →
  channelId ∉ MessageSubscriberService.subscribedChannels s →
  MessageSubscriberService.redis s (RSubscribe channelId) = Normal tt →
  (MessageSubscriberService.subscribeTo channelId;;
   MessageSubscriberService.subscribeTo channelId) s
  = MessageSubscriberService.subscribeTo channelId s.
Proof.
  intros Hcon Hnew Hbus. unfold mbind, M_bind, bind.
  rewrite subscribeTo_run by done.
  unfold MessageSubscriberService.subscribeTo, set_has. run_M. rewrite Hcon. simpl.
  rewrite bool_decide_eq_true_2; [done|].
  apply elem_of_app. right. apply list_elem_of_here.
Qed.

(** [disconnect] forgets every subscription, and what is asked of the
    bus afterwards is refused. *)
Lemma disconnect_run (s : MessageSubscriberService.t) :
  MessageSubscriberService.isConnected s = true →
  MessageSubscriberService.redis s RDisconnect = Normal tt →
  MessageSubscriberService.disconnect s
  = (Normal tt,
     MessageSubscriberService.set_subscribedChannels []
       (MessageSubscriberService.set_isConnected false s),
     []).
Proof.
  intros Hcon Hbus.
  unfold MessageSubscriberService.disconnect, MessageSubscriberService.redis_call,
    MessageSubscriberService.eval.
  run_M. rewrite Hcon. simpl. by rewrite Hbus.
Qed.

Lemma unsubscribeFrom_after_disconnect (s : MessageSubscriberService.t)
    (channelId : string) :
  MessageSubscriberService.isConnected s = true →
  MessageSubscriberService.redis s RDisconnect = Normal tt →
  result ((MessageSubscriberService.disconnect;;
           MessageSubscriberService.unsubscribeFrom channelId) s)
  = Thrown MessageSubscriberService.not_connected.
Proof.
  intros Hcon Hbus. unfold mbind, M_bind, bind.
  by rewrite disconnect_run by done.
Qed.

(** C7: while connected, [subscribeTo] of a channel already subscribed
    and [unsubscribeFrom] of a channel not subscribed return with the
    service unchanged and no call on the bus. *)
Theorem subscription_noop (s : MessageSubscriberService.t) (channelId : string) :
  MessageSubscriberService.isConnected s = true →
  (channelId ∈ MessageSubscriberService.subscribedChannels s →
   MessageSubscriberService.subscribeTo channelId s = (Normal tt, s, []))
  ∧ (channelId ∉ MessageSubscriberService.subscribedChannels s →
     MessageSubscriberService.unsubscribeFrom channelId s = (Normal tt, s, [])).
Proof.
  intros Hcon. split; intros Hsub.
  - unfold MessageSubscriberService.subscribeTo, set_has. run_M.
    rewrite Hcon. simpl. by rewrite bool_decide_eq_true_2.
  - unfold MessageSubscriberService.unsubscribeFrom, set_has. run_M.
    rewrite Hcon. simpl. by rewrite bool_decide_eq_false_2.
Qed.

Lemma subscription_noop_witness :
  MessageSubscriberService.subscribeTo "general" (service_general true)
  = (Normal tt, service_general true, [])
  ∧ MessageSubscriberService.unsubscribeFrom "c1" (service_general true)
    = (Normal tt, service_general true, []).
Proof.
  split.
  - apply (subscription_noop (service_general true) "general"); [reflexivity|].
    apply list_elem_of_here.
  - apply (subscription_noop (service_general true) "c1"); [reflexivity|].
    simpl. intros Hin. apply elem_of_cons in Hin as [Heq|Hin]; [discriminate|].
    by apply not_elem_of_nil in Hin.
Defined.

(** ** The write path *)

Lemma saveMessage_unfold (c u ct : string) :
  MessageService.saveMessage c u ct
  = Incr (MessageIDService.counter_key c) (after_incr c u ct).
Proof. reflexivity. Qed.

Lemma after_incr_thrown (c u ct : string) (e : Err) :
  after_incr c u ct (Thrown e) = Throw e.
Proof. reflexivity. Qed.

Lemma after_incr_normal (c u ct : string) (id : Z) :
  after_incr c u ct (Normal id) = Now (after_now c u ct id).
Proof. reflexivity. Qed.

Lemma after_now_unfold (c u ct : string) (id t : Z) :
  after_now c u ct id t = Execute (row_of c u ct id t) (after_execute c u ct id t).
Proof. reflexivity. Qed.

Lemma after_execute_thrown (c u ct : string) (id t : Z) (e : Err) :
  after_execute c u ct id t (Thrown e) = Throw e.
Proof. reflexivity. Qed.

Lemma after_execute_normal (c u ct : string) (id t : Z) (x : unit) :
  after_execute c u ct id t (Normal x) = Ret (message_of c u ct id t).
Proof. reflexivity. Qed.

(** A call in which both INCR and INSERT succeed: the id is the counter
    plus one, the row is written under it, the message is returned. *)
Lemma saveMessage_success (env : Faults) (b : Backend) (c u ct : string) :
  let key := MessageIDService.counter_key c in
  let id := counter b key + 1 in
  incr_fault env key = None →
  execute_fault env (row_of c u ct id (clock b)) = None →
  run env (MessageService.saveMessage c u ct) b
  = (Normal (message_of c u ct id (clock b)),
     {| counters := <[key := id]> (counters b);
        messages := <[(c, toString (to_Number id)) := row_of c u ct id (clock b)]>
                     (messages b);
        clock := clock b |},
     [CallIncr key; CallNow; CallExecute (row_of c u ct id (clock b))]).
Proof.
  intros key id Hincr Hexec. rewrite saveMessage_unfold. fold key.
  cbn [run]. rewrite Hincr. cbn [redis_incr]. fold id.
  rewrite after_incr_normal. cbn [run clock].
  rewrite after_now_unfold. cbn [run]. rewrite Hexec. cbn [cassandra_execute].
  by rewrite after_execute_normal.
Qed.

(** C1: when the allocation fails, [saveMessage] fails with that error
    after the one call of INCR, with the backend as it was; when the
    allocation succeeds and the INSERT fails, [saveMessage] fails with the
    error of the INSERT after one call of each, no row is written, and the
    id is spent: the next call that succeeds on the channel gets the id
    after it.  Neither call is made a second time. *)
Theorem saveMessage_failure (env : Faults) (b : Backend)
    (channelId userId content : string) (e : Err) :
  let key := MessageIDService.counter_key channelId in
  let id := counter b key + 1 in
  let r := run env (MessageService.saveMessage channelId userId content) b in
  (incr_fault env key = Some e →
   r = (Thrown e, b, [CallIncr key]))
  ∧ (incr_fault env key = None →
     execute_fault env (row_of channelId userId content id (clock b)) = Some e →
     result r = Thrown e
     ∧ trace r = [CallIncr key; CallNow;
                  CallExecute (row_of channelId userId content id (clock b))]
     ∧ messages (state_after r) = messages b
     ∧ counter (state_after r) key = id
     ∧ ∀ u' ct',
         result (run no_faults (MessageService.saveMessage channelId u' ct')
                   (state_after r))
         = Normal (message_of channelId u' ct' (id + 1) (clock b))).
Proof.
  intros key id r. subst r. rewrite saveMessage_unfold. fold key. split.
  - intros Hfault. cbn [run]. rewrite Hfault. cbn [redis_incr].
    by rewrite after_incr_thrown.
  - intros Hincr Hexec. cbn [run]. rewrite Hincr. cbn [redis_incr]. fold id.
    rewrite after_incr_normal. cbn [run clock].
    rewrite after_now_unfold. cbn [run]. rewrite Hexec. cbn [cassandra_execute].
    rewrite after_execute_thrown. cbn [run].
    unfold result, state_after, trace; cbn [fst snd messages].
    assert (counter {| counters := <[key := id]> (counters b);
                       messages := messages b; clock := clock b |} key = id)
      as Hcounter by (unfold counter; simpl; by rewrite lookup_insert_eq).
    split_and!; try done.
    intros u' ct'. rewrite saveMessage_success by done.
    fold key. by rewrite Hcounter.
Qed.

Lemma saveMessage_failure_witness :
  run redis_down (MessageService.saveMessage "general" "u1" "hi") fresh_backend
  = (Thrown (Error "Redis connection failed"), fresh_backend,
     [CallIncr "channel:general:message_counter"])
  ∧ result (run cassandra_down (MessageService.saveMessage "general" "u1" "hi")
              fresh_backend)
    = Thrown (Error "Database connection failed").
Proof.
  split.
  - apply (saveMessage_failure redis_down fresh_backend "general" "u1" "hi"
             (Error "Redis connection failed")).
    reflexivity.
  - apply (saveMessage_failure cassandra_down fresh_backend "general" "u1" "hi"
             (Error "Database connection failed")); reflexivity.
Defined.

Lemma parseInt_decimal (n : Z) : parseInt (decimal n) = Some n.
Proof.
  unfold parseInt, decimal. rewrite NilZero.isi.
  - simpl. by rewrite DecimalZ.of_to.
  - destruct n; simpl; try discriminate.
    intros [= Hnil]. by apply DecimalPos.Unsigned.to_uint_nonnil in Hnil.
  - destruct n; simpl; try discriminate.
    intros [= Hnil]. by apply DecimalPos.Unsigned.to_uint_nonnil in Hnil.
Qed.

Lemma decimal_nonempty (n : Z) : decimal n ≠ "".
Proof.
  intros Heq. pose proof (parseInt_decimal n) as Hparse.
  rewrite Heq in Hparse. discriminate.
Qed.

(** Up to 2^53 an integer is the Number the client makes of it. *)
Lemma to_Number_exact (n : Z) : Z.abs n ≤ 2 ^ 53 → to_Number n = n.
Proof.
  intros Hn. unfold to_Number.
  destruct (Z.eq_dec (Z.abs n) (2 ^ 53)) as [Heq|Hne].
  - rewrite Heq. destruct n as [|n|n]; [done| |]; simpl in Heq.
    + injection Heq as ->. reflexivity.
    + injection Heq as ->. reflexivity.
  - destruct (Z.eq_dec (Z.abs n) 0) as [Hz|Hnz].
    + by rewrite Hz.
    + assert (Z.log2 (Z.abs n) < 53) as Hlog
        by (apply Z.log2_lt_pow2; lia).
      destruct (Z.log2 (Z.abs n) - 52 <=? 0) eqn:Hdrop; [done|].
      apply Z.leb_gt in Hdrop. lia.
Qed.

Lemma toString_exact (n : Z) : Z.abs n ≤ 2 ^ 53 → toString n = decimal n.
Proof.
  intros Hn. unfold toString.
  destruct (Z.abs n <=? 2 ^ 53) eqn:Hle; [done|]. apply Z.leb_gt in Hle. lia.
Qed.

(** The text of an id up to 2^53 reads back as the id. *)
Lemma parseInt_toString (n : Z) :
  Z.abs n ≤ 2 ^ 53 → parseInt (toString (to_Number n)) = Some n.
Proof.
  intros Hn. rewrite to_Number_exact by done.
  rewrite toString_exact by done. apply parseInt_decimal.
Qed.

(** What the client and [toString] make of replies of INCR: the exact
    numeral up to 2^53, the nearest Number and its shortest decimal
    beyond; and on integers up to 2^53 the shortest decimal is the
    numeral. *)
Example Number_samples :
  toString (to_Number 0) = "0"
  ∧ toString (to_Number 1000) = "1000"
  ∧ toString (to_Number (2 ^ 53 - 1)) = "9007199254740991"
  ∧ toString (to_Number (2 ^ 53)) = "9007199254740992"
  ∧ to_Number (2 ^ 53 + 1) = 2 ^ 53
  ∧ to_Number (2 ^ 53 + 3) = 2 ^ 53 + 4
  ∧ toString (to_Number (2 ^ 53 + 1)) = "9007199254740992"
  ∧ toString (to_Number (2 ^ 53 + 2)) = "9007199254740994"
  ∧ toString (to_Number (2 ^ 62)) = "4611686018427388000"
  ∧ toString (to_Number (2 ^ 63 - 1)) = "9223372036854776000"
  ∧ toString (to_Number (2 ^ 64)) = "18446744073709552000"
  ∧ toString (to_Number (10 ^ 21)) = "1e+21"
  ∧ toString (to_Number (2 ^ 70)) = "1.1805916207174113e+21"
  ∧ toString (to_Number (10 ^ 23)) = "1e+23"
  ∧ Number_digits 1 = decimal 1
  ∧ Number_digits 1000 = decimal 1000
  ∧ Number_digits 123456789 = decimal 123456789
  ∧ Number_digits (2 ^ 53 - 1) = decimal (2 ^ 53 - 1)
  ∧ Number_digits (2 ^ 53) = decimal (2 ^ 53).
Proof. vm_compute. repeat split. Qed.

Lemma append_nonempty (s t : string) : t ≠ "" → s +:+ t ≠ "".
Proof. intros Ht. destruct s; [done|discriminate]. Qed.

Lemma toString_nonempty (x : Z) : toString x ≠ "".
Proof.
  unfold toString. destruct (Z.abs x <=? 2 ^ 53); [apply decimal_nonempty|].
  apply append_nonempty. unfold Number_digits.
  destruct (shortest _ _) as [s p]. destruct (strip_zeros _ s p) as [s' p'].
  destruct (_ <=? 21).
  - intros Heq. destruct (decimal s') eqn:Hd; [by apply decimal_nonempty in Hd|].
    discriminate.
  - destruct (decimal s') as [|d [|d' rest]]; [|discriminate..].
    apply append_nonempty, decimal_nonempty.
Qed.

Lemma allocs_of_app (i : nat) (labels labels' : list Label) :
  allocs_of i (labels ++ labels') = allocs_of i labels ++ allocs_of i labels'.
Proof. apply omap_app. Qed.

Lemma ids_for_app (key : string) (labels labels' : list Label) :
  ids_for key (labels ++ labels') = ids_for key labels ++ ids_for key labels'.
Proof. apply omap_app. Qed.

Lemma allocs_of_none (i : nat) (labels : list Label) :
  (∀ l, l ∈ labels → alloc_caller l ≠ Some i) → allocs_of i labels = [].
Proof.
  induction labels as [|l labels IH]; intros Hnone; [done|].
  change (l :: labels) with ([l] ++ labels). rewrite allocs_of_app.
  rewrite IH by (intros l' Hl'; apply Hnone; by apply list_elem_of_further).
  specialize (Hnone l (list_elem_of_here _ _)).
  destruct l as [| j key [id|e] | | |]; try done.
  simpl in Hnone. unfold allocs_of. simpl.
  destruct (decide (j = i)) as [->|]; [done|done].
Qed.

Lemma allocs_of_elem (i : nat) (labels : list Label) (l : Label) :
  l ∈ labels → alloc_caller l = Some i →
  ∃ key id, l = LIncr i key (Normal id) ∧ (key, id) ∈ allocs_of i labels.
Proof.
  intros Hin Hcaller. destruct l as [| j key [id|e] | | |]; try done.
  injection Hcaller as ->. exists key, id. split; [done|].
  unfold allocs_of. apply list_elem_of_omap. eexists. split; [done|].
  simpl. by rewrite decide_True.
Qed.

(** What [thread_ok] says of a caller, by the form of its program. *)
Lemma thread_ok_Incr (labels : list Label) (i : nat) (key : string)
    (k : Completion Z → Prog ChimeMessage) :
  thread_ok labels i (Incr key k) →
  ∃ c u ct, key = MessageIDService.counter_key c ∧ k = after_incr c u ct
            ∧ allocs_of i labels = [].
Proof.
  intros [(c & u & ct & Hp & Hnone)|[(e & Hp)|(c & u & ct & id & _ & Hp)]].
  - rewrite saveMessage_unfold in Hp. injection Hp as -> ->. by exists c, u, ct.
  - discriminate.
  - destruct Hp as [Hp|[[t Hp]|[t Hp]]]; discriminate.
Qed.

Lemma thread_ok_Now (labels : list Label) (i : nat) (k : Z → Prog ChimeMessage) :
  thread_ok labels i (Now k) →
  ∃ c u ct id, k = after_now c u ct id
               ∧ allocs_of i labels = [(MessageIDService.counter_key c, id)].
Proof.
  intros [(c & u & ct & Hp & Hnone)|[(e & Hp)|(c & u & ct & id & Hone & Hp)]].
  - discriminate.
  - discriminate.
  - destruct Hp as [Hp|[[t Hp]|[t Hp]]]; try discriminate.
    rewrite after_incr_normal in Hp. injection Hp as ->. by exists c, u, ct, id.
Qed.

Lemma thread_ok_Execute (labels : list Label) (i : nat) (params : Row)
    (k : Completion unit → Prog ChimeMessage) :
  thread_ok labels i (Execute params k) →
  ∃ c u ct id t, k = after_execute c u ct id t
                 ∧ allocs_of i labels = [(MessageIDService.counter_key c, id)].
Proof.
  intros [(c & u & ct & Hp & Hnone)|[(e & Hp)|(c & u & ct & id & Hone & Hp)]].
  - discriminate.
  - discriminate.
  - destruct Hp as [Hp|[[t Hp]|[t Hp]]]; try discriminate.
    rewrite after_now_unfold in Hp. injection Hp as -> ->. by exists c, u, ct, id, t.
Qed.

Lemma thread_ok_Ret (labels : list Label) (i : nat) (m : ChimeMessage) :
  thread_ok labels i (Ret m) →
  ∃ id, messageId m = toString (to_Number id)
        ∧ allocs_of i labels = [(MessageIDService.counter_key (channelId m), id)].
Proof.
  intros [(c & u & ct & Hp & Hnone)|[(e & Hp)|(c & u & ct & id & Hone & Hp)]].
  - discriminate.
  - discriminate.
  - destruct Hp as [Hp|[[t Hp]|[t Hp]]]; try discriminate.
    injection Hp as ->. by exists id.
Qed.

(** A step that completes no allocation leaves every caller's record as
    it was. *)
Lemma thread_ok_quiet (labels : list Label) (l : Label) (i : nat)
    (p : Prog ChimeMessage) :
  alloc_caller l = None → thread_ok labels i p → thread_ok (labels ++ [l]) i p.
Proof.
  intros Hquiet Hok. unfold thread_ok in *. rewrite allocs_of_app.
  assert (allocs_of i [l] = []) as ->.
  { apply allocs_of_none. intros l' Hl'. apply list_elem_of_singleton in Hl' as ->.
    by rewrite Hquiet. }
  by rewrite app_nil_r.
Qed.

Lemma ids_for_quiet (key : string) (labels : list Label) (l : Label) :
  alloc_caller l = None → ids_for key (labels ++ [l]) = ids_for key labels.
Proof.
  intros Hquiet. rewrite ids_for_app.
  assert (ids_for key [l] = []) as ->; [|by rewrite app_nil_r].
  destruct l as [| j key' [id|e] | | |]; done.
Qed.

Lemma callers_quiet (pool pool' : list (Prog ChimeMessage)) (labels : list Label)
    (l : Label) :
  (length pool ≤ length pool')%nat →
  alloc_caller l = None →
  (∀ l' i, l' ∈ labels → alloc_caller l' = Some i → (i < length pool)%nat) →
  ∀ l' i, l' ∈ labels ++ [l] → alloc_caller l' = Some i → (i < length pool')%nat.
Proof.
  intros Hlen Hquiet Hcallers l' i Hin Hcaller.
  apply elem_of_app in Hin as [Hin|Hin].
  - specialize (Hcallers l' i Hin Hcaller). lia.
  - apply list_elem_of_singleton in Hin as ->. congruence.
Qed.

Lemma ids_quiet (b b' : Backend) (labels : list Label) (l : Label) :
  counters b' = counters b →
  alloc_caller l = None →
  (∀ key, StronglySorted Z.lt (ids_for key labels)
          ∧ Forall (λ id, id ≤ counter b key) (ids_for key labels)) →
  ∀ key, StronglySorted Z.lt (ids_for key (labels ++ [l]))
         ∧ Forall (λ id, id ≤ counter b' key) (ids_for key (labels ++ [l])).
Proof.
  intros Hcounters Hquiet Hids key. rewrite ids_for_quiet by done.
  unfold counter. rewrite Hcounters. apply Hids.
Qed.

(** A caller moves on without a new allocation. *)
Lemma system_ok_quiet (b b' : Backend) (pool : list (Prog ChimeMessage))
    (labels : list Label) (l : Label) (i : nat) (p p' : Prog ChimeMessage) :
  system_ok b pool labels →
  counters b' = counters b →
  alloc_caller l = None →
  pool !! i = Some p →
  thread_ok labels i p' →
  system_ok b' (<[i := p']> pool) (labels ++ [l]).
Proof.
  intros (Hthreads & Hcallers & Hids) Hcounters Hquiet Hi Hp'. split_and!.
  - intros j q Hj. apply thread_ok_quiet; [done|].
    destruct (decide (i = j)) as [->|Hne].
    + rewrite list_lookup_insert_eq in Hj by (by eapply lookup_lt_Some).
      by injection Hj as <-.
    + rewrite list_lookup_insert_ne in Hj by done. by apply Hthreads.
  - apply (callers_quiet pool); [by rewrite length_insert|done|done].
  - by eapply ids_quiet.
Qed.

Lemma step_preserves (b b' : Backend) (pool pool' : list (Prog ChimeMessage))
    (labels : list Label) (l : Label) :
  system_ok b pool labels →
  step (b, pool) l (b', pool') →
  system_ok b' pool' (labels ++ [l]).
Proof.
  intros Hok Hstep. inversion Hstep as
    [b0 pool0 c u ct
    |b0 pool0 i key k fault Hi
    |b0 pool0 i k Hi
    |b0 pool0 i params k fault Hi
    |b0 pool0 t Ht]; subst.
  - (* a new caller *)
    destruct Hok as (Hthreads & Hcallers & Hids). split_and!.
    + intros j q Hj. apply thread_ok_quiet; [done|].
      apply lookup_app_Some in Hj as [Hj|[Hlen Hj]]; [by apply Hthreads|].
      apply list_lookup_singleton_Some in Hj as [Hz <-].
      left. exists c, u, ct. split; [done|].
      apply allocs_of_none. intros l' Hl' Hcaller.
      specialize (Hcallers l' j Hl' Hcaller). lia.
    + eapply callers_quiet; [|done|exact Hcallers]. rewrite length_app; lia.
    + eapply ids_quiet; [|done|exact Hids]. done.
  - (* INCR completes *)
    pose proof Hok as (Hthreads & Hcallers & Hids).
    destruct (thread_ok_Incr _ _ _ _ (Hthreads _ _ Hi)) as (c & u & ct & -> & -> & Hnone).
    destruct fault as [e|]; simpl.
    + eapply system_ok_quiet; [done|done|done|done|]. right. left. by exists e.
    + set (key := MessageIDService.counter_key c) in *.
      set (id := counter b key + 1).
      split_and!.
      * intros j q Hj. destruct (decide (i = j)) as [<-|Hne].
        -- rewrite list_lookup_insert_eq in Hj by (by eapply lookup_lt_Some).
           injection Hj as <-. right. right. exists c, u, ct, id. split; [|by left].
           rewrite allocs_of_app, Hnone. unfold allocs_of. simpl.
           by rewrite decide_True.
        -- rewrite list_lookup_insert_ne in Hj by done.
           specialize (Hthreads j q Hj). unfold thread_ok in *.
           rewrite allocs_of_app.
           assert (allocs_of j [LIncr i key (Normal id)] = []) as ->.
           { unfold allocs_of. simpl. by rewrite decide_False. }
           by rewrite app_nil_r.
      * intros l' j Hin Hcaller. rewrite length_insert.
        apply elem_of_app in Hin as [Hin|Hin]; [by eapply Hcallers|].
        apply list_elem_of_singleton in Hin as ->. injection Hcaller as <-.
        by eapply lookup_lt_Some.
      * intros key'. rewrite ids_for_app. destruct (Hids key') as [Hsorted Hbound].
        unfold ids_for at 2 4. simpl. unfold counter at 1. simpl.
        destruct (decide (key = key')) as [<-|Hne]; simpl.
        -- rewrite lookup_insert_eq. simpl. split.
           ++ apply StronglySorted_app. split_and!; [|done|repeat constructor].
              intros x1 x2 Hx1 Hx2. apply list_elem_of_singleton in Hx2 as ->.
              rewrite Forall_forall in Hbound. specialize (Hbound x1 Hx1).
              subst id. lia.
           ++ apply Forall_app. split; [|repeat constructor; lia].
              eapply Forall_impl; [exact Hbound|]. intros x Hx. simpl in Hx.
              subst id. lia.
        -- rewrite lookup_insert_ne by done. rewrite !app_nil_r. done.
  - (* the date is read *)
    pose proof Hok as (Hthreads & _ & _).
    destruct (thread_ok_Now _ _ _ (Hthreads _ _ Hi)) as (c & u & ct & id & -> & Hone).
    eapply system_ok_quiet; [done|done|done|done|].
    right. right. exists c, u, ct, id. split; [done|]. right. left. by eexists.
  - (* INSERT completes *)
    pose proof Hok as (Hthreads & _ & _).
    destruct (thread_ok_Execute _ _ _ _ (Hthreads _ _ Hi))
      as (c & u & ct & id & t & -> & Hone).
    eapply system_ok_quiet; [done|by destruct fault|done|done|].
    destruct fault as [e|]; simpl.
    + right. left. by exists e.
    + right. right. exists c, u, ct, id. split; [done|]. right. right. by exists t.
  - (* time passes *)
    destruct Hok as (Hthreads & Hcallers & Hids). split_and!.
    + intros j q Hj. apply thread_ok_quiet; [done|]. by apply Hthreads.
    + eapply callers_quiet; [|done|exact Hcallers]. lia.
    + eapply ids_quiet; [|done|exact Hids]. done.
Qed.

Lemma reachable_ok (b0 b : Backend) (pool : list (Prog ChimeMessage))
    (labels : list Label) :
  reachable b0 b pool labels → system_ok b pool labels.
Proof.
  induction 1 as [|b pool labels l b' pool' Hreach IH Hstep].
  - split_and!.
    + intros i p Hi. by rewrite lookup_nil in Hi.
    + intros l i Hin. by apply not_elem_of_nil in Hin.
    + intros key. split; constructor.
  - by eapply step_preserves.
Qed.

Lemma sublist_Forall_keep {A : Type} (P : A → Prop) (k l : list A) :
  k `sublist_of` l → Forall P l → Forall P k.
Proof.
  induction 1 as [|x k l Hsub IH|x k l Hsub IH]; intros Hall.
  - constructor.
  - apply Forall_cons in Hall as [Hx Hall]. constructor; auto.
  - apply Forall_cons in Hall as [Hx Hall]. auto.
Qed.

Lemma StronglySorted_sublist {A : Type} (R : relation A) (k l : list A) :
  k `sublist_of` l → StronglySorted R l → StronglySorted R k.
Proof.
  induction 1 as [|x k l Hsub IH|x k l Hsub IH]; intros Hsorted.
  - constructor.
  - apply StronglySorted_cons in Hsorted as [Hx Hsorted].
    apply StronglySorted_cons. split; [|by apply IH].
    by eapply sublist_Forall_keep.
  - apply StronglySorted_cons in Hsorted as [Hx Hsorted]. by apply IH.
Qed.

Lemma returned_ids_app (channel : string) (labels labels' : list Label)
    (pool : list (Prog ChimeMessage)) :
  returned_ids channel (labels ++ labels') pool
  = returned_ids channel labels pool ++ returned_ids channel labels' pool.
Proof. unfold returned_ids. by rewrite !omap_app, filter_app, fmap_app. Qed.

(** The ids returned on a channel are among the ids given out under the
    key of the channel, in the same order. *)
Lemma returned_ids_sublist (channel : string) (pool : list (Prog ChimeMessage))
    (labels : list Label) :
  (∀ l i m, l ∈ labels → alloc_caller l = Some i →
            returned_message pool i = Some m → channelId m = channel →
            ∃ id, l = LIncr i (MessageIDService.counter_key (channelId m)) (Normal id)
                  ∧ parseInt (messageId m) = Some id) →
  ∃ ids, returned_ids channel labels pool = Some <$> ids
         ∧ ids `sublist_of` ids_for (MessageIDService.counter_key channel) labels.
Proof.
  induction labels as [|l labels IH]; intros Hlabels.
  - exists []. split; [done|constructor].
  - destruct IH as (ids & Hids & Hsub).
    { intros l' i m Hin. apply Hlabels. by apply list_elem_of_further. }
    change (l :: labels) with ([l] ++ labels).
    rewrite returned_ids_app, ids_for_app, Hids.
    assert (∃ ids1, returned_ids channel [l] pool = Some <$> ids1
                    ∧ ids1 `sublist_of`
                        ids_for (MessageIDService.counter_key channel) [l])
      as (ids1 & -> & Hsub1).
    { destruct (alloc_caller l) as [i|] eqn:Hcaller.
      - destruct (returned_message pool i) as [m|] eqn:Hret.
        + destruct (decide (channelId m = channel)) as [Hch|Hch].
          * destruct (Hlabels l i m (list_elem_of_here _ _) Hcaller Hret Hch)
              as (id & -> & Hid).
            unfold returned_ids. simpl. rewrite Hret. simpl.
            rewrite filter_cons_True by done. simpl.
            exists [id]. rewrite Hid. split; [done|].
            unfold ids_for. simpl. rewrite Hch. by rewrite decide_True.
          * exists []. split; [|apply sublist_nil_l].
            unfold returned_ids. simpl. rewrite Hcaller. simpl. rewrite Hret.
            simpl. by rewrite filter_cons_False by done.
        + exists []. split; [|apply sublist_nil_l].
          unfold returned_ids. simpl. rewrite Hcaller. simpl. by rewrite Hret.
      - exists []. split; [|apply sublist_nil_l].
        unfold returned_ids. simpl. by rewrite Hcaller. }
    exists (ids1 ++ ids). split; [by rewrite fmap_app|by apply sublist_app].
Qed.

Lemma allocs_of_label (i : nat) (key : string) (id : Z) (labels : list Label) :
  (key, id) ∈ allocs_of i labels ↔ LIncr i key (Normal id) ∈ labels.
Proof.
  unfold allocs_of. rewrite list_elem_of_omap. split.
  - intros (l & Hl & Hmatch). destruct l as [| j key' [id'|e] | | |]; try done.
    destruct (decide (j = i)) as [->|]; [|done]. by injection Hmatch as -> ->.
  - intros Hl. eexists. split; [exact Hl|]. simpl. by rewrite decide_True.
Qed.

Lemma ids_for_label (i : nat) (key : string) (id : Z) (labels : list Label) :
  LIncr i key (Normal id) ∈ labels → id ∈ ids_for key labels.
Proof.
  intros Hl. unfold ids_for. apply list_elem_of_omap.
  eexists. split; [exact Hl|]. simpl. by rewrite decide_True.
Qed.

(** Only INCR moves a counter, and it moves it up. *)
Lemma step_counter_mono (b b' : Backend) (pool pool' : list (Prog ChimeMessage))
    (l : Label) (key : string) :
  step (b, pool) l (b', pool') → counter b key ≤ counter b' key.
Proof.
  intros Hstep. inversion Hstep as
    [b1 pool0 c u ct
    |b1 pool0 i key' k fault Hi
    |b1 pool0 i k Hi
    |b1 pool0 i params k fault Hi
    |b1 pool0 t Ht]; subst; try done.
  - destruct fault as [e|]; [done|]. unfold counter at 2. cbn [redis_incr snd counters].
    destruct (decide (key' = key)) as [->|Hne].
    + rewrite lookup_insert_eq. simpl. lia.
    + by rewrite lookup_insert_ne.
  - by destruct fault.
Qed.

Lemma step_in_range (b0 b b' : Backend) (pool pool' : list (Prog ChimeMessage))
    (labels : list Label) (l : Label) :
  ids_in_range b0 b labels →
  step (b, pool) l (b', pool') → ids_in_range b0 b' (labels ++ [l]).
Proof.
  intros Hrange Hstep key. destruct (Hrange key) as [Hle Hids].
  pose proof (step_counter_mono _ _ _ _ _ key Hstep) as Hmono.
  split; [lia|]. rewrite ids_for_app. apply Forall_app. split.
  - eapply Forall_impl; [exact Hids|]. intros id Hid. simpl in Hid. lia.
  - inversion Hstep as
      [b1 pool0 c u ct
      |b1 pool0 i key' k fault Hi
      |b1 pool0 i k Hi
      |b1 pool0 i params k fault Hi
      |b1 pool0 t Ht]; subst; try (by constructor).
    destruct fault as [e|]; [by constructor|].
    cbn [redis_incr fst snd] in *. unfold ids_for. cbn [omap list_omap].
    destruct (decide (key' = key)) as [->|Hne]; [|by constructor].
    constructor; [|by constructor].
    assert (counter {| counters := <[key := counter b key + 1]> (counters b);
                       messages := messages b; clock := clock b |} key
            = counter b key + 1) as Hnew
      by (unfold counter at 1; cbn [counters]; by rewrite lookup_insert_eq).
    rewrite Hnew. lia.
Qed.

Lemma reachable_in_range (b0 b : Backend) (pool : list (Prog ChimeMessage))
    (labels : list Label) :
  reachable b0 b pool labels → ids_in_range b0 b labels.
Proof.
  induction 1 as [|b pool labels l b' pool' Hreach IH Hstep].
  - intros key. split; [lia|constructor].
  - by eapply step_in_range.
Qed.

(** The id given to a caller under [key] lies after the counter of the
    start, up to the counter of now. *)
Lemma given_id_range (b0 b : Backend) (pool : list (Prog ChimeMessage))
    (labels : list Label) (i : nat) (key : string) (id : Z) :
  reachable b0 b pool labels →
  allocs_of i labels = [(key, id)] →
  counter b0 key < id ≤ counter b key.
Proof.
  intros Hreach Hone.
  destruct (reachable_in_range _ _ _ _ Hreach key) as [_ Hids].
  rewrite Forall_forall in Hids. apply Hids.
  apply (ids_for_label i), allocs_of_label. rewrite Hone. apply list_elem_of_here.
Qed.

(** C2, as the code has it: whatever the steps of the callers, each call
    that returned a message completed one allocation; and on a channel
    whose counter started at -2^53 or above and has not passed 2^53, the
    messageIds returned, read as integers and taken in the order the
    allocations completed, increase strictly. *)
Theorem saveMessage_monotonic (b0 b : Backend) (pool : list (Prog ChimeMessage))
    (labels : list Label) (channel : string) :
  reachable b0 b pool labels →
  - 2 ^ 53 ≤ counter b0 (MessageIDService.counter_key channel) →
  counter b (MessageIDService.counter_key channel) ≤ 2 ^ 53 →
  (∀ i m, pool !! i = Some (Ret m) → i ∈ omap alloc_caller labels)
  ∧ ∃ ids, returned_ids channel labels pool = Some <$> ids
           ∧ StronglySorted Z.lt ids.
Proof.
  intros Hreach Hlow Hhigh.
  pose proof (reachable_ok _ _ _ _ Hreach) as (Hthreads & Hcallers & Hids).
  split.
  - intros i m Hi. destruct (thread_ok_Ret _ _ _ (Hthreads _ _ Hi)) as (id & _ & Hone).
    assert ((MessageIDService.counter_key (channelId m), id) ∈ allocs_of i labels)
      as Hin by (rewrite Hone; apply list_elem_of_here).
    apply list_elem_of_omap in Hin as (l & Hl & Hmatch).
    apply list_elem_of_omap. exists l. split; [done|].
    destruct l as [| j key [id'|e] | | |]; try done.
    simpl in *. by destruct (decide (j = i)) as [->|].
  - destruct (returned_ids_sublist channel pool labels) as (ids & Heq & Hsub).
    { intros l i m Hl Hcaller Hret Hch. unfold returned_message in Hret.
      destruct (pool !! i) as [[m'| | | |]|] eqn:Hi; try done.
      injection Hret as ->.
      destruct (thread_ok_Ret _ _ _ (Hthreads _ _ Hi)) as (id & Hid & Hone).
      destruct (allocs_of_elem i labels l Hl Hcaller) as (key & id' & -> & Hin).
      rewrite Hone in Hin. apply list_elem_of_singleton in Hin.
      injection Hin as -> ->. exists id. split; [done|].
      rewrite Hid. apply parseInt_toString.
      pose proof (given_id_range _ _ _ _ _ _ _ Hreach Hone) as Hrange.
      rewrite Hch in Hrange. lia. }
    exists ids. split; [done|].
    eapply StronglySorted_sublist; [exact Hsub|]. apply Hids.
Qed.

Lemma move_reachable (b0 b : Backend) (pool : list (Prog ChimeMessage))
    (labels : list Label) (mv : Move) :
  reachable b0 b pool labels →
  reachable b0 (move mv (b, pool, labels)).1.1 (move mv (b, pool, labels)).1.2
    (move mv (b, pool, labels)).2.
Proof.
  intros Hreach. destruct mv as [c u ct|i fault|t]; simpl.
  - eapply reach_step; [exact Hreach|constructor].
  - destruct (pool !! i) as [[m|e|key k|k|params k]|] eqn:Hi; simpl; try done.
    + eapply reach_step; [exact Hreach|by apply step_incr].
    + eapply reach_step; [exact Hreach|by apply step_now].
    + eapply reach_step; [exact Hreach|by apply step_execute].
  - destruct (decide (clock b ≤ t)); simpl; [|done].
    eapply reach_step; [exact Hreach|by constructor].
Qed.

Lemma play_reachable (schedule : list Move) (b0 b : Backend)
    (pool : list (Prog ChimeMessage)) (labels : list Label) :
  reachable b0 b pool labels →
  reachable b0 (play schedule (b, pool, labels)).1.1
    (play schedule (b, pool, labels)).1.2 (play schedule (b, pool, labels)).2.
Proof.
  revert b pool labels. induction schedule as [|mv rest IH]; intros b pool labels Hreach.
  - done.
  - cbn [play]. pose proof (move_reachable _ _ _ _ mv Hreach) as Hmv.
    destruct (move mv (b, pool, labels)) as [[b' pool'] labels']. by apply IH.
Qed.

Lemma saveMessage_monotonic_witness :
  let st := play race (fresh_backend, [], []) in
  ∃ ids, returned_ids "general" st.2 st.1.2 = Some <$> ids
         ∧ StronglySorted Z.lt ids.
Proof.
  intros st.
  apply (saveMessage_monotonic fresh_backend st.1.1 st.1.2 st.2 "general").
  - apply play_reachable. constructor.
  - vm_compute. discriminate.
  - vm_compute. discriminate.
Defined.

(** C2 as stated fails: with the counter at 2^53 - 1, two calls that
    succeed one after the other are given 2^53 and 2^53 + 1; the second
    is no Number, and both calls return "9007199254740992". *)
Lemma ids_repeat_past_2_53 :
  let st := play two_calls (backend_at_limit, [], []) in
  reachable backend_at_limit st.1.1 st.1.2 st.2
  ∧ ids_for (MessageIDService.counter_key "general") st.2 = [2 ^ 53; 2 ^ 53 + 1]
  ∧ returned_ids "general" st.2 st.1.2 = [Some (2 ^ 53); Some (2 ^ 53)]
  ∧ ¬ ∃ ids, returned_ids "general" st.2 st.1.2 = Some <$> ids
             ∧ StronglySorted Z.lt ids.
Proof.
  intros st.
  assert (returned_ids "general" st.2 st.1.2 = [Some (2 ^ 53); Some (2 ^ 53)])
    as Hids by (vm_compute; reflexivity).
  split_and!.
  - apply play_reachable. constructor.
  - vm_compute. reflexivity.
  - exact Hids.
  - intros (ids & Heq & Hsorted). rewrite Hids in Heq.
    remember (2 ^ 53) as limit eqn:Hlimit. clear Hlimit Hids.
    destruct ids as [|x [|y [|z ids]]]; try discriminate.
    injection Heq as <- <-.
    apply StronglySorted_inv in Hsorted as [_ Hall].
    apply Forall_inv in Hall. lia.
Defined.

(** In the race the ids come back as 1 and 2, in the order given. *)
Example race_ids :
  let st := play race (fresh_backend, [], []) in
  returned_ids "general" st.2 st.1.2 = [Some 1; Some 2]
  ∧ returned_message st.1.2 0 = Some (message_of "general" "u1" "hi" 2 (clock fresh_backend))
  ∧ returned_message st.1.2 1 = Some (message_of "general" "u2" "there" 1 (clock fresh_backend)).
Proof. vm_compute. done. Qed.

(** * Further properties *)

(** ** Sets and maps, continued *)

Section MoreCollectionFacts.
Context {K : Type} `{EqDecision K} {V : Type}.
Implicit Types (m : list (K * V)).

Lemma map_get_delete_ne (k k' : K) m :
  k ≠ k' → map_get k' (map_delete k m) = map_get k' m.
Proof.
  intros Hne. unfold map_delete. induction m as [|[k0 v0] m IH]; [done|].
  rewrite filter_cons. simpl. destruct (decide (k0 ≠ k)) as [Hk|Hk]; simpl.
  - by rewrite IH.
  - assert (k0 = k) as -> by (by destruct (decide (k0 = k))).
    by rewrite decide_False by done.
Qed.

Lemma map_get_None_keys (k : K) m : map_get k m = None ↔ k ∉ map_keys m.
Proof.
  split.
  - intros Hnone Hin. apply map_get_keys in Hin as [v Hv]. congruence.
  - intros Hout. destruct (map_get k m) eqn:Hg; [|done].
    exfalso. apply Hout, map_get_keys. by eexists.
Qed.

Lemma map_delete_fresh (k : K) m : map_get k m = None → map_delete k m = m.
Proof.
  unfold map_delete. induction m as [|[k0 v0] m IH]; simpl; [done|].
  destruct (decide (k = k0)) as [->|Hne]; [done|]. intros Hget.
  rewrite filter_cons_True by (simpl; congruence). by rewrite IH.
Qed.

Lemma map_delete_set_fresh (k : K) (v : V) m :
  map_get k m = None → map_delete k (map_set k v m) = m.
Proof.
  unfold map_delete. induction m as [|[k0 v0] m IH]; simpl.
  - intros _. by rewrite filter_cons_False by (simpl; tauto).
  - destruct (decide (k = k0)) as [->|Hne]; [done|]. intros Hget.
    rewrite filter_cons_True by (simpl; congruence). by rewrite IH.
Qed.

Lemma map_keys_set (k : K) (v : V) m :
  map_keys (map_set k v m)
  = if decide (k ∈ map_keys m) then map_keys m else map_keys m ++ [k].
Proof.
  unfold map_keys. induction m as [|[k0 v0] m IH].
  - simpl. destruct (decide (k ∈ [])) as [Hin|Hout]; [by apply not_elem_of_nil in Hin|done].
  - cbn [map_set]. destruct (decide (k = k0)) as [->|Hne].
    + rewrite decide_True; [done|apply list_elem_of_here].
    + rewrite fmap_cons, IH. cbn [fst]. rewrite fmap_cons. cbn [fst].
      destruct (decide (k ∈ m.*1)) as [Hin|Hout].
      * rewrite decide_True; [done|by apply list_elem_of_further].
      * rewrite decide_False; [done|].
        intros Hin. apply elem_of_cons in Hin as [?|?]; done.
Qed.

Lemma map_keys_set_NoDup (k : K) (v : V) m :
  NoDup (map_keys m) → NoDup (map_keys (map_set k v m)).
Proof.
  intros Hnd. rewrite map_keys_set. destruct (decide (k ∈ map_keys m)); [done|].
  apply NoDup_app. split_and!; [done| |apply NoDup_singleton].
  intros x Hx Hx'. apply list_elem_of_singleton in Hx'. by subst.
Qed.

Lemma map_keys_delete_NoDup (k : K) m :
  NoDup (map_keys m) → NoDup (map_keys (map_delete k m)).
Proof.
  unfold map_keys, map_delete. induction m as [|[k0 v0] m IH]; [done|].
  simpl. intros Hnd. apply NoDup_cons in Hnd as [Hout Hnd].
  rewrite filter_cons. destruct (decide ((k0, v0).1 ≠ k)); [|by apply IH].
  simpl. apply NoDup_cons. split; [|by apply IH].
  intros Hin. apply Hout. apply list_elem_of_fmap in Hin as ([k1 v1] & -> & Hin).
  apply list_elem_of_filter in Hin as [_ Hin].
  apply list_elem_of_fmap. by exists (k1, v1).
Qed.

End MoreCollectionFacts.

Lemma set_delete_add_fresh {K : Type} `{EqDecision K} (x : K) (s : list K) :
  x ∉ s → set_delete x (set_add x s) = s.
Proof.
  intros Hout. unfold set_add. rewrite decide_False by done.
  unfold set_delete. rewrite filter_app, filter_cons_False by tauto.
  rewrite filter_nil, app_nil_r. by apply set_delete_absent.
Qed.

Lemma set_delete_idem {K : Type} `{EqDecision K} (x : K) (s : list K) :
  set_delete x (set_delete x s) = set_delete x s.
Proof. apply set_delete_absent, set_delete_gone. Qed.

Lemma set_delete_elem {K : Type} `{EqDecision K} (x y : K) (s : list K) :
  y ∈ set_delete x s ↔ y ≠ x ∧ y ∈ s.
Proof. unfold set_delete. by rewrite list_elem_of_filter. Qed.

Lemma set_add_other {K : Type} `{EqDecision K} (x y : K) (s : list K) :
  y ∈ set_add x s ↔ y = x ∨ y ∈ s.
Proof.
  unfold set_add. destruct (decide (x ∈ s)) as [Hin|Hout].
  - split; [by right|]. intros [->|?]; done.
  - rewrite elem_of_app, list_elem_of_singleton. tauto.
Qed.

(** ** UserConnectionManager, continued *)

(** X1: [removeUserConnection] takes that socket, and nothing else, out of
    that user's set; the user stays listed exactly while sockets remain. *)
Theorem removeUserConnection_effect (m : UserConnectionManager.t)
    (userId other : string) (ws : WsRef) :
  let r := UserConnectionManager.removeUserConnection userId ws m in
  let m' := state_after r in
  result r = Normal tt
  ∧ UserConnectionManager.sockets m' = UserConnectionManager.sockets m
  ∧ UserConnectionManager.getUserConnections userId m'
    = set_delete ws (UserConnectionManager.getUserConnections userId m)
  ∧ (other ≠ userId →
     UserConnectionManager.getUserConnections other m'
     = UserConnectionManager.getUserConnections other m)
  ∧ (userId ∈ UserConnectionManager.getAllConnectedUsers m'
     ↔ UserConnectionManager.getUserConnections userId m' ≠ [])
  ∧ (UserConnectionManager.isUserConnected userId m' = true
     ↔ UserConnectionManager.getUserConnections userId m' ≠ []).
Proof.
  intros r m'. subst r m'. rewrite removeUserConnection_run.
  unfold result, state_after, UserConnectionManager.getUserConnections,
    UserConnectionManager.getAllConnectedUsers, UserConnectionManager.isUserConnected,
    map_has; simpl.
  destruct (map_get userId (UserConnectionManager.userConnections m))
    as [conns|] eqn:Hget; simpl.
  - destruct (decide (length (set_delete ws conns) = 0%nat)) as [Hlen|Hlen]; simpl.
    + assert (set_delete ws conns = []) as Hnil by (by apply nil_length_inv).
      rewrite map_get_delete_eq. simpl. rewrite Hnil.
      split_and!; try done.
      * intros Hne. rewrite map_get_delete_ne by done. by rewrite map_get_set_ne.
      * split; [|done]. intros Hin. by apply map_keys_delete in Hin.
    + rewrite map_get_set_eq. simpl.
      assert (set_delete ws conns ≠ []) as Hne by (intros Heq; by rewrite Heq in Hlen).
      split_and!; try done.
      * intros Hother. by rewrite map_get_set_ne.
      * split; [done|]. intros _. apply map_get_keys. rewrite map_get_set_eq. by eexists.
      * split; [done|]. intros _. apply bool_decide_eq_true.
        destruct (set_delete ws conns); [done|simpl; lia].
  - rewrite Hget. simpl. split_and!; try done.
    split; [|done]. intros Hin. apply map_get_keys in Hin as [? Hin]. congruence.
Qed.

Lemma removeUserConnection_effect_witness :
  UserConnectionManager.getUserConnections "u2"
    (state_after (UserConnectionManager.removeUserConnection "u1" 0%nat
                    registry_closed_and_open))
  = UserConnectionManager.getUserConnections "u2" registry_closed_and_open.
Proof.
  destruct (removeUserConnection_effect registry_closed_and_open "u1" "u2" 0%nat)
    as (_ & _ & _ & Hother & _).
  apply Hother. discriminate.
Defined.

(** X2: [addUserConnection] puts the socket at the end of the user's set
    unless it is there already, touches no other user, and a second call
    with the same socket changes nothing. *)
Theorem addUserConnection_effect (m : UserConnectionManager.t)
    (userId other : string) (ws : WsRef) :
  let r := UserConnectionManager.addUserConnection userId ws m in
  let m' := state_after r in
  result r = Normal tt
  ∧ UserConnectionManager.sockets m' = UserConnectionManager.sockets m
  ∧ UserConnectionManager.getUserConnections userId m'
    = set_add ws (UserConnectionManager.getUserConnections userId m)
  ∧ ws ∈ UserConnectionManager.getUserConnections userId m'
  ∧ (other ≠ userId →
     UserConnectionManager.getUserConnections other m'
     = UserConnectionManager.getUserConnections other m)
  ∧ userId ∈ UserConnectionManager.getAllConnectedUsers m'
  ∧ UserConnectionManager.isUserConnected userId m' = true
  ∧ state_after (UserConnectionManager.addUserConnection userId ws m') = m'.
Proof.
  intros r m'. subst r m'. rewrite !addUserConnection_run.
  unfold result, state_after; simpl.
  assert (UserConnectionManager.getUserConnections userId
            (UserConnectionManager.update
               (map_set userId
                  (set_add ws (UserConnectionManager.getUserConnections userId m))) m)
          = set_add ws (UserConnectionManager.getUserConnections userId m)) as Hnew.
  { unfold UserConnectionManager.getUserConnections at 1. simpl.
    by rewrite map_get_set_eq. }
  rewrite !Hnew. split_and!; try done.
  - apply set_add_elem.
  - intros Hother. unfold UserConnectionManager.getUserConnections. simpl.
    by rewrite map_get_set_ne.
  - unfold UserConnectionManager.getAllConnectedUsers. simpl.
    apply map_get_keys. rewrite map_get_set_eq. by eexists.
  - unfold UserConnectionManager.isUserConnected, map_has. simpl.
    rewrite map_get_set_eq. simpl. apply bool_decide_eq_true.
    pose proof (set_add_nonempty ws (UserConnectionManager.getUserConnections userId m)).
    destruct (set_add ws _); [done|simpl; lia].
  - rewrite set_add_idem. unfold UserConnectionManager.update. simpl.
    by rewrite map_set_idem.
Qed.

Lemma addUserConnection_effect_witness :
  UserConnectionManager.getUserConnections "u2"
    (state_after (UserConnectionManager.addUserConnection "u1" 7%nat
                    registry_closed_and_open))
  = UserConnectionManager.getUserConnections "u2" registry_closed_and_open.
Proof.
  destruct (addUserConnection_effect registry_closed_and_open "u1" "u2" 7%nat)
    as (_ & _ & _ & _ & Hother & _).
  apply Hother. discriminate.
Defined.

Lemma registry_wf_perform (call : UserConnectionManager.Call)
    (m : UserConnectionManager.t) :
  registry_wf m → registry_wf (state_after (UserConnectionManager.perform call m)).
Proof.
  intros (Hinv & Hsets & Hkeys). split; [by apply UserConnectionManager_perform_inv|].
  assert (∀ u, NoDup (UserConnectionManager.getUserConnections u m)) as Hmem.
  { intros u. unfold UserConnectionManager.getUserConnections.
    destruct (map_get u _) as [conns|] eqn:Hget; simpl; [|constructor].
    by apply (map_get_Forall _ _ _ _ Hsets Hget). }
  destruct call as [u ws|u ws|u message|heap]; simpl.
  - rewrite addUserConnection_run. unfold state_after; simpl. split.
    + apply map_set_Forall; [done|]. simpl. apply set_add_NoDup, Hmem.
    + by apply map_keys_set_NoDup.
  - rewrite removeUserConnection_run. unfold state_after; simpl.
    destruct (map_get u (UserConnectionManager.userConnections m))
      as [conns|] eqn:Hget; [|done].
    destruct (decide (length (set_delete ws conns) = 0%nat)); simpl.
    + split; [by apply map_delete_set_Forall|].
      by apply map_keys_delete_NoDup, map_keys_set_NoDup.
    + split; [|by apply map_keys_set_NoDup].
      apply map_set_Forall; [done|]. simpl. apply NoDup_filter.
      by apply (map_get_Forall _ _ _ _ Hsets Hget).
  - unfold mbind, M_bind, bind. by rewrite sendToUser_run.
  - done.
Qed.

Lemma registry_wf_replay (history : list UserConnectionManager.Call)
    (heap : WsRef → WebSocket) :
  registry_wf (UserConnectionManager.replay history (UserConnectionManager.empty heap)).
Proof.
  assert (∀ m, registry_wf m → registry_wf (UserConnectionManager.replay history m))
    as Hall.
  { induction history as [|call rest IH]; intros m Hwf; simpl; [done|].
    by apply IH, registry_wf_perform. }
  apply Hall. split_and!; constructor.
Qed.

Lemma registry_connections_NoDup (m : UserConnectionManager.t) (u : string) :
  registry_wf m → NoDup (UserConnectionManager.getUserConnections u m).
Proof.
  intros (_ & Hsets & _). unfold UserConnectionManager.getUserConnections.
  destruct (map_get u _) as [conns|] eqn:Hget; simpl; [|constructor].
  by apply (map_get_Forall _ _ _ _ Hsets Hget).
Qed.

(** X3: Registering a socket the user does not hold and removing it again
    gives back the registry as it was, entry order included. *)
Theorem connection_roundtrip (heap : WsRef → WebSocket)
    (history : list UserConnectionManager.Call) (userId : string) (ws : WsRef) :
  let m := UserConnectionManager.replay history (UserConnectionManager.empty heap) in
  ws ∉ UserConnectionManager.getUserConnections userId m →
  (UserConnectionManager.addUserConnection userId ws;;
   UserConnectionManager.removeUserConnection userId ws) m
  = (Normal tt, m, []).
Proof.
  intros m Hnew. pose proof (registry_wf_replay history heap) as (Hinv & _ & _).
  fold m in Hinv. unfold mbind, M_bind, bind.
  rewrite addUserConnection_run, removeUserConnection_run. simpl.
  rewrite map_get_set_eq, set_delete_add_fresh by done.
  unfold UserConnectionManager.getUserConnections in *.
  destruct (map_get userId (UserConnectionManager.userConnections m))
    as [conns|] eqn:Hget; simpl in *.
  - pose proof (map_get_Forall _ _ _ _ Hinv Hget) as Hne. simpl in Hne.
    rewrite decide_False by (by destruct conns).
    unfold UserConnectionManager.update. simpl.
    rewrite map_set_set, (map_set_same _ _ _ Hget). by destruct m.
  - unfold UserConnectionManager.update. simpl.
    rewrite map_set_set, (map_delete_set_fresh _ _ _ Hget). by destruct m.
Qed.

Lemma connection_roundtrip_witness :
  let m := UserConnectionManager.replay
             [UserConnectionManager.AddUserConnection "u1" 1%nat]
             (UserConnectionManager.empty open_sockets) in
  (UserConnectionManager.addUserConnection "u1" 2%nat;;
   UserConnectionManager.removeUserConnection "u1" 2%nat) m
  = (Normal tt, m, []).
Proof.
  apply (connection_roundtrip open_sockets
           [UserConnectionManager.AddUserConnection "u1" 1%nat] "u1" 2%nat).
  vm_compute. intros Hin. apply elem_of_cons in Hin as [Heq|Hin]; [discriminate|].
  by apply not_elem_of_nil in Hin.
Defined.

(** X4: However often a socket was registered, [sendToUser] calls [send] on
    it at most once, and only on open sockets of that user, with the
    payload it was given. *)
Theorem sendToUser_once (heap : WsRef → WebSocket)
    (history : list UserConnectionManager.Call) (userId : string)
    (message : WireText) :
  let m := UserConnectionManager.replay history (UserConnectionManager.empty heap) in
  let sent := UserConnectionManager.sends
                (trace (UserConnectionManager.sendToUser userId message m)) in
  NoDup sent
  ∧ ∀ ws data, (ws, data) ∈ sent →
      data = message
      ∧ ws ∈ UserConnectionManager.getUserConnections userId m
      ∧ readyState (UserConnectionManager.sockets m ws) = OPEN.
Proof.
  intros m sent. subst sent. rewrite sendToUser_run. unfold trace; simpl.
  assert (∀ l : list WsRef,
            UserConnectionManager.sends ((λ ws, EvWsSend ws message) <$> l)
            = (λ ws, (ws, message)) <$> l) as Hsends.
  { intros l. unfold UserConnectionManager.sends.
    induction l as [|ws l IH]; [done|]. rewrite !fmap_cons. simpl. by f_equal. }
  rewrite Hsends. unfold UserConnectionManager.open_connections. split.
  - apply NoDup_fmap_2; [by intros ws1 ws2 [= ->]|].
    apply NoDup_filter, registry_connections_NoDup, registry_wf_replay.
  - intros ws data Hin. apply list_elem_of_fmap in Hin as (ws' & [= -> ->] & Hin).
    apply list_elem_of_filter in Hin as [Hopen Hin]. done.
Qed.

(** X5: The queries of the registry agree: a user is listed, once, exactly
    when [isUserConnected] holds and exactly when it has sockets. *)
Theorem registry_queries_agree (heap : WsRef → WebSocket)
    (history : list UserConnectionManager.Call) (userId : string) :
  let m := UserConnectionManager.replay history (UserConnectionManager.empty heap) in
  NoDup (UserConnectionManager.getAllConnectedUsers m)
  ∧ NoDup (UserConnectionManager.getUserConnections userId m)
  ∧ (userId ∈ UserConnectionManager.getAllConnectedUsers m
     ↔ UserConnectionManager.getUserConnections userId m ≠ [])
  ∧ (UserConnectionManager.isUserConnected userId m = true
     ↔ userId ∈ UserConnectionManager.getAllConnectedUsers m).
Proof.
  intros m. pose proof (registry_wf_replay history heap) as Hwf. fold m in Hwf.
  pose proof Hwf as (Hinv & Hsets & Hkeys).
  split_and!; [done|by apply registry_connections_NoDup| |].
  - split; [by apply UserConnectionManager_present_nonempty|].
    unfold UserConnectionManager.getUserConnections,
      UserConnectionManager.getAllConnectedUsers.
    destruct (map_get userId _) as [conns|] eqn:Hget; [|done].
    intros _. apply map_get_keys. by eexists.
  - split; [|by apply UserConnectionManager_present_nonempty].
    unfold UserConnectionManager.isUserConnected,
      UserConnectionManager.getAllConnectedUsers, map_has.
    destruct (map_get userId _) as [conns|] eqn:Hget; [|done].
    intros _. apply map_get_keys. by eexists.
Qed.

(** ** ChannelManager, continued *)

(** X6: [addUserToChannel] puts the user at the end of the members of that
    channel unless it is one already, keeps the members before it in
    their order, and touches no other channel. *)
Theorem addUserToChannel_effect (channels : ChannelManager.t)
    (channelId other : Key) (userId : string) :
  let r := ChannelManager.addUserToChannel channelId userId channels in
  let channels' := state_after r in
  result r = Normal tt
  ∧ ChannelManager.getUsersInChannel channelId channels'
    = set_add userId (ChannelManager.getUsersInChannel channelId channels)
  ∧ userId ∈ ChannelManager.getUsersInChannel channelId channels'
  ∧ channelId ∈ ChannelManager.getChannels channels'
  ∧ (other ≠ channelId →
     ChannelManager.getUsersInChannel other channels'
     = ChannelManager.getUsersInChannel other channels).
Proof.
  intros r channels'. subst r channels'. rewrite addUserToChannel_run.
  unfold result, state_after; simpl.
  assert (ChannelManager.getUsersInChannel channelId
            (map_set channelId
               (set_add userId (ChannelManager.getUsersInChannel channelId channels))
               channels)
          = set_add userId (ChannelManager.getUsersInChannel channelId channels))
    as Hnew.
  { unfold ChannelManager.getUsersInChannel at 1. by rewrite map_get_set_eq. }
  rewrite !Hnew. split_and!; try done.
  - apply set_add_elem.
  - apply map_get_keys. rewrite map_get_set_eq. by eexists.
  - intros Hother. unfold ChannelManager.getUsersInChannel.
    by rewrite map_get_set_ne.
Qed.

Lemma addUserToChannel_effect_witness :
  ChannelManager.getUsersInChannel "random"
    (state_after (ChannelManager.addUserToChannel "general" "u3"
                    [(KStr "general", ["u1"]); (KStr "random", ["u2"])]))
  = ["u2"].
Proof.
  destruct (addUserToChannel_effect [(KStr "general", ["u1"]); (KStr "random", ["u2"])]
              "general" "random" "u3") as (_ & _ & _ & _ & Hother).
  rewrite Hother; [reflexivity|discriminate].
Defined.

(** X7: [removeUserFromChannel] takes that user, and nobody else, out of the
    members of that channel, touches no other channel, and the channel
    stays listed exactly while members remain. *)
Theorem removeUserFromChannel_effect (channels : ChannelManager.t)
    (channelId other : Key) (userId : string) :
  let r := ChannelManager.removeUserFromChannel channelId userId channels in
  let channels' := state_after r in
  result r = Normal tt
  ∧ ChannelManager.getUsersInChannel channelId channels'
    = set_delete userId (ChannelManager.getUsersInChannel channelId channels)
  ∧ (userId ∉ ChannelManager.getUsersInChannel channelId channels')
  ∧ (other ≠ channelId →
     ChannelManager.getUsersInChannel other channels'
     = ChannelManager.getUsersInChannel other channels)
  ∧ (channelId ∈ ChannelManager.getChannels channels'
     ↔ ChannelManager.getUsersInChannel channelId channels' ≠ []).
Proof.
  intros r channels'. subst r channels'. rewrite removeUserFromChannel_run.
  unfold result, state_after; simpl.
  assert (ChannelManager.getUsersInChannel channelId
            match map_get channelId channels with
            | Some users =>
                if decide (length (set_delete userId users) = 0%nat)
                then map_delete channelId
                       (map_set channelId (set_delete userId users) channels)
                else map_set channelId (set_delete userId users) channels
            | None => channels
            end
          = set_delete userId (ChannelManager.getUsersInChannel channelId channels))
    as Hnew.
  { unfold ChannelManager.getUsersInChannel.
    destruct (map_get channelId channels) as [users|] eqn:Hget; simpl.
    - destruct (decide (length (set_delete userId users) = 0%nat)) as [Hlen|Hlen].
      + rewrite map_get_delete_eq. simpl. symmetry. by apply nil_length_inv.
      + by rewrite map_get_set_eq.
    - by rewrite Hget. }
  rewrite !Hnew. split_and!; try done.
  - apply set_delete_gone.
  - intros Hother. unfold ChannelManager.getUsersInChannel.
    destruct (map_get channelId channels) as [users|]; [|done].
    destruct (decide (length (set_delete userId users) = 0%nat)).
    + rewrite map_get_delete_ne by done. by rewrite map_get_set_ne.
    + by rewrite map_get_set_ne.
  - unfold ChannelManager.getUsersInChannel, ChannelManager.getChannels.
    destruct (map_get channelId channels) as [users|] eqn:Hget; simpl.
    + destruct (decide (length (set_delete userId users) = 0%nat)) as [Hlen|Hlen].
      * apply nil_length_inv in Hlen. rewrite Hlen.
        split; [|done]. intros Hin. by apply map_keys_delete in Hin.
      * split; [intros _ Heq; by rewrite Heq in Hlen|].
        intros _. apply map_get_keys. rewrite map_get_set_eq. by eexists.
    + split; [|done]. intros Hin. apply map_get_keys in Hin as [? Hin]. congruence.
Qed.

Lemma removeUserFromChannel_effect_witness :
  ChannelManager.getUsersInChannel "random"
    (state_after (ChannelManager.removeUserFromChannel "general" "u1"
                    [(KStr "general", ["u1"]); (KStr "random", ["u2"])]))
  = ["u2"].
Proof.
  destruct (removeUserFromChannel_effect [(KStr "general", ["u1"]); (KStr "random", ["u2"])]
              "general" "random" "u1") as (_ & _ & _ & Hother & _).
  rewrite Hother; [reflexivity|discriminate].
Defined.

Lemma ChannelManager_after_keys_NoDup (history : list ChannelManager.Call) :
  NoDup (ChannelManager.getChannels (ChannelManager.after history)).
Proof.
  unfold ChannelManager.after, ChannelManager.getChannels.
  apply (ChannelManager_replay_preserves (λ channels, NoDup (map_keys channels))).
  - intros call channels Hnd. destruct call as [c u|c u]; simpl.
    + rewrite addUserToChannel_run. unfold state_after; simpl.
      by apply map_keys_set_NoDup.
    + rewrite removeUserFromChannel_run. unfold state_after; simpl.
      destruct (map_get c channels) as [users|]; [|done].
      destruct (decide (length (set_delete u users) = 0%nat)).
      * by apply map_keys_delete_NoDup, map_keys_set_NoDup.
      * by apply map_keys_set_NoDup.
  - constructor.
Qed.

(** X8: Joining a channel one is not in and leaving it again gives back the
    membership map as it was, entry order included. *)
Theorem membership_roundtrip (history : list ChannelManager.Call)
    (channelId : Key) (userId : string) :
  let channels := ChannelManager.after history in
  userId ∉ ChannelManager.getUsersInChannel channelId channels →
  (ChannelManager.addUserToChannel channelId userId;;
   ChannelManager.removeUserFromChannel channelId userId) channels
  = (Normal tt, channels, []).
Proof.
  intros channels Hnew. pose proof (ChannelManager_after_inv history) as Hinv.
  fold channels in Hinv. unfold mbind, M_bind, bind.
  rewrite addUserToChannel_run, removeUserFromChannel_run. simpl.
  rewrite map_get_set_eq, set_delete_add_fresh by done.
  unfold ChannelManager.getUsersInChannel in *.
  destruct (map_get channelId channels) as [users|] eqn:Hget; simpl in *.
  - pose proof (map_get_Forall _ _ _ _ Hinv Hget) as Hne. simpl in Hne.
    rewrite decide_False by (by destruct users).
    by rewrite map_set_set, (map_set_same _ _ _ Hget).
  - by rewrite map_set_set, (map_delete_set_fresh _ _ _ Hget).
Qed.

Lemma membership_roundtrip_witness :
  let channels :=
    ChannelManager.after [ChannelManager.AddUserToChannel "general" "u1"] in
  (ChannelManager.addUserToChannel "general" "u2";;
   ChannelManager.removeUserFromChannel "general" "u2") channels
  = (Normal tt, channels, []).
Proof.
  apply (membership_roundtrip [ChannelManager.AddUserToChannel "general" "u1"]
           "general" "u2").
  vm_compute. intros Hin. apply elem_of_cons in Hin as [Heq|Hin]; [discriminate|].
  by apply not_elem_of_nil in Hin.
Defined.

(** X9: The queries of the membership map agree: a channel is listed, once,
    exactly when it has members, and no member is listed twice. *)
Theorem membership_queries_agree (history : list ChannelManager.Call)
    (channelId : Key) :
  let channels := ChannelManager.after history in
  NoDup (ChannelManager.getChannels channels)
  ∧ NoDup (ChannelManager.getUsersInChannel channelId channels)
  ∧ (channelId ∈ ChannelManager.getChannels channels
     ↔ ChannelManager.getUsersInChannel channelId channels ≠ []).
Proof.
  intros channels. split_and!.
  - apply ChannelManager_after_keys_NoDup.
  - apply ChannelManager_after_NoDup.
  - split; [apply ChannelManager_present_nonempty, ChannelManager_after_inv|].
    unfold ChannelManager.getUsersInChannel, ChannelManager.getChannels.
    destruct (map_get channelId channels) as [users|] eqn:Hget; [|done].
    intros _. apply map_get_keys. by eexists.
Qed.

(** ** The connection handler *)

Lemma removeUserFromChannel_members (channels : ChannelManager.t) (c : Key)
    (u : string) :
  ChannelManager.getUsersInChannel c
    (state_after (ChannelManager.removeUserFromChannel c u channels))
  = set_delete u (ChannelManager.getUsersInChannel c channels).
Proof.
  rewrite removeUserFromChannel_run. unfold state_after; simpl.
  unfold ChannelManager.getUsersInChannel.
  destruct (map_get c channels) as [users|] eqn:Hget; simpl.
  - destruct (decide (length (set_delete u users) = 0%nat)) as [Hlen|Hlen].
    + rewrite map_get_delete_eq. simpl. symmetry. by apply nil_length_inv.
    + by rewrite map_get_set_eq.
  - by rewrite Hget.
Qed.

Lemma removeUserFromChannel_frame (channels : ChannelManager.t) (c c' : Key)
    (u : string) :
  c' ≠ c →
  ChannelManager.getUsersInChannel c'
    (state_after (ChannelManager.removeUserFromChannel c u channels))
  = ChannelManager.getUsersInChannel c' channels.
Proof.
  intros Hother. rewrite removeUserFromChannel_run. unfold state_after; simpl.
  unfold ChannelManager.getUsersInChannel.
  destruct (map_get c channels) as [users|]; [|done].
  destruct (decide (length (set_delete u users) = 0%nat)).
  - rewrite map_get_delete_ne by done. by rewrite map_get_set_ne.
  - by rewrite map_get_set_ne.
Qed.

Lemma removeUserConnection_members_frame (m : UserConnectionManager.t)
    (u other : string) (ws : WsRef) :
  UserConnectionManager.getUserConnections u
    (state_after (UserConnectionManager.removeUserConnection u ws m))
  = set_delete ws (UserConnectionManager.getUserConnections u m)
  ∧ (other ≠ u →
     UserConnectionManager.getUserConnections other
       (state_after (UserConnectionManager.removeUserConnection u ws m))
     = UserConnectionManager.getUserConnections other m).
Proof.
  rewrite removeUserConnection_run.
  unfold state_after, UserConnectionManager.getUserConnections; simpl.
  destruct (map_get u (UserConnectionManager.userConnections m))
    as [conns|] eqn:Hget; simpl.
  - destruct (decide (length (set_delete ws conns) = 0%nat)) as [Hlen|Hlen]; simpl.
    + rewrite map_get_delete_eq. simpl. split; [symmetry; by apply nil_length_inv|].
      intros Hne. rewrite map_get_delete_ne by done. by rewrite map_get_set_ne.
    + rewrite map_get_set_eq. split; [done|]. intros Hne. by rewrite map_get_set_ne.
  - by rewrite Hget.
Qed.

(** Leaving a list of channels one after the other. *)
Lemma leave_channels_members (userId : string) (ks : list Key)
    (channels : ChannelManager.t) (c : Key) :
  ChannelManager.getUsersInChannel c
    (foldl (λ cm k, state_after (ChannelManager.removeUserFromChannel k userId cm))
           channels ks)
  = if decide (c ∈ ks)
    then set_delete userId (ChannelManager.getUsersInChannel c channels)
    else ChannelManager.getUsersInChannel c channels.
Proof.
  revert channels. induction ks as [|k ks IH]; intros channels.
  - simpl. destruct (decide (c ∈ [])) as [Hin|]; [by apply not_elem_of_nil in Hin|done].
  - cbn [foldl]. rewrite IH.
    destruct (decide (c = k)) as [->|Hne].
    + rewrite removeUserFromChannel_members.
      rewrite (decide_True (P := k ∈ k :: ks)) by apply list_elem_of_here.
      destruct (decide (k ∈ ks)); [by rewrite set_delete_idem|done].
    + rewrite removeUserFromChannel_frame by done.
      destruct (decide (c ∈ ks)) as [Hin|Hout].
      * rewrite decide_True; [done|by apply list_elem_of_further].
      * rewrite decide_False; [done|].
        intros Hin. apply elem_of_cons in Hin as [?|?]; done.
Qed.

Lemma leave_channels_inv (userId : string) (ks : list Key)
    (channels : ChannelManager.t) :
  ChannelManager.inv channels →
  ChannelManager.inv
    (foldl (λ cm k, state_after (ChannelManager.removeUserFromChannel k userId cm))
           channels ks).
Proof.
  revert channels. induction ks as [|k ks IH]; intros channels Hinv; simpl; [done|].
  apply IH.
  apply (ChannelManager_perform_inv (ChannelManager.RemoveUserFromChannel k userId)).
  done.
Qed.

Lemma leave_channels_run (userId : string) (ks : list Key)
    (s : MessageSubscriberService.t) :
  forEach ks (λ channelId (_ : unit),
    zoom MessageSubscriberService.channelManager ChimeServer.set_channelManager
         (ChannelManager.removeUserFromChannel channelId userId)) tt s
  = (Normal tt,
     ChimeServer.set_channelManager
       (foldl (λ cm k, state_after (ChannelManager.removeUserFromChannel k userId cm))
              (MessageSubscriberService.channelManager s) ks) s,
     []).
Proof.
  revert s. induction ks as [|k ks IH]; intros s.
  - simpl. unfold ret. by destruct s.
  - cbn [forEach foldl]. unfold mbind, M_bind. unfold bind at 1. unfold zoom at 1.
    destruct (ChannelManager.removeUserFromChannel k userId
                (MessageSubscriberService.channelManager s))
      as [[c cm'] tr] eqn:Hrm.
    rewrite removeUserFromChannel_run in Hrm. injection Hrm as <- Hcm <-.
    rewrite IH. by unfold ChimeServer.set_channelManager, state_after.
Qed.

Lemma onClose_run (s : MessageSubscriberService.t) (userId : string) (ws : WsRef) :
  userId ≠ "" →
  ChimeServer.onClose (Some userId) ws s
  = (Normal tt,
     ChimeServer.set_channelManager
       (foldl (λ cm k, state_after (ChannelManager.removeUserFromChannel k userId cm))
              (MessageSubscriberService.channelManager s)
              (ChannelManager.getChannels (MessageSubscriberService.channelManager s)))
       (MessageSubscriberService.set_userConnectionManager
          (state_after (UserConnectionManager.removeUserConnection userId ws
                          (MessageSubscriberService.userConnectionManager s))) s),
     []).
Proof.
  intros Hid. unfold ChimeServer.onClose.
  assert (String.eqb userId "" = false) as -> by (by apply String.eqb_neq).
  cbn [negb]. unfold mbind, M_bind. unfold bind at 1. unfold zoom at 1.
  rewrite removeUserConnection_run. unfold bind at 1. unfold gets at 1.
  rewrite leave_channels_run. by unfold state_after.
Qed.

(** X10: When a connection closes, its user leaves every channel and loses
    that socket; nobody else's memberships or sockets change, what the
    service is subscribed to on the bus stays as it was, and no set is
    left empty. *)
Theorem onClose_cleanup (s : MessageSubscriberService.t) (userId : string)
    (ws : WsRef) (c : Key) (other : string) :
  userId ≠ "" →
  let r := ChimeServer.onClose (Some userId) ws s in
  let s' := state_after r in
  result r = Normal tt ∧ trace r = []
  ∧ ChannelManager.getUsersInChannel c (MessageSubscriberService.channelManager s')
    = set_delete userId
        (ChannelManager.getUsersInChannel c (MessageSubscriberService.channelManager s))
  ∧ (userId ∉ ChannelManager.getUsersInChannel c
                (MessageSubscriberService.channelManager s'))
  ∧ UserConnectionManager.getUserConnections userId
      (MessageSubscriberService.userConnectionManager s')
    = set_delete ws
        (UserConnectionManager.getUserConnections userId
           (MessageSubscriberService.userConnectionManager s))
  ∧ (other ≠ userId →
     UserConnectionManager.getUserConnections other
       (MessageSubscriberService.userConnectionManager s')
     = UserConnectionManager.getUserConnections other
         (MessageSubscriberService.userConnectionManager s))
  ∧ MessageSubscriberService.subscribedChannels s'
    = MessageSubscriberService.subscribedChannels s
  ∧ MessageSubscriberService.messageHandlers s'
    = MessageSubscriberService.messageHandlers s
  ∧ (ChannelManager.inv (MessageSubscriberService.channelManager s) →
     ChannelManager.inv (MessageSubscriberService.channelManager s'))
  ∧ (UserConnectionManager.inv (MessageSubscriberService.userConnectionManager s) →
     UserConnectionManager.inv (MessageSubscriberService.userConnectionManager s')).
Proof.
  intros Hid r s'. subst r s'. rewrite onClose_run by done.
  unfold result, state_after at 1 2 3 4 5 6 7 8, trace. cbn [fst snd].
  cbn [ChimeServer.set_channelManager MessageSubscriberService.set_userConnectionManager
       MessageSubscriberService.channelManager
       MessageSubscriberService.userConnectionManager
       MessageSubscriberService.subscribedChannels
       MessageSubscriberService.messageHandlers].
  assert (ChannelManager.getUsersInChannel c
            (foldl (λ cm k, state_after
                              (ChannelManager.removeUserFromChannel k userId cm))
               (MessageSubscriberService.channelManager s)
               (ChannelManager.getChannels (MessageSubscriberService.channelManager s)))
          = set_delete userId
              (ChannelManager.getUsersInChannel c
                 (MessageSubscriberService.channelManager s))) as Hmembers.
  { rewrite leave_channels_members.
    destruct (decide (c ∈ ChannelManager.getChannels
                        (MessageSubscriberService.channelManager s))) as [Hin|Hout];
      [done|].
    unfold ChannelManager.getUsersInChannel.
    apply map_get_None_keys in Hout. by rewrite Hout. }
  destruct (removeUserConnection_members_frame
              (MessageSubscriberService.userConnectionManager s) userId other ws)
    as [Hown Hframe].
  split; [done|]. split; [done|].
  split; [exact Hmembers|]. split; [rewrite Hmembers; apply set_delete_gone|].
  split; [exact Hown|]. split; [exact Hframe|]. split; [done|]. split; [done|].
  split; [apply leave_channels_inv|].
  apply (UserConnectionManager_perform_inv
           (UserConnectionManager.RemoveUserConnection userId ws)).
Qed.

Lemma onClose_cleanup_witness :
  ChannelManager.getUsersInChannel "general"
    (MessageSubscriberService.channelManager
       (state_after (ChimeServer.onClose (Some "u1") 1%nat (service_general true))))
  = ["u2"]
  ∧ UserConnectionManager.getUserConnections "u2"
      (MessageSubscriberService.userConnectionManager
         (state_after (ChimeServer.onClose (Some "u1") 1%nat (service_general true))))
    = [2%nat].
Proof.
  destruct (onClose_cleanup (service_general true) "u1" 1%nat "general" "u2")
    as (_ & _ & Hmembers & _ & _ & Hother & _); [discriminate|].
  split.
  - rewrite Hmembers. reflexivity.
  - rewrite Hother; [reflexivity|discriminate].
Defined.

(** A connection that never completed its handshake closes without a
    trace. *)
Lemma onClose_without_user (s : MessageSubscriberService.t) (ws : WsRef) :
  ChimeServer.onClose None ws s = (Normal tt, s, []).
Proof. reflexivity. Qed.

(** ** MessageSubscriberService, continued *)

Lemma unsubscribeFrom_run (s : MessageSubscriberService.t) (channelId : string) :
  MessageSubscriberService.isConnected s = true →
  channelId ∈ MessageSubscriberService.subscribedChannels s →
  MessageSubscriberService.redis s (RUnsubscribe channelId) = Normal tt →
  MessageSubscriberService.unsubscribeFrom channelId s
  = (Normal tt,
     MessageSubscriberService.set_subscribedChannels
       (set_delete channelId (MessageSubscriberService.subscribedChannels s)) s,
     [EvRedisUnsubscribe channelId]).
Proof.
  intros Hcon Hsub Hbus.
  unfold MessageSubscriberService.unsubscribeFrom, MessageSubscriberService.redis_call,
    MessageSubscriberService.eval, set_has.
  run_M. rewrite Hcon. simpl. rewrite bool_decide_eq_true_2 by done. simpl.
  by rewrite Hbus.
Qed.

(** X11: Subscribing to a channel the service is not subscribed to and
    unsubscribing again gives back the service as it was, after one call
    of each kind on the bus; subscribing twice before changes nothing:
    one [unsubscribeFrom] undoes any number of [subscribeTo]. *)
Theorem subscription_roundtrip (s : MessageSubscriberService.t) (channelId : string) :
  MessageSubscriberService.isConnected s = true →
  channelId ∉ MessageSubscriberService.subscribedChannels s →
  MessageSubscriberService.redis s (RSubscribe channelId) = Normal tt →
  MessageSubscriberService.redis s (RUnsubscribe channelId) = Normal tt →
  (MessageSubscriberService.subscribeTo channelId;;
   MessageSubscriberService.unsubscribeFrom channelId) s
  = (Normal tt, s, [EvRedisSubscribe channelId; EvRedisUnsubscribe channelId])
  ∧ (MessageSubscriberService.subscribeTo channelId;;
     MessageSubscriberService.subscribeTo channelId;;
     MessageSubscriberService.unsubscribeFrom channelId) s
    = (Normal tt, s, [EvRedisSubscribe channelId; EvRedisUnsubscribe channelId]).
Proof.
  intros Hcon Hnew Hsub Hunsub.
  assert ((MessageSubscriberService.subscribeTo channelId;;
           MessageSubscriberService.unsubscribeFrom channelId) s
          = (Normal tt, s, [EvRedisSubscribe channelId; EvRedisUnsubscribe channelId]))
    as Hround.
  { unfold mbind, M_bind, bind. rewrite subscribeTo_run by done.
    rewrite unsubscribeFrom_run;
      [|done|simpl; apply elem_of_app; right; apply list_elem_of_here|done].
    simpl. fold (set_add channelId (MessageSubscriberService.subscribedChannels s)).
    replace (MessageSubscriberService.subscribedChannels s ++ [channelId])
      with (set_add channelId (MessageSubscriberService.subscribedChannels s))
      by (unfold set_add; by rewrite decide_False).
    rewrite set_delete_add_fresh by done.
    by destruct s. }
  split; [done|].
  unfold mbind, M_bind in *. unfold bind at 1.
  rewrite subscribeTo_run by done.
  set (s1 := MessageSubscriberService.set_subscribedChannels _ s).
  assert (MessageSubscriberService.subscribeTo channelId s1 = (Normal tt, s1, []))
    as Hagain.
  { unfold MessageSubscriberService.subscribeTo, set_has. run_M. rewrite Hcon. simpl.
    rewrite bool_decide_eq_true_2; [done|].
    apply elem_of_app. right. apply list_elem_of_here. }
  unfold bind at 1. rewrite Hagain.
  unfold bind in Hround. rewrite subscribeTo_run in Hround by done.
  fold s1 in Hround.
  destruct (MessageSubscriberService.unsubscribeFrom channelId s1) as [[c0 s2] tr].
  simpl in *. by injection Hround as -> -> ->.
Qed.

Lemma subscription_roundtrip_witness :
  (MessageSubscriberService.subscribeTo "random";;
   MessageSubscriberService.unsubscribeFrom "random") (service_general true)
  = (Normal tt, service_general true,
     [EvRedisSubscribe "random"; EvRedisUnsubscribe "random"]).
Proof.
  apply (subscription_roundtrip (service_general true) "random");
    [reflexivity| |reflexivity|reflexivity].
  simpl. intros Hin. apply elem_of_cons in Hin as [Heq|Hin]; [discriminate|].
  by apply not_elem_of_nil in Hin.
Defined.

(** X12: A call that the bus refuses fails with the error of the bus and
    leaves the bookkeeping as it was: the channel counts as subscribed
    only once the bus took the subscription, and stays subscribed until
    the bus dropped it. *)
Theorem bus_failure_keeps_tracking (s : MessageSubscriberService.t)
    (channelId : string) (e : Err) :
  MessageSubscriberService.isConnected s = true →
  (channelId ∉ MessageSubscriberService.subscribedChannels s →
   MessageSubscriberService.redis s (RSubscribe channelId) = Thrown e →
   MessageSubscriberService.subscribeTo channelId s
   = (Thrown e, s, [EvRedisSubscribe channelId]))
  ∧ (channelId ∈ MessageSubscriberService.subscribedChannels s →
     MessageSubscriberService.redis s (RUnsubscribe channelId) = Thrown e →
     MessageSubscriberService.unsubscribeFrom channelId s
     = (Thrown e, s, [EvRedisUnsubscribe channelId])).
Proof.
  intros Hcon. split; intros Hsub Hbus.
  - unfold MessageSubscriberService.subscribeTo, MessageSubscriberService.redis_call,
      MessageSubscriberService.eval, set_has.
    run_M. rewrite Hcon. simpl. rewrite bool_decide_eq_false_2 by done.
    by rewrite Hbus.
  - unfold MessageSubscriberService.unsubscribeFrom,
      MessageSubscriberService.redis_call, MessageSubscriberService.eval, set_has.
    run_M. rewrite Hcon. simpl. rewrite bool_decide_eq_true_2 by done. simpl.
    by rewrite Hbus.
Qed.

Lemma bus_failure_keeps_tracking_witness :
  MessageSubscriberService.subscribeTo "random" service_bus_down
  = (Thrown (Error "ECONNRESET"), service_bus_down, [EvRedisSubscribe "random"])
  ∧ MessageSubscriberService.unsubscribeFrom "general" service_bus_down
    = (Thrown (Error "ECONNRESET"), service_bus_down, [EvRedisUnsubscribe "general"]).
Proof.
  destruct (bus_failure_keeps_tracking service_bus_down "random"
              (Error "ECONNRESET") eq_refl) as [Hsub _].
  destruct (bus_failure_keeps_tracking service_bus_down "general"
              (Error "ECONNRESET") eq_refl) as [_ Hunsub].
  split.
  - apply Hsub; [|reflexivity]. simpl. intros Hin.
    apply elem_of_cons in Hin as [Heq|Hin]; [discriminate|].
    by apply not_elem_of_nil in Hin.
  - apply Hunsub; [apply list_elem_of_here|reflexivity].
Defined.

(** X13: [disconnect] does nothing on a service that is not connected; on a
    connected one it forgets every subscription and keeps the handlers
    and the managers; and when the Redis client fails to disconnect, the
    error comes out and the service still counts as connected, with its
    subscriptions. *)
Theorem disconnect_behaviour (s : MessageSubscriberService.t) (e : Err) :
  (MessageSubscriberService.isConnected s = false →
   MessageSubscriberService.disconnect s = (Normal tt, s, []))
  ∧ (MessageSubscriberService.isConnected s = true →
     MessageSubscriberService.redis s RDisconnect = Normal tt →
     let r := MessageSubscriberService.disconnect s in
     result r = Normal tt
     ∧ MessageSubscriberService.isConnected (state_after r) = false
     ∧ MessageSubscriberService.subscribedChannels (state_after r) = []
     ∧ MessageSubscriberService.messageHandlers (state_after r)
       = MessageSubscriberService.messageHandlers s
     ∧ MessageSubscriberService.channelManager (state_after r)
       = MessageSubscriberService.channelManager s
     ∧ MessageSubscriberService.userConnectionManager (state_after r)
       = MessageSubscriberService.userConnectionManager s)
  ∧ (MessageSubscriberService.isConnected s = true →
     MessageSubscriberService.redis s RDisconnect = Thrown e →
     MessageSubscriberService.disconnect s = (Thrown e, s, [])).
Proof.
  split_and!.
  - intros Hdis. unfold MessageSubscriberService.disconnect. run_M. by rewrite Hdis.
  - intros Hcon Hbus r. subst r. by rewrite disconnect_run.
  - intros Hcon Hbus.
    unfold MessageSubscriberService.disconnect, MessageSubscriberService.redis_call,
      MessageSubscriberService.eval.
    run_M. rewrite Hcon. simpl. by rewrite Hbus.
Qed.

Lemma disconnect_behaviour_witness :
  MessageSubscriberService.disconnect (service_general false)
  = (Normal tt, service_general false, [])
  ∧ MessageSubscriberService.subscribedChannels
      (state_after (MessageSubscriberService.disconnect (service_general true))) = [].
Proof.
  destruct (disconnect_behaviour (service_general false) (Error "x")) as (Hoff & _ & _).
  destruct (disconnect_behaviour (service_general true) (Error "x")) as (_ & Hon & _).
  split.
  - apply Hoff. reflexivity.
  - apply Hon; reflexivity.
Defined.

Lemma connect_run (s : MessageSubscriberService.t) :
  MessageSubscriberService.redis s RConnect = Normal tt →
  MessageSubscriberService.connect s
  = (Normal tt, MessageSubscriberService.set_isConnected true s, []).
Proof.
  intros Hbus.
  unfold MessageSubscriberService.connect, MessageSubscriberService.redis_call,
    MessageSubscriberService.eval.
  run_M. by rewrite Hbus.
Qed.

(** X14: [connect] marks the service connected and changes nothing else; when
    the Redis client cannot connect, the caller gets the error "Redis
    client not connected", whatever the cause was, and the service is as
    before.  Connecting again after a [disconnect] brings no subscription
    back: [subscribeTo] then goes to the bus, also for a channel that was
    subscribed before. *)
Theorem connect_behaviour (s : MessageSubscriberService.t) (channelId : string)
    (e : Err) :
  (MessageSubscriberService.redis s RConnect = Normal tt →
   MessageSubscriberService.connect s
   = (Normal tt, MessageSubscriberService.set_isConnected true s, []))
  ∧ (MessageSubscriberService.redis s RConnect = Thrown e →
     MessageSubscriberService.connect s
     = (Thrown (Error "Redis client not connected"), s, []))
  ∧ (MessageSubscriberService.isConnected s = true →
     (∀ call, MessageSubscriberService.redis s call = Normal tt) →
     let r := (MessageSubscriberService.disconnect;;
               MessageSubscriberService.connect;;
               MessageSubscriberService.subscribeTo channelId) s in
     result r = Normal tt
     ∧ trace r = [EvRedisSubscribe channelId]
     ∧ MessageSubscriberService.subscribedChannels (state_after r) = [channelId]
     ∧ MessageSubscriberService.isConnected (state_after r) = true).
Proof.
  split_and!.
  - apply connect_run.
  - intros Hbus.
    unfold MessageSubscriberService.connect, MessageSubscriberService.redis_call,
      MessageSubscriberService.eval.
    run_M. by rewrite Hbus.
  - intros Hcon Hbus r.
    assert (r = (Normal tt,
                 MessageSubscriberService.set_subscribedChannels [channelId]
                   (MessageSubscriberService.set_isConnected true
                      (MessageSubscriberService.set_subscribedChannels []
                         (MessageSubscriberService.set_isConnected false s))),
                 [EvRedisSubscribe channelId])) as ->; [|done].
    subst r. unfold mbind, M_bind. unfold bind at 1.
    rewrite disconnect_run by done. unfold bind at 1.
    rewrite connect_run by (simpl; apply Hbus).
    rewrite subscribeTo_run;
      [|done|simpl; apply not_elem_of_nil|simpl; apply Hbus].
    done.
Qed.

Lemma connect_behaviour_witness :
  MessageSubscriberService.connect (service_general false)
  = (Normal tt, MessageSubscriberService.set_isConnected true (service_general false), [])
  ∧ trace ((MessageSubscriberService.disconnect;;
            MessageSubscriberService.connect;;
            MessageSubscriberService.subscribeTo "general") (service_general true))
    = [EvRedisSubscribe "general"].
Proof.
  destruct (connect_behaviour (service_general false) "general" (Error "x"))
    as (Hok & _ & _).
  destruct (connect_behaviour (service_general true) "general" (Error "x"))
    as (_ & _ & Hre).
  split.
  - apply Hok. reflexivity.
  - apply Hre; [reflexivity|]. intros call. reflexivity.
Defined.

Lemma dispatch_trace_frame (s s' : MessageSubscriberService.t) (message : JValue) :
  MessageSubscriberService.channelManager s' = MessageSubscriberService.channelManager s →
  MessageSubscriberService.userConnectionManager s'
  = MessageSubscriberService.userConnectionManager s →
  handler_for s' message = handler_for s message →
  dispatch_trace s' message = dispatch_trace s message.
Proof.
  intros Hcm Hucm Hh. unfold dispatch_trace, recipients, delivery.
  by rewrite Hh, Hcm, Hucm.
Qed.

(** X15: A handler registered for a channel gets the messages of that channel
    from then on, in place of any handler registered for it before, and
    registering or removing it changes nothing for the messages of the
    other channels. *)
Theorem handler_registration (s : MessageSubscriberService.t) (c c' : string)
    (h h0 : Handler) (message : JValue) :
  prop_of message "channelId" = Some (JStr c') →
  let s1 := state_after (MessageSubscriberService.onChannelMessage c h s) in
  state_after ((MessageSubscriberService.onChannelMessage c h0;;
                MessageSubscriberService.onChannelMessage c h) s) = s1
  ∧ (c' = c →
     MessageSubscriberService.handleMessage message s1
     = (Normal tt, s1, [EvHandler (handlerName h) message]))
  ∧ (c' ≠ c →
     trace (MessageSubscriberService.handleMessage message s1)
     = trace (MessageSubscriberService.handleMessage message s)
     ∧ trace (MessageSubscriberService.handleMessage message
                (state_after (MessageSubscriberService.removeChannelMessageHandler c s)))
       = trace (MessageSubscriberService.handleMessage message s)).
Proof.
  intros Hc s1.
  assert (message ≠ JNull) as Hnn by (by destruct message).
  split_and!.
  - subst s1. unfold MessageSubscriberService.onChannelMessage. run_M.
    unfold MessageSubscriberService.set_messageHandlers. simpl.
    by rewrite map_set_set.
  - intros ->. rewrite handleMessage_run by done.
    unfold dispatch_trace, handler_for. rewrite Hc. simpl.
    by rewrite map_get_set_eq.
  - intros Hne. rewrite !handleMessage_run by done. unfold trace; simpl.
    split; apply dispatch_trace_frame; try done;
      unfold handler_for; rewrite Hc; simpl.
    + apply map_get_set_ne. by intros [= ->].
    + apply map_get_delete_ne. by intros [= ->].
Qed.

Lemma handler_registration_witness :
  MessageSubscriberService.handleMessage message_hi
    (state_after (MessageSubscriberService.onChannelMessage "general" echo_handler
                    (service_general true)))
  = (Normal tt,
     state_after (MessageSubscriberService.onChannelMessage "general" echo_handler
                    (service_general true)),
     [EvHandler "echo" message_hi]).
Proof.
  destruct (handler_registration (service_general true) "general" "general"
              echo_handler echo_handler message_hi eq_refl) as (_ & Hsame & _).
  by apply Hsame.
Defined.

(** ** Message validation *)

Lemma missing_nil (v : option JValue) (text : string) :
  missing v text = [] ↔ truthy_opt v = true.
Proof. unfold missing. by destruct (truthy_opt v). Qed.

Lemma missing_elem (v : option JValue) (text x : string) :
  x ∈ missing v text ↔ x = text ∧ truthy_opt v = false.
Proof.
  unfold missing. destruct (truthy_opt v); simpl.
  - split; [by intros ?%not_elem_of_nil|by intros [_ ?]].
  - rewrite list_elem_of_singleton. intuition auto.
Qed.

(** X16: The two checks of a complete message agree on every value, and
    [validateChimeMessage] names exactly the fields that are missing. *)
Theorem validateChimeMessage_agrees (message : JValue) :
  valid (validateChimeMessage (Some message)) = isValidChimeMessage message
  ∧ (valid (validateChimeMessage (Some message)) = true
     ↔ errors (validateChimeMessage (Some message)) = [])
  ∧ (typeof_object message = true → message ≠ JNull →
     ∀ name, name ∈ ["channelId"; "messageId"; "userId"; "content"; "createdAt"] →
       ("Missing " +:+ name ∈ errors (validateChimeMessage (Some message))
        ↔ truthy_opt (prop_of message name) = false)).
Proof.
  unfold validateChimeMessage, isValidChimeMessage.
  destruct (negb (truthy message) || negb (typeof_object message)) eqn:Hobj; simpl.
  - split; [done|]. split; [done|]. intros Hty Hnn.
    destruct message; simpl in *; done.
  - split_and!.
    + unfold missing.
      destruct (truthy_opt (prop_of message "channelId")),
        (truthy_opt (prop_of message "messageId")),
        (truthy_opt (prop_of message "userId")),
        (truthy_opt (prop_of message "content")),
        (truthy_opt (prop_of message "createdAt")); done.
    + rewrite bool_decide_eq_true. split; [apply nil_length_inv|by intros ->].
    + intros _ _ name Hname.
      repeat (apply elem_of_cons in Hname as [->|Hname]);
        [| | | | |by apply not_elem_of_nil in Hname];
        simpl; rewrite !elem_of_app, !missing_elem;
        intuition (discriminate || auto).
Qed.

Lemma validateChimeMessage_agrees_witness :
  typeof_object channel_only = true ∧ channel_only ≠ JNull
  ∧ "Missing content" ∈ errors (validateChimeMessage (Some channel_only)).
Proof.
  split; [reflexivity|]. split; [discriminate|].
  apply (proj2 (proj2 (validateChimeMessage_agrees channel_only)) eq_refl
           ltac:(discriminate) "content").
  - vm_compute. repeat (first [apply list_elem_of_here|apply list_elem_of_further]).
  - reflexivity.
Defined.

Lemma validateChimeMessage_valid (message : option JValue) :
  valid (validateChimeMessage message) = isValidChimeMessage_of message.
Proof.
  destruct message as [message|]; [|done].
  unfold validateChimeMessage, isValidChimeMessage_of, isValidChimeMessage.
  destruct (negb (truthy message) || negb (typeof_object message)); [done|].
  simpl. unfold missing.
  destruct (truthy_opt (prop_of message "channelId")),
    (truthy_opt (prop_of message "messageId")),
    (truthy_opt (prop_of message "userId")),
    (truthy_opt (prop_of message "content")),
    (truthy_opt (prop_of message "createdAt")); done.
Qed.

Lemma is_literal_spec (s : string) (v : option JValue) :
  is_literal s v = true ↔ v = Some (JStr s).
Proof.
  unfold is_literal. destruct v as [[| | |s'| |]|]; try (split; done).
  rewrite String.eqb_eq. split; [by intros ->|by intros [= ->]].
Qed.

(** What the three checks say of an object, by its [type]. *)
Lemma isValidMessage_object (fields : list (string * JValue)) :
  isValidMessage (JObj fields)
  = Normal
      (let type := field "type" fields in
       if is_literal "message" type then
         isValidChimeMessage_of (field "message" fields)
         || isValidClientMessageInput (field "message" fields)
       else if is_literal "connect" type then
         isValidConnectConfig (field "config" fields)
       else if is_literal "connected" type then
         truthy_opt (field "userId" fields) && is_array (field "channels" fields)
       else if is_literal "error" type then truthy_opt (field "message" fields)
       else false).
Proof.
  unfold isValidMessage, isValidMessageStructure, validateMessage. simpl.
  destruct (field "type" fields) as [[| | |s| |]|] eqn:Htype; simpl; try done.
  destruct (String.eqb_spec s "message") as [->|Hm]; simpl.
  { pose proof (validateChimeMessage_valid (field "message" fields)) as Hv.
    destruct (isValidChimeMessage_of (field "message" fields)); simpl.
    - by rewrite Hv.
    - by destruct (isValidClientMessageInput (field "message" fields)). }
  destruct (String.eqb_spec s "connect") as [->|Hc]; simpl.
  { by destruct (isValidConnectConfig (field "config" fields)). }
  destruct (String.eqb_spec s "connected") as [->|Hcd]; simpl.
  { unfold missing.
    by destruct (truthy_opt (field "userId" fields)),
         (is_array (field "channels" fields)). }
  destruct (String.eqb_spec s "error") as [->|He]; simpl.
  { unfold missing. by destruct (truthy_opt (field "message" fields)). }
  rewrite bool_decide_eq_false_2; [done|].
  unfold validTypes. intros Hin.
  repeat (apply elem_of_cons in Hin as [?|Hin]; [done|]).
  by apply not_elem_of_nil in Hin.
Qed.

Lemma isValidMessage_not_object (v : JValue) :
  (∀ fields, v ≠ JObj fields) → isValidMessage v = Normal false.
Proof.
  intros Hno. unfold isValidMessage, isValidMessageStructure.
  destruct v as [|b|n|s|items|fields]; simpl; try done.
  - by destruct b.
  - by destruct (n =? 0).
  - by destruct (String.eqb s "").
  - by destruct (Hno fields).
Qed.

Lemma isValidConnectConfig_present (config : option JValue) :
  isValidConnectConfig config = true → is_Some config.
Proof. destruct config; [by eexists|done]. Qed.

Lemma chat_payload_present (message : option JValue) :
  isValidChimeMessage_of message || isValidClientMessageInput message = true →
  is_Some message.
Proof. destruct message; [by eexists|done]. Qed.

Lemma isConnectMessage_object (fields : list (string * JValue)) :
  isConnectMessage (JObj fields)
  = Normal (is_literal "connect" (field "type" fields)
            && isValidConnectConfig (field "config" fields)).
Proof.
  unfold isConnectMessage. cbn [get_prop prop_of mbind Completion_bind mret Completion_ret]. f_equal.
  destruct (is_literal "connect" (field "type" fields)); simpl; [|done].
  unfold has_own. by destruct (field "config" fields) as [config|].
Qed.

Lemma isChatMessage_object (fields : list (string * JValue)) :
  isChatMessage (JObj fields)
  = Normal (is_literal "message" (field "type" fields)
            && (isValidChimeMessage_of (field "message" fields)
                || isValidClientMessageInput (field "message" fields))).
Proof.
  unfold isChatMessage. cbn [get_prop prop_of mbind Completion_bind mret Completion_ret]. f_equal.
  destruct (is_literal "message" (field "type" fields)); simpl; [|done].
  unfold has_own. by destruct (field "message" fields) as [message|].
Qed.

(** X17: [isValidMessage] answers on every JSON value, [null] included.  A
    message it accepts goes where its [type] says: one of type 'message'
    satisfies [isChatMessage], one of type 'connect' satisfies
    [isConnectMessage], and the accepted messages that satisfy neither
    are exactly those of type 'connected' or 'error'; there are such
    messages.  Whatever [isConnectMessage] or [isChatMessage] accepts,
    [isValidMessage] accepts, and no message satisfies both. *)
Theorem isValidMessage_dispatch (message : JValue) :
  (∃ b, isValidMessage message = Normal b)
  ∧ (isConnectMessage message = Normal true → isValidMessage message = Normal true)
  ∧ (isChatMessage message = Normal true → isValidMessage message = Normal true)
  ∧ (isValidMessage message = Normal true →
     (prop_of message "type" = Some (JStr "message") →
      isChatMessage message = Normal true)
     ∧ (prop_of message "type" = Some (JStr "connect") →
        isConnectMessage message = Normal true)
     ∧ (isConnectMessage message = Normal false
        ∧ isChatMessage message = Normal false
        ↔ prop_of message "type" = Some (JStr "connected")
          ∨ prop_of message "type" = Some (JStr "error")))
  ∧ ¬ (isConnectMessage message = Normal true ∧ isChatMessage message = Normal true)
  ∧ ∃ other, isValidMessage other = Normal true
             ∧ isConnectMessage other = Normal false
             ∧ isChatMessage other = Normal false.
Proof.
  assert (∃ other, isValidMessage other = Normal true
                   ∧ isConnectMessage other = Normal false
                   ∧ isChatMessage other = Normal false) as Hother
    by (by exists server_error).
  assert ((∃ fields, message = JObj fields) ∨ (∀ fields, message ≠ JObj fields))
    as [[fields ->]|Hno] by (destruct message; eauto).
  - rewrite isValidMessage_object, isConnectMessage_object, isChatMessage_object.
    cbn [prop_of].
    destruct (field "type" fields) as [[|b|n|s|items|fs]|]; cbn [is_literal andb];
      try (split; [by eexists|]; repeat split; intros; try done;
           intuition congruence).
    destruct (String.eqb_spec s "message") as [->|Hm]; simpl.
    { split; [by eexists|]. repeat split; intros; try done; intuition congruence. }
    destruct (String.eqb_spec s "connect") as [->|Hc]; simpl.
    { split; [by eexists|]. repeat split; intros; try done; intuition congruence. }
    split; [by eexists|].
    destruct (String.eqb_spec s "connected") as [->|Hcd];
      [repeat split; intros; try done; intuition congruence|].
    destruct (String.eqb_spec s "error") as [->|He];
      repeat split; intros; try done; intuition congruence.
  - rewrite isValidMessage_not_object by done.
    split; [by eexists|].
    destruct message as [|b|n|s|items|fields]; try (by destruct (Hno fields));
      repeat split; intros; try done; by intros [Hconnect _].
Qed.

Lemma isValidMessage_dispatch_witness :
  isValidMessage server_error = Normal true
  ∧ isConnectMessage server_error = Normal false
  ∧ isChatMessage server_error = Normal false.
Proof.
  split; [reflexivity|].
  apply (proj2 (proj2 (proj2 (proj1 (proj2 (proj2 (proj2
           (isValidMessage_dispatch server_error)))) eq_refl)))).
  by right.
Defined.

Lemma truthy_string (v : option JValue) :
  truthy_opt v = true → is_string v = true →
  ∃ s, v = Some (JStr s) ∧ s ≠ "".
Proof.
  destruct v as [[| | |s| |]|]; simpl; try done.
  intros Hs _. exists s. split; [done|]. intros ->. done.
Qed.

Lemma truthy_opt_Some (v : option JValue) :
  truthy_opt v = true → ∃ x, v = Some x ∧ truthy x = true.
Proof. destruct v as [x|]; [by exists x|done]. Qed.

(** X18: A message that [isChatMessage] accepts is of type 'message' and
    carries a payload whose [channelId] and [content] are both present
    and truthy; a payload that is not a complete message has them as
    non-empty strings. *)
Theorem isChatMessage_requirements (message : JValue) :
  isChatMessage message = Normal true →
  ∃ payload channelId content,
    prop_of message "type" = Some (JStr "message")
    ∧ prop_of message "message" = Some payload
    ∧ prop_of payload "channelId" = Some channelId ∧ truthy channelId = true
    ∧ prop_of payload "content" = Some content ∧ truthy content = true
    ∧ (isValidChimeMessage payload = true
       ∨ ∃ c t, channelId = JStr c ∧ content = JStr t ∧ c ≠ "" ∧ t ≠ "").
Proof.
  intros Hchat.
  assert (∃ fields, message = JObj fields) as [fields ->].
  { destruct message as [|b|n|s|items|fields]; try done. by exists fields. }
  rewrite isChatMessage_object in Hchat. injection Hchat as Hchat.
  apply andb_true_iff in Hchat as [Htype Hpayload].
  apply is_literal_spec in Htype. cbn [prop_of]. rewrite Htype.
  destruct (field "message" fields) as [payload|] eqn:Hfield; [|done].
  exists payload. cbn [isValidChimeMessage_of] in Hpayload.
  destruct (isValidChimeMessage payload) eqn:Hfull.
  - unfold isValidChimeMessage in Hfull.
    destruct (negb (truthy payload) || negb (typeof_object payload)); [done|].
    repeat (apply andb_true_iff in Hfull as [Hfull ?]).
    destruct (truthy_opt_Some (prop_of payload "channelId")) as (c & Hc & ?); [done|].
    destruct (truthy_opt_Some (prop_of payload "content")) as (t & Ht & ?); [done|].
    exists c, t. rewrite Hc, Ht. split_and!; try done. by left.
  - cbn [orb isValidClientMessageInput] in Hpayload.
    destruct (negb (truthy payload) || negb (typeof_object payload)); [done|].
    repeat (apply andb_true_iff in Hpayload as [Hpayload ?]).
    destruct (truthy_string (prop_of payload "channelId")) as (c & Hc & ?); [done..|].
    destruct (truthy_string (prop_of payload "content")) as (t & Ht & ?); [done..|].
    exists (JStr c), (JStr t). rewrite Hc, Ht. simpl.
    split_and!; try done.
    + by destruct (String.eqb_spec c "").
    + by destruct (String.eqb_spec t "").
    + right. by exists c, t.
Qed.

Lemma isChatMessage_requirements_witness :
  ∃ payload channelId content,
    prop_of client_chat "type" = Some (JStr "message")
    ∧ prop_of client_chat "message" = Some payload
    ∧ prop_of payload "channelId" = Some channelId ∧ truthy channelId = true
    ∧ prop_of payload "content" = Some content ∧ truthy content = true
    ∧ (isValidChimeMessage payload = true
       ∨ ∃ c t, channelId = JStr c ∧ content = JStr t ∧ c ≠ "" ∧ t ≠ "").
Proof. apply (isChatMessage_requirements client_chat). reflexivity. Defined.

(** X19: [isConnectMessage] accepts exactly the objects of type 'connect'
    whose [config] has a non-empty array of channels; nothing else of the
    configuration is looked at. *)
Theorem isConnectMessage_requirements (message : JValue) :
  isConnectMessage message = Normal true
  ↔ ∃ config channels,
      prop_of message "type" = Some (JStr "connect")
      ∧ prop_of message "config" = Some config
      ∧ prop_of config "channels" = Some (JArr channels)
      ∧ channels ≠ [].
Proof.
  split.
  - intros Hconnect.
    assert (∃ fields, message = JObj fields) as [fields ->].
    { destruct message as [|b|n|s|items|fields]; try done. by exists fields. }
    rewrite isConnectMessage_object in Hconnect. injection Hconnect as Hconnect.
    apply andb_true_iff in Hconnect as [Htype Hconfig].
    apply is_literal_spec in Htype. cbn [prop_of]. rewrite Htype.
    destruct (field "config" fields) as [config|]; [|done].
    cbn [isValidConnectConfig] in Hconfig.
    apply andb_true_iff in Hconfig as [_ Hchannels].
    destruct (prop_of config "channels") as [[| | | |channels|]|] eqn:Hfield;
      try done.
    exists config, channels. split_and!; try done.
    intros ->. apply bool_decide_eq_true in Hchannels. simpl in Hchannels. lia.
  - intros (config & channels & Htype & Hconfig & Hchannels & Hne).
    destruct message as [|b|n|s|items|fields]; try done.
    rewrite isConnectMessage_object. cbn [prop_of] in Htype, Hconfig.
    rewrite Htype, Hconfig. cbn [is_literal isValidConnectConfig].
    rewrite Hchannels. f_equal.
    destruct config; try done. simpl.
    apply bool_decide_eq_true. destruct channels; [done|simpl; lia].
Qed.

(** X20: [parseMessage] returns a value exactly when the text is JSON for a
    value with a known [type]; what it returns is an object on which
    none of the three checks throws.  Every failure is an [Error] whose
    text starts with 'Message parsing failed: ', and for JSON of another
    shape the text names the inner error with its own 'Error: '. *)
Theorem parseMessage_spec (rawData : WireText) :
  (∀ v, parseMessage rawData = Normal v
        ↔ JSON_parse rawData = Normal v ∧ isValidMessageStructure v = true)
  ∧ (∀ v, parseMessage rawData = Normal v →
       (∃ fields type, v = JObj fields ∧ field "type" fields = Some (JStr type)
                       ∧ type ∈ validTypes)
       ∧ (∃ b, isValidMessage v = Normal b)
       ∧ (∃ b, isConnectMessage v = Normal b)
       ∧ (∃ b, isChatMessage v = Normal b))
  ∧ (∀ e, parseMessage rawData = Thrown e →
       ∃ text, e = Error ("Message parsing failed: " +:+ text))
  ∧ (∀ v, JSON_parse rawData = Normal v → isValidMessageStructure v = false →
       parseMessage rawData
       = Thrown (Error "Message parsing failed: Error: Invalid message structure")).
Proof.
  assert (∀ v, parseMessage rawData = Normal v
               ↔ JSON_parse rawData = Normal v ∧ isValidMessageStructure v = true)
    as Hiff.
  { intros v. unfold parseMessage. destruct (JSON_parse rawData) as [parsed|e]; simpl.
    - destruct (isValidMessageStructure parsed) eqn:Hs; simpl.
      + split; [by intros [= ->]|by intros [[= ->] _]].
      + split; [done|]. intros [[= ->] ?]. congruence.
    - split; [done|by intros [? _]]. }
  split_and!; [done|..].
  - intros v [_ Hs]%Hiff. unfold isValidMessageStructure in Hs.
    destruct v as [|b|n|s|items|fields]; try done.
    { by destruct b. }
    { simpl in Hs. by destruct (n =? 0). }
    { simpl in Hs. by destruct (String.eqb s ""). }
    simpl in Hs. split_and!.
    + destruct (bool_decide (is_Some (field "type" fields))); [|done]. simpl in Hs.
      destruct (field "type" fields) as [[| | |type| |]|] eqn:Htype; try done.
      exists fields, type. by apply bool_decide_eq_true in Hs.
    + rewrite isValidMessage_object. by eexists.
    + rewrite isConnectMessage_object. by eexists.
    + rewrite isChatMessage_object. by eexists.
  - intros e. unfold parseMessage.
    destruct (JSON_parse rawData) as [parsed|e']; simpl.
    + destruct (isValidMessageStructure parsed); simpl; [done|].
      intros [= <-]. by eexists.
    + intros [= <-]. by eexists.
  - intros v Hparse Hs. unfold parseMessage. rewrite Hparse. simpl. by rewrite Hs.
Qed.

Lemma parseMessage_spec_witness :
  parseMessage (JSONText client_connect) = Normal client_connect
  ∧ parseMessage (JSONText channel_only)
    = Thrown (Error "Message parsing failed: Error: Invalid message structure").
Proof.
  split.
  - by apply (proj1 (parseMessage_spec (JSONText client_connect))).
  - by apply (proj2 (proj2 (proj2 (parseMessage_spec (JSONText channel_only))))
                channel_only).
Defined.

(** ** The write path, continued *)

Lemma length_append (s t : string) :
  String.length (s +:+ t) = (String.length s + String.length t)%nat.
Proof. induction s as [|a s IH]; simpl; [done|by rewrite IH]. Qed.

Lemma append_inj_r (s1 s2 t : string) : s1 +:+ t = s2 +:+ t → s1 = s2.
Proof.
  revert s2. induction s1 as [|a s1 IH]; intros [|a' s2] Heq; simpl in Heq.
  - done.
  - apply (f_equal String.length) in Heq.
    rewrite ?length_append in Heq. simpl in Heq. rewrite ?length_append in Heq. lia.
  - apply (f_equal String.length) in Heq.
    rewrite ?length_append in Heq. simpl in Heq. rewrite ?length_append in Heq. lia.
  - injection Heq as -> Heq. f_equal. by apply IH.
Qed.

Lemma counter_key_inj (c c' : string) :
  MessageIDService.counter_key c = MessageIDService.counter_key c' → c = c'.
Proof.
  unfold MessageIDService.counter_key. intros Heq.
  apply String.app_inj in Heq. by apply append_inj_r in Heq.
Qed.

(** Up to 2^53, different ids have different texts. *)
Lemma toString_inj (n n' : Z) :
  Z.abs n ≤ 2 ^ 53 → Z.abs n' ≤ 2 ^ 53 →
  toString (to_Number n) = toString (to_Number n') → n = n'.
Proof.
  intros Hn Hn' Heq. apply (f_equal parseInt) in Heq.
  rewrite !parseInt_toString in Heq by done. by injection Heq.
Qed.

(** X21: A call of [saveMessage] that meets no failure returns the message it
    stored: the messageId is the text of the Number the client made of
    the counter of the channel plus one, which reads back as that integer
    while it is at most 2^53 in size; the date is the clock; the row
    under (channelId, messageId) has the fields of the message.  The
    counters of the other channels, the other rows and the clock are as
    they were, and the calls were made in the order INCR, date, INSERT. *)
Theorem saveMessage_success_effect (env : Faults) (b : Backend)
    (channelId userId content : string) :
  let key := MessageIDService.counter_key channelId in
  let id := counter b key + 1 in
  let r := run env (MessageService.saveMessage channelId userId content) b in
  incr_fault env key = None →
  execute_fault env (row_of channelId userId content id (clock b)) = None →
  ∃ m, result r = Normal m
    ∧ m = message_of channelId userId content id (clock b)
    ∧ messageId m = toString (to_Number id)
    ∧ (Z.abs id ≤ 2 ^ 53 → parseInt (messageId m) = Some id)
    ∧ messages (state_after r) !! (channelId, messageId m) = Some (row_of_message m)
    ∧ counter (state_after r) key = id
    ∧ (∀ c', c' ≠ channelId →
         counter (state_after r) (MessageIDService.counter_key c')
         = counter b (MessageIDService.counter_key c'))
    ∧ (∀ k, k ≠ (channelId, messageId m) →
         messages (state_after r) !! k = messages b !! k)
    ∧ clock (state_after r) = clock b
    ∧ trace r = [CallIncr key; CallNow; CallExecute (row_of_message m)].
Proof.
  intros key id r Hincr Hexec. subst r.
  rewrite saveMessage_success by done. fold key id.
  exists (message_of channelId userId content id (clock b)).
  unfold result, state_after, trace. cbn [fst snd messages clock messageId message_of].
  split_and!; try done.
  - apply parseInt_toString.
  - by rewrite lookup_insert_eq.
  - unfold counter. cbn [counters]. by rewrite lookup_insert_eq.
  - intros c' Hne. unfold counter. cbn [counters].
    rewrite lookup_insert_ne; [done|].
    intros Heq. by apply counter_key_inj in Heq.
  - intros k Hne. by rewrite lookup_insert_ne.
Qed.

Lemma saveMessage_success_effect_witness :
  ∃ m, result (run no_faults (MessageService.saveMessage "general" "u1" "hi")
                 fresh_backend) = Normal m
       ∧ messageId m = "1".
Proof.
  destruct (saveMessage_success_effect no_faults fresh_backend "general" "u1" "hi")
    as (m & Hres & -> & _); [reflexivity|reflexivity|].
  exists (message_of "general" "u1" "hi" (counter fresh_backend
            (MessageIDService.counter_key "general") + 1) (clock fresh_backend)).
  split; [exact Hres|reflexivity].
Defined.

(** *** Callers side by side, continued *)

(** Under ids that increase strictly, an id was given to one caller. *)
Lemma alloc_owner (labels : list Label) (key : string) (id : Z) (i j : nat) :
  StronglySorted Z.lt (ids_for key labels) →
  LIncr i key (Normal id) ∈ labels → LIncr j key (Normal id) ∈ labels → i = j.
Proof.
  induction labels as [|l labels IH]; intros Hsorted Hi Hj.
  - by apply not_elem_of_nil in Hi.
  - change (l :: labels) with ([l] ++ labels) in Hsorted.
    rewrite ids_for_app in Hsorted.
    apply StronglySorted_app in Hsorted as (Hcross & _ & Hrest).
    apply elem_of_cons in Hi as [Hi|Hi], Hj as [Hj|Hj].
    + congruence.
    + subst l. exfalso. apply (Z.lt_irrefl id). apply Hcross.
      * eapply ids_for_label. apply list_elem_of_here.
      * by eapply ids_for_label.
    + subst l. exfalso. apply (Z.lt_irrefl id). apply Hcross.
      * eapply ids_for_label. apply list_elem_of_here.
      * by eapply ids_for_label.
    + by apply IH.
Qed.

Lemma thread_ok_Execute_params (labels : list Label) (i : nat) (params : Row)
    (k : Completion unit → Prog ChimeMessage) :
  thread_ok labels i (Execute params k) →
  ∃ c u ct id t, params = row_of c u ct id t ∧ k = after_execute c u ct id t
                 ∧ allocs_of i labels = [(MessageIDService.counter_key c, id)].
Proof.
  intros [(c & u & ct & Hp & Hnone)|[(e & Hp)|(c & u & ct & id & Hone & Hp)]].
  - discriminate.
  - discriminate.
  - destruct Hp as [Hp|[[t Hp]|[t Hp]]]; try discriminate.
    rewrite after_now_unfold in Hp. injection Hp as -> ->. by exists c, u, ct, id, t.
Qed.

(** Two callers that both got a message back were given different
    keys of the table. *)
Lemma returned_keys_distinct (b : Backend) (pool : list (Prog ChimeMessage))
    (labels : list Label) (i j : nat) (key : string) (id : Z) :
  system_ok b pool labels →
  allocs_of i labels = [(key, id)] → allocs_of j labels = [(key, id)] → i = j.
Proof.
  intros (_ & _ & Hids) Hi Hj.
  apply (alloc_owner labels key id).
  - apply Hids.
  - apply allocs_of_label. rewrite Hi. apply list_elem_of_here.
  - apply allocs_of_label. rewrite Hj. apply list_elem_of_here.
Qed.

Lemma stored_ok_update (b b' : Backend) (pool : list (Prog ChimeMessage))
    (i : nat) (p : Prog ChimeMessage) :
  stored_ok b pool → messages b' = messages b →
  (∀ m, p ≠ Ret m) → stored_ok b' (<[i := p]> pool).
Proof.
  intros Hstored Hsame Hp j m Hj. rewrite Hsame.
  destruct (decide (i = j)) as [->|Hne].
  - apply list_lookup_insert_Some in Hj as [(_ & Heq & _)|[? _]]; [|done].
    by destruct (Hp m).
  - rewrite list_lookup_insert_ne in Hj by done. by eapply Hstored.
Qed.

Lemma step_stores (b b' : Backend) (pool pool' : list (Prog ChimeMessage))
    (labels : list Label) (l : Label) :
  system_ok b pool labels → stored_ok b pool →
  (∀ i key id, allocs_of i labels = [(key, id)] → Z.abs id ≤ 2 ^ 53) →
  step (b, pool) l (b', pool') → stored_ok b' pool'.
Proof.
  intros Hok Hstored Hexact Hstep. pose proof Hok as (Hthreads & _ & _).
  inversion Hstep as
    [b0 pool0 c u ct
    |b0 pool0 i key k fault Hi
    |b0 pool0 i k Hi
    |b0 pool0 i params k fault Hi
    |b0 pool0 t Ht]; subst.
  - intros j m Hj. apply lookup_app_Some in Hj as [Hj|[_ Hj]]; [by eapply Hstored|].
    apply list_lookup_singleton_Some in Hj as [_ Hj]. discriminate.
  - destruct (thread_ok_Incr _ _ _ _ (Hthreads _ _ Hi)) as (c & u & ct & -> & -> & _).
    eapply stored_ok_update; [exact Hstored|by destruct fault|].
    intros m. by destruct (redis_incr fault _ b).1.
  - destruct (thread_ok_Now _ _ _ (Hthreads _ _ Hi)) as (c & u & ct & id & -> & _).
    eapply stored_ok_update; [exact Hstored|done|done].
  - destruct (thread_ok_Execute_params _ _ _ _ (Hthreads _ _ Hi))
      as (c & u & ct & id & t & -> & -> & Hone).
    destruct fault as [e|]; [eapply stored_ok_update; [exact Hstored|done|done]|].
    cbn [cassandra_execute fst snd]. rewrite after_execute_normal.
    intros j m Hj. cbn [messages channel_id message_id row_of].
    destruct (decide (i = j)) as [->|Hne].
    + apply list_lookup_insert_Some in Hj as [(_ & Heq & _)|[? _]]; [|done].
      injection Heq as <-. by rewrite lookup_insert_eq.
    + rewrite list_lookup_insert_ne in Hj by done.
      rewrite lookup_insert_ne; [by eapply Hstored|].
      intros [= Hc Hid].
      destruct (thread_ok_Ret _ _ _ (Hthreads _ _ Hj)) as (id' & Hid' & Hone').
      rewrite Hid' in Hid.
      apply toString_inj in Hid; [|by eapply Hexact..]. subst id'.
      rewrite <- Hc in Hone'.
      by pose proof (returned_keys_distinct _ _ _ _ _ _ _ Hok Hone Hone').
  - intros j m Hj. by eapply Hstored.
Qed.

(** The ids given out are at most 2^53 in size when the counters
    started at -2^53 or above and have not passed 2^53. *)
Lemma given_ids_exact (b0 b : Backend) (pool : list (Prog ChimeMessage))
    (labels : list Label) :
  reachable b0 b pool labels →
  (∀ key, - 2 ^ 53 ≤ counter b0 key) → (∀ key, counter b key ≤ 2 ^ 53) →
  ∀ i key id, allocs_of i labels = [(key, id)] → Z.abs id ≤ 2 ^ 53.
Proof.
  intros Hreach Hlow Hhigh i key id Hone.
  pose proof (given_id_range _ _ _ _ _ _ _ Hreach Hone).
  specialize (Hlow key). specialize (Hhigh key). lia.
Qed.

Lemma reachable_stored (b0 b : Backend) (pool : list (Prog ChimeMessage))
    (labels : list Label) :
  reachable b0 b pool labels →
  (∀ key, - 2 ^ 53 ≤ counter b0 key) → (∀ key, counter b key ≤ 2 ^ 53) →
  stored_ok b pool.
Proof.
  induction 1 as [|b pool labels l b' pool' Hreach IH Hstep]; intros Hlow Hhigh.
  - intros i m Hi. by rewrite lookup_nil in Hi.
  - assert (∀ key, counter b key ≤ 2 ^ 53) as Hbefore.
    { intros key. pose proof (step_counter_mono _ _ _ _ _ key Hstep).
      specialize (Hhigh key). lia. }
    eapply step_stores; [by eapply reachable_ok|by apply IH| |done].
    by eapply given_ids_exact.
Qed.

(** X22: Whatever the steps of the callers, while the counters, started
    at -2^53 or above, have not passed 2^53: a message that [saveMessage]
    returned is in the table under its (channelId, messageId), with its
    own user, content and date: no other call has written over it.  Two
    calls that returned never share a (channelId, messageId). *)
Theorem returned_messages_stored (b0 b : Backend) (pool : list (Prog ChimeMessage))
    (labels : list Label) :
  reachable b0 b pool labels →
  (∀ key, - 2 ^ 53 ≤ counter b0 key) → (∀ key, counter b key ≤ 2 ^ 53) →
  (∀ i m, pool !! i = Some (Ret m) →
          messages b !! (channelId m, messageId m) = Some (row_of_message m))
  ∧ (∀ i j m m', pool !! i = Some (Ret m) → pool !! j = Some (Ret m') →
       channelId m = channelId m' → messageId m = messageId m' → i = j).
Proof.
  intros Hreach Hlow Hhigh.
  split; [by apply (reachable_stored b0 b pool labels)|].
  intros i j m m' Hi Hj Hc Hid.
  pose proof (reachable_ok _ _ _ _ Hreach) as Hok.
  pose proof Hok as (Hthreads & _ & _).
  destruct (thread_ok_Ret _ _ _ (Hthreads _ _ Hi)) as (id & Hmid & Hone).
  destruct (thread_ok_Ret _ _ _ (Hthreads _ _ Hj)) as (id' & Hmid' & Hone').
  rewrite Hmid, Hmid' in Hid.
  apply toString_inj in Hid; [|by eapply given_ids_exact..]. subst id'.
  rewrite <- Hc in Hone'.
  by eapply returned_keys_distinct.
Qed.

Lemma returned_messages_stored_witness :
  let st := play race (fresh_backend, [], []) in
  messages st.1.1 !! ("general", "2")
  = Some (row_of "general" "u1" "hi" 2 (clock fresh_backend)).
Proof.
  intros st.
  assert (∀ key, counter st.1.1 key ≤ 2 ^ 53) as Hhigh.
  { intros key. unfold counter.
    assert (counters st.1.1 = {[ MessageIDService.counter_key "general" := 2 ]})
      as -> by (vm_compute; reflexivity).
    destruct (decide (key = MessageIDService.counter_key "general")) as [->|Hne].
    - rewrite lookup_singleton_eq. simpl. lia.
    - rewrite lookup_singleton_ne by done. simpl. lia. }
  apply (proj1 (returned_messages_stored fresh_backend st.1.1 st.1.2 st.2
                  ltac:(apply play_reachable; constructor)
                  ltac:(intros key; unfold counter; simpl; rewrite lookup_empty;
                        simpl; lia)
                  Hhigh)
           0%nat (message_of "general" "u1" "hi" 2 (clock fresh_backend))).
  reflexivity.
Defined.

Example toISOString_samples :
  toISOString 0 = "1970-01-01T00:00:00.000Z"
  ∧ toISOString 1672531200000 = "2023-01-01T00:00:00.000Z"
  ∧ toISOString 951825600123 = "2000-02-29T12:00:00.123Z"
  ∧ toISOString 1709251199999 = "2024-02-29T23:59:59.999Z"
  ∧ toISOString (-1) = "1969-12-31T23:59:59.999Z"
  ∧ toISOString 253402300800000 = "+010000-01-01T00:00:00.000Z"
  ∧ toISOString (-62198755200000) = "-000001-01-01T00:00:00.000Z".
Proof. vm_compute. repeat split. Qed.

(** ** Publishing *)

Lemma toISOString_nonempty (t : Z) : toISOString t ≠ "".
Proof.
  unfold toISOString. destruct (civil_from_days (t / 86400000)) as [[y m] d].
  by apply append_nonempty.
Qed.

Lemma truthy_JStr (s : string) : truthy (JStr s) = true ↔ s ≠ "".
Proof.
  simpl. destruct (String.eqb_spec s "") as [->|Hne]; simpl; [split; done|done].
Qed.

Lemma toJSON_fields (m : ChimeMessage) :
  prop_of (toJSON m) "channelId" = Some (JStr (channelId m))
  ∧ prop_of (toJSON m) "messageId" = Some (JStr (messageId m))
  ∧ prop_of (toJSON m) "userId" = Some (JStr (userId m))
  ∧ prop_of (toJSON m) "content" = Some (JStr (content m))
  ∧ prop_of (toJSON m) "createdAt" = Some (JStr (toISOString (createdAt m))).
Proof. by split_and!. Qed.

(** What [isValidChimeMessage] says of the JSON of a message. *)
Lemma isValidChimeMessage_toJSON (m : ChimeMessage) :
  isValidChimeMessage (toJSON m) = true
  ↔ channelId m ≠ "" ∧ messageId m ≠ "" ∧ userId m ≠ "" ∧ content m ≠ "".
Proof.
  destruct (toJSON_fields m) as (Hc & Hm & Hu & Hct & Hd).
  unfold isValidChimeMessage. rewrite Hc, Hm, Hu, Hct, Hd.
  cbn [toJSON truthy typeof_object negb orb truthy_opt].
  rewrite !andb_true_iff.
  pose proof (toISOString_nonempty (createdAt m)) as Hdate.
  apply truthy_JStr in Hdate.
  rewrite <- (truthy_JStr (channelId m)), <- (truthy_JStr (messageId m)),
    <- (truthy_JStr (userId m)), <- (truthy_JStr (content m)).
  tauto.
Qed.

(** X24: [publish] before the client is ready throws and calls nothing.
    Otherwise it calls [client.publish] once, on the topic that is the
    channelId of the message, with a payload that parses back to the
    message with that channelId; it returns if the call does, and fails
    with 'Failed to broadcast message: ' and the text of the error if the
    call fails.  The payload is a complete message for
    [isValidChimeMessage] exactly when no text field of it is empty. *)
Theorem publish_behaviour (bus : MessageBroadcastService.t) (m : ChimeMessage) :
  let r := MessageBroadcastService.publish m bus in
  (MessageBroadcastService.isReady bus = false →
   r = (Thrown (Error "Broadcast not initialized before call"), []))
  ∧ (MessageBroadcastService.isReady bus = true →
     ∃ payload v,
       r.2 = [(channelId m, payload)]
       ∧ JSON_parse payload = Normal v
       ∧ prop_of v "channelId" = Some (JStr (channelId m))
       ∧ prop_of v "messageId" = Some (JStr (messageId m))
       ∧ (isValidChimeMessage v = true
          ↔ channelId m ≠ "" ∧ messageId m ≠ "" ∧ userId m ≠ "" ∧ content m ≠ "")
       ∧ (MessageBroadcastService.client_publish bus (channelId m) payload = Normal tt →
          r.1 = Normal tt)
       ∧ (∀ e, MessageBroadcastService.client_publish bus (channelId m) payload
               = Thrown e →
               r.1 = Thrown (Error ("Failed to broadcast message: "
                                    +:+ error_message e)))).
Proof.
  intros r. subst r. unfold MessageBroadcastService.publish. split.
  - by intros ->.
  - intros ->. cbn [negb].
    exists (JSON_stringify (toJSON m)), (toJSON m).
    split_and!; try done.
    + by destruct (MessageBroadcastService.client_publish bus _ _).
    + apply isValidChimeMessage_toJSON.
    + by intros ->.
    + by intros e ->.
Qed.

Lemma publish_behaviour_witness :
  MessageBroadcastService.publish
    (message_of "general" "u1" "hi" 1 (clock fresh_backend))
    {| MessageBroadcastService.isReady := false;
       MessageBroadcastService.client_publish := λ _ _, Normal tt |}
  = (Thrown (Error "Broadcast not initialized before call"), []).
Proof.
  by apply (proj1 (publish_behaviour
                     {| MessageBroadcastService.isReady := false;
                        MessageBroadcastService.client_publish := λ _ _, Normal tt |}
                     (message_of "general" "u1" "hi" 1 (clock fresh_backend)))).
Defined.

(** X25: From a client's text to the sockets: a call of [saveMessage] that
    meets no failure returns a message that [publish] sends on the topic
    of its channel; the subscriber that receives that payload hands it to
    the handler of the channel, or with no handler sends its envelope to
    the members of the channel, each in turn, and is left as it was.
    With a channel, a user and a text that are not empty, the payload is
    a complete message and its envelope is a chat message for the checks
    of the server. *)
Theorem saved_message_fanout (env : Faults) (backend : Backend)
    (bus : MessageBroadcastService.t) (s : MessageSubscriberService.t)
    (c u ct : string) :
  let key := MessageIDService.counter_key c in
  let id := counter backend key + 1 in
  let m := message_of c u ct id (clock backend) in
  let payload := JSON_stringify (toJSON m) in
  incr_fault env key = None →
  execute_fault env (row_of c u ct id (clock backend)) = None →
  MessageBroadcastService.isReady bus = true →
  MessageBroadcastService.client_publish bus c payload = Normal tt →
  result (run env (MessageService.saveMessage c u ct) backend) = Normal m
  ∧ MessageBroadcastService.publish m bus = (Normal tt, [(c, payload)])
  ∧ (let r := MessageSubscriberService.onRedisMessage payload c s in
     result r = Normal tt
     ∧ state_after r = s
     ∧ (∀ h, map_get (KStr c) (MessageSubscriberService.messageHandlers s) = Some h →
             trace r = [EvHandler (handlerName h) (toJSON m)])
     ∧ (map_get (KStr c) (MessageSubscriberService.messageHandlers s) = None →
        trace r
        = concat (List.map (λ u', delivery s u' (toJSON m))
                    (ChannelManager.getUsersInChannel c
                       (MessageSubscriberService.channelManager s)))
        ∧ sendToUser_calls (trace r)
          = (λ u', (u', toJSON m)) <$>
              ChannelManager.getUsersInChannel c
                (MessageSubscriberService.channelManager s)))
  ∧ (c ≠ "" → u ≠ "" → ct ≠ "" →
     isValidChimeMessage (toJSON m) = true
     ∧ ∃ v, JSON_parse (envelope (toJSON m)) = Normal v
            ∧ isValidMessage v = Normal true
            ∧ isChatMessage v = Normal true).
Proof.
  intros key id m payload Hincr Hexec Hready Hpublish. split_and!.
  - by rewrite saveMessage_success.
  - unfold MessageBroadcastService.publish. rewrite Hready. cbn [negb].
    change (channelId m) with c. fold payload. by rewrite Hpublish.
  - intros r. subst r. rewrite onRedisMessage_run.
    unfold result, state_after, trace. cbn [fst snd].
    change (payload_trace s payload) with (dispatch_trace s (toJSON m)).
    unfold dispatch_trace, handler_for, recipients.
    change (prop_of (toJSON m) "channelId") with (Some (JStr c)).
    cbn [MessageSubscriberService.as_key].
    split; [done|]. split; [done|]. split.
    + by intros h ->.
    + intros ->. split; [done|]. apply broadcast_sendToUser_calls.
  - intros Hc Hu Hct.
    assert (isValidChimeMessage (toJSON m) = true) as Hvalid.
    { apply isValidChimeMessage_toJSON. split_and!; try done.
      apply toString_nonempty. }
    split; [done|].
    exists (JObj [("type", JStr "message"); ("message", toJSON m)]).
    split; [done|].
    rewrite isValidMessage_object, isChatMessage_object.
    set (fields := [("type", JStr "message"); ("message", toJSON m)]).
    assert (field "type" fields = Some (JStr "message")) as -> by reflexivity.
    assert (field "message" fields = Some (toJSON m)) as -> by reflexivity.
    cbn [isValidChimeMessage_of]. rewrite Hvalid. by split.
Qed.

Lemma saved_message_fanout_witness :
  let m := message_of "general" "u1" "hi" 1 (clock fresh_backend) in
  result (run no_faults (MessageService.saveMessage "general" "u1" "hi")
            fresh_backend) = Normal m
  ∧ MessageBroadcastService.publish m bus_ready
    = (Normal tt, [("general", JSON_stringify (toJSON m))])
  ∧ sendToUser_calls
      (trace (MessageSubscriberService.onRedisMessage
                (JSON_stringify (toJSON m)) "general" (service_general true)))
    = [("u1", toJSON m); ("u2", toJSON m)].
Proof.
  intros m.
  destruct (saved_message_fanout no_faults fresh_backend bus_ready
              (service_general true) "general" "u1" "hi")
    as (Hsave & Hpublish & (_ & _ & _ & Hfan) & _); try reflexivity.
  split; [exact Hsave|]. split; [exact Hpublish|].
  destruct Hfan as [_ Hcalls]; [reflexivity|]. exact Hcalls.
Defined.

(** ** ChimeRedisClient and ServiceContainer *)

(** X26: The wait before a reconnection is 50 ms for each failed one, up to
    500 ms: it never decreases, grows by at most 50 ms from one retry to
    the next, and stays at 500 ms from the tenth on. *)
Theorem reconnectStrategy_bounds (retries : Z) :
  0 ≤ retries →
  0 ≤ ChimeRedisClient.reconnectStrategy retries ≤ 500
  ∧ (retries ≤ 10 → ChimeRedisClient.reconnectStrategy retries = 50 * retries)
  ∧ (10 ≤ retries → ChimeRedisClient.reconnectStrategy retries = 500)
  ∧ 0 ≤ ChimeRedisClient.reconnectStrategy (retries + 1)
        - ChimeRedisClient.reconnectStrategy retries ≤ 50
  ∧ ∀ later, retries ≤ later →
      ChimeRedisClient.reconnectStrategy retries
      ≤ ChimeRedisClient.reconnectStrategy later.
Proof.
  intros Hpos. unfold ChimeRedisClient.reconnectStrategy. split_and!; try lia.
Qed.

Lemma reconnectStrategy_bounds_witness :
  ChimeRedisClient.reconnectStrategy 3 = 50 * 3.
Proof.
  apply (proj1 (proj2 (reconnectStrategy_bounds 3 ltac:(lia)))). lia.
Defined.


Lemma subscriber_connect_cases (s : MessageSubscriberService.t) :
  MessageSubscriberService.connect s
  = if succeeds (MessageSubscriberService.redis s RConnect)
    then (Normal tt, MessageSubscriberService.set_isConnected true s, [])
    else (Thrown (Error "Redis client not connected"), s, []).
Proof.
  unfold MessageSubscriberService.connect, MessageSubscriberService.redis_call,
    MessageSubscriberService.eval.
  run_M. by destruct (MessageSubscriberService.redis s RConnect) as [[]|e].
Qed.

Lemma subscriber_disconnect_cases (s : MessageSubscriberService.t) :
  MessageSubscriberService.disconnect s
  = if MessageSubscriberService.isConnected s then
      match MessageSubscriberService.redis s RDisconnect with
      | Normal _ =>
          (Normal tt,
           MessageSubscriberService.set_subscribedChannels []
             (MessageSubscriberService.set_isConnected false s), [])
      | Thrown e => (Thrown e, s, [])
      end
    else (Normal tt, s, []).
Proof.
  unfold MessageSubscriberService.disconnect, MessageSubscriberService.redis_call,
    MessageSubscriberService.eval.
  run_M. destruct (MessageSubscriberService.isConnected s); [|done].
  simpl. by destruct (MessageSubscriberService.redis s RDisconnect) as [[]|e].
Qed.

Lemma container_connect_run (s : ServiceContainer.t) :
  let m := ChimeRedisClient.getClient (ServiceContainer.messageService s) in
  let b := ChimeRedisClient.getClient (ServiceContainer.broadcastService s) in
  let sub := ServiceContainer.subscriberService s in
  let failed := Thrown (Error "Redis client not connected") in
  ServiceContainer.connect s
  = if succeeds (ChimeRedisClient.client_connect m) then
      if succeeds (ChimeRedisClient.client_connect b) then
        if succeeds (MessageSubscriberService.redis sub RConnect) then
          (Normal tt,
           {| ServiceContainer.messageService := m;
              ServiceContainer.broadcastService := b;
              ServiceContainer.subscriberService :=
                MessageSubscriberService.set_isConnected true sub |},
           [(MessageSvc, RConnect); (BroadcastSvc, RConnect); (SubscriberSvc, RConnect)])
        else
          (failed,
           {| ServiceContainer.messageService := m;
              ServiceContainer.broadcastService := b;
              ServiceContainer.subscriberService := sub |},
           [(MessageSvc, RConnect); (BroadcastSvc, RConnect); (SubscriberSvc, RConnect)])
      else
        (failed,
         {| ServiceContainer.messageService := m;
            ServiceContainer.broadcastService := b;
            ServiceContainer.subscriberService := sub |},
         [(MessageSvc, RConnect); (BroadcastSvc, RConnect)])
    else
      (failed,
       {| ServiceContainer.messageService := m;
          ServiceContainer.broadcastService := ServiceContainer.broadcastService s;
          ServiceContainer.subscriberService := sub |},
       [(MessageSvc, RConnect)]).
Proof.
  destruct s as [[hm cm dm] [hb cb db] sub].
  unfold ServiceContainer.connect, ServiceContainer.and_then,
    ServiceContainer.messageService_connect, ServiceContainer.broadcastService_init,
    ServiceContainer.subscriberService_connect, ChimeRedisClient.connect,
    ChimeRedisClient.getClient, ChimeRedisClient.set_has_client.
  set (subscriber_connect := MessageSubscriberService.connect).
  destruct cm as [[]|em]; [|done].
  destruct cb as [[]|eb]; [|done].
  cbn. subst subscriber_connect. rewrite subscriber_connect_cases.
  by destruct (succeeds (MessageSubscriberService.redis sub RConnect)).
Qed.

Lemma container_disconnect_run (s : ServiceContainer.t) :
  MessageSubscriberService.redis (ServiceContainer.subscriberService s) RDisconnect
  = Normal tt →
  ChimeRedisClient.client_disconnect (ServiceContainer.broadcastService s) = Normal tt →
  ChimeRedisClient.client_disconnect (ServiceContainer.messageService s) = Normal tt →
  let sub := ServiceContainer.subscriberService s in
  ServiceContainer.disconnect s
  = (Normal tt,
     {| ServiceContainer.messageService :=
          ChimeRedisClient.set_has_client false (ServiceContainer.messageService s);
        ServiceContainer.broadcastService :=
          ChimeRedisClient.set_has_client false (ServiceContainer.broadcastService s);
        ServiceContainer.subscriberService :=
          if MessageSubscriberService.isConnected sub
          then MessageSubscriberService.set_subscribedChannels []
                 (MessageSubscriberService.set_isConnected false sub)
          else sub |},
     (if MessageSubscriberService.isConnected sub
      then [(SubscriberSvc, RDisconnect)] else [])
     ++ (if ChimeRedisClient.has_client (ServiceContainer.broadcastService s)
         then [(BroadcastSvc, RDisconnect)] else [])
     ++ (if ChimeRedisClient.has_client (ServiceContainer.messageService s)
         then [(MessageSvc, RDisconnect)] else [])).
Proof.
  destruct s as [[hm cm dm] [hb cb db] sub].
  cbn [ServiceContainer.messageService ServiceContainer.broadcastService
       ServiceContainer.subscriberService ChimeRedisClient.client_disconnect
       ChimeRedisClient.has_client].
  intros Hbus -> ->.
  unfold ServiceContainer.disconnect, ServiceContainer.and_then,
    ServiceContainer.subscriberService_disconnect,
    ServiceContainer.broadcastService_disconnect,
    ServiceContainer.messageService_disconnect, ChimeRedisClient.disconnect,
    ChimeRedisClient.set_has_client.
  cbn [ServiceContainer.subscriberService].
  rewrite subscriber_disconnect_cases, Hbus.
  by destruct (MessageSubscriberService.isConnected sub), hb, hm.
Qed.

(** X27: [ServiceContainer.connect] connects the message service, the
    broadcast service and the subscriber in this order and stops at the
    first that fails: the calls made are those up to that one, the error
    is "Redis client not connected" whatever the cause, and no service
    connected before is disconnected again.  It returns exactly when all
    three connected, and only then has it marked the subscriber
    connected. *)
Theorem container_connect (s : ServiceContainer.t) :
  let r := ServiceContainer.connect s in
  let message := succeeds (ChimeRedisClient.client_connect
                             (ServiceContainer.messageService s)) in
  let broadcast := succeeds (ChimeRedisClient.client_connect
                               (ServiceContainer.broadcastService s)) in
  let subscriber := succeeds (MessageSubscriberService.redis
                                (ServiceContainer.subscriberService s) RConnect) in
  result r = (if message && broadcast && subscriber then Normal tt
              else Thrown (Error "Redis client not connected"))
  ∧ trace r = (MessageSvc, RConnect)
              :: (if message
                  then (BroadcastSvc, RConnect)
                       :: (if broadcast then [(SubscriberSvc, RConnect)] else [])
                  else [])
  ∧ ServiceContainer.subscriberService (state_after r)
    = (if message && broadcast && subscriber
       then MessageSubscriberService.set_isConnected true
              (ServiceContainer.subscriberService s)
       else ServiceContainer.subscriberService s)
  ∧ ChimeRedisClient.has_client (ServiceContainer.messageService (state_after r))
    = true
  ∧ ChimeRedisClient.has_client (ServiceContainer.broadcastService (state_after r))
    = ChimeRedisClient.has_client (ServiceContainer.broadcastService s) || message.
Proof.
  intros r message broadcast subscriber. subst r message broadcast subscriber.
  rewrite container_connect_run.
  destruct s as [[hm cm dm] [hb cb db] sub].
  cbn [ServiceContainer.messageService ServiceContainer.broadcastService
       ServiceContainer.subscriberService ChimeRedisClient.client_connect
       ChimeRedisClient.getClient ChimeRedisClient.set_has_client
       ChimeRedisClient.has_client].
  destruct (succeeds cm), (succeeds cb),
    (succeeds (MessageSubscriberService.redis sub RConnect)); cbn;
    rewrite ?orb_true_r, ?orb_false_r; done.
Qed.

(** X28: [ServiceContainer.disconnect] goes the other way round: the
    subscriber, if it is connected, then the broadcast service and the
    message service, each if it has made its client.  When the
    subscriber fails to disconnect, the error of that call comes out and
    the two other services are not disconnected.  After a [connect],
    successful or not, a [disconnect] whose calls succeed leaves nothing
    connected: it also disconnects the client whose connection had
    failed. *)
Theorem container_disconnect (s : ServiceContainer.t) :
  let r := ServiceContainer.disconnect s in
  let sub := ServiceContainer.subscriberService s in
  (∀ e, MessageSubscriberService.isConnected sub = true →
        MessageSubscriberService.redis sub RDisconnect = Thrown e →
        r = (Thrown e, s, [(SubscriberSvc, RDisconnect)]))
  ∧ (MessageSubscriberService.redis sub RDisconnect = Normal tt →
     ChimeRedisClient.client_disconnect (ServiceContainer.broadcastService s)
     = Normal tt →
     ChimeRedisClient.client_disconnect (ServiceContainer.messageService s)
     = Normal tt →
     result r = Normal tt
     ∧ trace r
       = (if MessageSubscriberService.isConnected sub
          then [(SubscriberSvc, RDisconnect)] else [])
         ++ (if ChimeRedisClient.has_client (ServiceContainer.broadcastService s)
             then [(BroadcastSvc, RDisconnect)] else [])
         ++ (if ChimeRedisClient.has_client (ServiceContainer.messageService s)
             then [(MessageSvc, RDisconnect)] else [])
     ∧ ChimeRedisClient.has_client (ServiceContainer.messageService (state_after r))
       = false
     ∧ ChimeRedisClient.has_client (ServiceContainer.broadcastService (state_after r))
       = false
     ∧ MessageSubscriberService.isConnected
         (ServiceContainer.subscriberService (state_after r)) = false
     ∧ (MessageSubscriberService.isConnected sub = true →
        MessageSubscriberService.subscribedChannels
          (ServiceContainer.subscriberService (state_after r)) = []))
  ∧ (MessageSubscriberService.redis sub RDisconnect = Normal tt →
     ChimeRedisClient.client_disconnect (ServiceContainer.broadcastService s)
     = Normal tt →
     ChimeRedisClient.client_disconnect (ServiceContainer.messageService s)
     = Normal tt →
     let r' := ServiceContainer.disconnect (state_after (ServiceContainer.connect s)) in
     result r' = Normal tt
     ∧ (MessageSvc, RDisconnect) ∈ trace r'
     ∧ (succeeds (ChimeRedisClient.client_connect (ServiceContainer.messageService s))
        = true → (BroadcastSvc, RDisconnect) ∈ trace r')
     ∧ MessageSubscriberService.isConnected
         (ServiceContainer.subscriberService (state_after r')) = false).
Proof.
  intros r sub. subst r sub. split_and!.
  - intros e Hcon Hbus.
    unfold ServiceContainer.disconnect, ServiceContainer.and_then,
      ServiceContainer.subscriberService_disconnect.
    rewrite subscriber_disconnect_cases, Hcon, Hbus. by destruct s.
  - intros Hbus Hb Hm. rewrite container_disconnect_run by done.
    unfold result, state_after, trace. cbn.
    split_and!; try done.
    + by destruct (MessageSubscriberService.isConnected
                     (ServiceContainer.subscriberService s)) eqn:Hcon.
    + by intros ->.
  - intros Hbus Hb Hm r'. subst r'.
    rewrite container_connect_run.
    destruct s as [[hm cm dm] [hb cb db] sub]. cbn in Hbus, Hb, Hm. subst dm db.
    cbn [ServiceContainer.messageService ServiceContainer.broadcastService
         ServiceContainer.subscriberService ChimeRedisClient.client_connect
         ChimeRedisClient.getClient ChimeRedisClient.set_has_client
         ChimeRedisClient.has_client].
    destruct (succeeds cm), (succeeds cb),
      (succeeds (MessageSubscriberService.redis sub RConnect));
      unfold state_after; cbn [fst snd];
      (rewrite container_disconnect_run by (by destruct sub));
      unfold result, trace; cbn;
      destruct (MessageSubscriberService.isConnected sub) eqn:Hcon, hb; cbn;
      (split_and!; [done| |intros; try done|done]);
      repeat (first [apply list_elem_of_here|apply list_elem_of_further]).
Qed.

Lemma container_disconnect_witness :
  let r := ServiceContainer.disconnect
             (state_after (ServiceContainer.connect container_broadcast_down)) in
  result (ServiceContainer.connect container_broadcast_down)
  = Thrown (Error "Redis client not connected")
  ∧ result r = Normal tt
  ∧ (MessageSvc, RDisconnect) ∈ trace r
  ∧ (BroadcastSvc, RDisconnect) ∈ trace r.
Proof.
  intros r. split; [reflexivity|].
  destruct (container_disconnect container_broadcast_down) as (_ & _ & Hafter).
  destruct Hafter as (Hres & Hmessage & Hbroadcast & _); [reflexivity..|].
  split; [exact Hres|]. split; [exact Hmessage|]. by apply Hbroadcast.
Defined.
